(** * Proteus [Session]: a shallow embedding of [session/Session.ts]

    The development follows the TypeScript class [Session] method by method.

    - JavaScript objects used as maps ([IntermediateSessionState]) are
      association lists in insertion order.  The keys are the string form of
      a [SessionTag]; such a key is never a canonical array index, so the
      enumeration order of [Object.keys] is the insertion order.
    - [SessionState] instances are mutable objects: they live in a heap of
      cells and the session refers to them by reference, so that in-place
      mutation by [SessionState.decrypt] and aliasing are visible.
    - Exceptions and mutation are threaded by a state-and-error monad in
      which a [throw] keeps every mutation performed before it, as in
      JavaScript.
    - The cryptographic layer, the key and message classes, the prekey
      store and the CBOR coder are collaborators; the session code is
      written over the interface [Collab].
    - The text of error messages is not modelled; an error is its class and
      its code.
    - Session tags and keys are immutable values.  Prekey ids are numbers;
      where a property needs them to be unsigned 16 bit, as [PreKeyMessage]
      and [PreKeyBundle] decode them, it says so.
    - Random draws ([KeyPair.new()], [new SessionTag()]) are arguments of
      the function that makes them.
    - [counter] and [idx] are integers: the code keeps them between 0 and
      [Number.MAX_SAFE_INTEGER], where JavaScript numbers are exact. *)

From Stdlib Require Import ZArith List Lia Bool.
From stdpp Require Import base list strings.
Import ListNotations.

Set Implicit Arguments.

(** ** Errors ([../errors/]) *)

Inductive ErrorClass : Type :=
| ProteusError
| DecryptError
| DecryptError_RemoteIdentityChanged
| DecryptError_InvalidSignature
| DecryptError_InvalidMessage
| DecryptError_DuplicateMessage
| DecryptError_TooDistantFuture
| DecryptError_OutdatedMessage
| DecryptError_PrekeyNotFound
| DecodeError
| DecodeError_LocalIdentityChanged
| DecodeError_InvalidType
| RangeError
| TypeError
| OtherError.

Record Error : Type := mkError { err_class : ErrorClass; err_code : option Z }.

Definition CASE_101 : option Z := Some 101%Z.
Definition CASE_102 : option Z := Some 102%Z.
Definition CASE_200 : option Z := Some 200%Z.
Definition CASE_201 : option Z := Some 201%Z.
Definition CASE_202 : option Z := Some 202%Z.
Definition CASE_203 : option Z := Some 203%Z.
Definition CASE_204 : option Z := Some 204%Z.
Definition CASE_205 : option Z := Some 205%Z.
Definition CASE_300 : option Z := Some 300%Z.
Definition CASE_301 : option Z := Some 301%Z.

(** [error instanceof DecryptError.InvalidSignature] and
    [error instanceof DecryptError.InvalidMessage]: neither class has a
    subclass. *)
Definition instanceof_InvalidSignature (e : Error) : bool :=
  match err_class e with DecryptError_InvalidSignature => true | _ => false end.

Definition instanceof_InvalidMessage (e : Error) : bool :=
  match err_class e with DecryptError_InvalidMessage => true | _ => false end.

(** [new Error(...)] thrown by the runtime itself: reading a property of
    [undefined], or [reduce] of an empty array without initial value. *)
Definition runtime_TypeError : Error := mkError TypeError None.

(** ** Constants *)

Definition MAX_RECV_CHAINS : Z := 5.
Definition MAX_SESSION_STATES : Z := 100.
(** [Number.MAX_SAFE_INTEGER] is 2^53 - 1. *)
Definition MAX_SAFE_INTEGER : Z := 9007199254740991.
(** [PreKey.MAX_PREKEY_ID] is 0xFFFF; prekey ids are unsigned 16 bit. *)
Definition MAX_PREKEY_ID : Z := 65535.

Definition is_u8 (n : Z) : Prop := (0 <= n <= 255)%Z.
Definition is_u16 (n : Z) : Prop := (0 <= n <= 65535)%Z.

(** ** Messages *)

Record PreKeyMessageOf (PublicKey IdentityKey CipherMessage : Type) : Type :=
  mkPreKeyMessage {
    pkm_prekey_id : Z;
    pkm_base_key : PublicKey;
    pkm_identity_key : IdentityKey;
    pkm_message : CipherMessage
  }.

(** What [envelope.message] can be: the two classes tested with
    [instanceof], or anything else. *)
Inductive MessageOf (PublicKey IdentityKey CipherMessage : Type) : Type :=
| IsCipherMessage (m : CipherMessage)
| IsPreKeyMessage (m : PreKeyMessageOf PublicKey IdentityKey CipherMessage)
| IsUnknownMessage.
Arguments IsCipherMessage {_ _ _} m.
Arguments IsPreKeyMessage {_ _ _} m.
Arguments IsUnknownMessage {_ _ _}.

(** ** Collaborators

    Everything [Session] imports.  Asynchronous calls are modelled by their
    result; a rejected promise is an [Error]. *)

Record Collab : Type := mkCollab {
  (* the errors module: the code a DecodeError carries when its constructor
     is called without one *)
  DecodeError_code : option Z;
  (* keys *)
  IdentityKey : Type;
  IdentityKey_fingerprint : IdentityKey -> string;
  IdentityKeyPair : Type;
  IdentityKeyPair_public_key : IdentityKeyPair -> IdentityKey;
  PublicKey : Type;
  KeyPair : Type;
  KeyPair_public_key : KeyPair -> PublicKey;
  PreKey : Type;
  PreKey_key_pair : PreKey -> KeyPair;
  PreKeyBundle : Type;
  PreKeyBundle_prekey_id : PreKeyBundle -> Z;
  PreKeyBundle_identity_key : PreKeyBundle -> IdentityKey;
  (* messages *)
  SessionTag : Type;
  SessionTag_toString : SessionTag -> string;
  CipherMessage : Type;
  CipherMessage_session_tag : CipherMessage -> SessionTag;
  Envelope : Type;
  Envelope_message : Envelope -> MessageOf PublicKey IdentityKey CipherMessage;
  Plaintext : Type;
  (* the unit of the wire format: an ArrayBuffer is a list of them *)
  Wire : Type;
  (* the ratchet: the content of a SessionState object and its methods;
     encrypt and decrypt return the content after the call, whether they
     throw or not *)
  SessionState : Type;
  SessionState_init_as_alice :
    IdentityKeyPair -> KeyPair -> PreKeyBundle -> Error + SessionState;
  SessionState_init_as_bob :
    IdentityKeyPair -> KeyPair -> IdentityKey -> PublicKey -> Error + SessionState;
  SessionState_encrypt :
    SessionState -> IdentityKey -> option (option Z * option PublicKey) ->
    SessionTag -> Plaintext -> SessionState * (Error + Envelope);
  SessionState_decrypt :
    SessionState -> Envelope -> CipherMessage -> SessionState * (Error + Plaintext);
  SessionState_serialise : SessionState -> list Wire;
  SessionState_deserialise : list Wire -> Error + SessionState;
  (* the prekey store, a state machine of its own: load_prekey answers with
     the prekey or with nothing, delete_prekey may throw *)
  PreKeyStore : Type;
  PreKeyStore_load_prekey : PreKeyStore -> Z -> PreKeyStore * option PreKey;
  PreKeyStore_delete_prekey : PreKeyStore -> Z -> PreKeyStore * (Error + unit);
  (* MemoryUtil.zeroize on the content of a SessionState object *)
  MemoryUtil_zeroize_state : SessionState -> SessionState;
  (* the CBOR coder: what each Encoder call appends, what each Decoder call
     consumes; Decoder_optional_object is decoder.optional(() => decoder.object()) *)
  Encoder_object : Z -> list Wire;
  Encoder_u8 : Z -> list Wire;
  Encoder_u16 : Z -> list Wire;
  Encoder_null : list Wire;
  Decoder_object : list Wire -> Error + (Z * list Wire);
  Decoder_u8 : list Wire -> Error + (Z * list Wire);
  Decoder_u16 : list Wire -> Error + (Z * list Wire);
  Decoder_optional_object : list Wire -> Error + (option Z * list Wire);
  Decoder_skip : list Wire -> Error + (unit * list Wire);
  SessionTag_encode : SessionTag -> list Wire;
  SessionTag_decode : list Wire -> Error + (SessionTag * list Wire);
  IdentityKey_encode : IdentityKey -> list Wire;
  IdentityKey_decode : list Wire -> Error + (IdentityKey * list Wire);
  PublicKey_encode : PublicKey -> list Wire;
  PublicKey_decode : list Wire -> Error + (PublicKey * list Wire);
  SessionState_encode : SessionState -> list Wire;
  SessionState_decode : list Wire -> Error + (SessionState * list Wire)
}.

(** ** JavaScript objects with string keys, in insertion order *)

Section JsObject.
Context {V : Type}.

Definition JsObject : Type := list (string * V).

(** [o[k]], [undefined] being [None]; [o.hasOwnProperty(k)] is whether it is
    [Some]. *)
Fixpoint obj_get (k : string) (o : JsObject) : option V :=
  match o with
  | [] => None
  | (k', v) :: o' => if String.eqb k' k then Some v else obj_get k o'
  end.

(** [o[k] = v]: an existing key keeps its place, a new key goes last. *)
Fixpoint obj_set (k : string) (v : V) (o : JsObject) : JsObject :=
  match o with
  | [] => [(k, v)]
  | (k', v') :: o' =>
      if String.eqb k' k then (k', v) :: o' else (k', v') :: obj_set k v o'
  end.

(** [delete o[k]] *)
Fixpoint obj_delete (k : string) (o : JsObject) : JsObject :=
  match o with
  | [] => []
  | (k', v') :: o' =>
      if String.eqb k' k then o' else (k', v') :: obj_delete k o'
  end.

(** [Object.keys(o)] *)
Definition obj_keys (o : JsObject) : list string := map fst o.

(** [Object.keys(o).length] *)
Definition obj_size (o : JsObject) : Z := Z.of_nat (length (obj_keys o)).
End JsObject.
Arguments JsObject : clear implicits.

(** ** The state-and-error monad *)

Definition M (S A : Type) : Type := S -> S * (Error + A).

Definition ret {S A : Type} (a : A) : M S A := fun s => (s, inr a).

Definition throw {S A : Type} (e : Error) : M S A := fun s => (s, inl e).

Definition bind {S A B : Type} (m : M S A) (k : A -> M S B) : M S B :=
  fun s =>
    match m s with
    | (s', inr a) => k a s'
    | (s', inl e) => (s', inl e)
    end.

(** [try { m } catch (error) { h error }]: the handler starts in the state
    the body left behind. *)
Definition try_catch {S A : Type} (m : M S A) (h : Error -> M S A) : M S A :=
  fun s =>
    match m s with
    | (s', inr a) => (s', inr a)
    | (s', inl e) => h e s'
    end.

Definition gets {S A : Type} (f : S -> A) : M S A := fun s => (s, inr (f s)).

Definition modify {S : Type} (f : S -> S) : M S unit := fun s => (f s, inr tt).

(** Run a computation on the second component of a pair of states. *)
Definition on_snd {S1 S2 A : Type} (m : M S2 A) : M (S1 * S2) A :=
  fun s =>
    match m (snd s) with
    | (s2, r) => ((fst s, s2), r)
    end.

Definition on_fst {S1 S2 A : Type} (m : M S1 A) : M (S1 * S2) A :=
  fun s =>
    match m (fst s) with
    | (s1, r) => ((s1, snd s), r)
    end.

Declare Scope monad_scope.
Delimit Scope monad_scope with monad.
Notation "x <- m ;; k" := (bind m (fun x => k))
  (at level 100, m at next level, right associativity) : monad_scope.
Notation "m ;; k" := (bind m (fun _ => k))
  (at level 100, right associativity) : monad_scope.
Open Scope monad_scope.

(** ** The session and its world *)

Section Session.
Context (C : Collab).

Abbreviation PreKeyMessage := (PreKeyMessageOf (PublicKey C) (IdentityKey C) (CipherMessage C)).

(** A reference to a [SessionState] object: its address in the heap. *)
Definition ref : Type := nat.

(** An entry of [IntermediateSessionState]. *)
Record Entry : Type := mkEntry {
  idx : Z;
  state : ref;
  tag : SessionTag C
}.

(** The value of [pending_prekey]: [null], or an array of a prekey id and a
    public key.  [decode] fills the array item by item and can leave an
    item out; a missing item reads as [undefined]. *)
Definition PendingPrekey : Type := option (option Z * option (PublicKey C)).

Record Session : Type := mkSession {
  local_identity : IdentityKeyPair C;
  remote_identity : IdentityKey C;
  version : Z;
  counter : Z;
  pending_prekey : PendingPrekey;
  session_states : JsObject Entry;
  session_tag : SessionTag C;
  session_tag_name : string
}.

(** What the collaborators were asked to do, in call order. *)
Inductive Event : Type :=
| Ev_load_prekey (prekey_id : Z)
| Ev_delete_prekey (prekey_id : Z)
| Ev_zeroize_prekey (prekey : option (PreKey C))
| Ev_zeroize_entry (entry : Entry).

(** Everything outside the session object: the [SessionState] objects, the
    prekey store handed to the session, and the log of collaborator calls. *)
Record World : Type := mkWorld {
  heap : list (SessionState C);
  store : PreKeyStore C;
  trace : list Event
}.

Definition set_heap (h : list (SessionState C)) (w : World) : World :=
  mkWorld h (store w) (trace w).

Definition set_store (st : PreKeyStore C) (w : World) : World :=
  mkWorld (heap w) st (trace w).

Definition log (ev : Event) : M World unit :=
  modify (fun w => mkWorld (heap w) (store w) (trace w ++ [ev])).

(** *** [SessionState] objects *)

Definition new_object (v : SessionState C) : M World ref :=
  fun w => (set_heap (heap w ++ [v]) w, inr (length (heap w))).

(** A reference always points to an allocated object; the [TypeError] branch
    is there to make the read total. *)
Definition read_object (r : ref) : M World (SessionState C) :=
  fun w =>
    match heap w !! r with
    | Some v => (w, inr v)
    | None => (w, inl runtime_TypeError)
    end.

Definition write_object (r : ref) (v : SessionState C) : M World unit :=
  modify (fun w => set_heap (<[r := v]> (heap w)) w).

Definition of_result {S A : Type} (r : Error + A) : M S A :=
  match r with
  | inl e => throw e
  | inr a => ret a
  end.

(** [SessionState.init_as_bob(...)]: a new object. *)
Definition init_as_bob (local : IdentityKeyPair C) (prekey : KeyPair C)
    (remote : IdentityKey C) (base : PublicKey C) : M World ref :=
  v <- of_result (SessionState_init_as_bob C local prekey remote base) ;;
  new_object v.

(** [SessionState.init_as_alice(...)]: a new object. *)
Definition init_as_alice (local : IdentityKeyPair C) (alice_base : KeyPair C)
    (bundle : PreKeyBundle C) : M World ref :=
  v <- of_result (SessionState_init_as_alice C local alice_base bundle) ;;
  new_object v.

(** [state.decrypt(envelope, msg)]: mutates the object in place, also when
    it throws. *)
Definition state_decrypt (r : ref) (envelope : Envelope C) (msg : CipherMessage C)
    : M World (Plaintext C) :=
  v <- read_object r ;;
  write_object r (fst (SessionState_decrypt C v envelope msg)) ;;
  of_result (snd (SessionState_decrypt C v envelope msg)).

(** [state.encrypt(...)]: mutates the object in place. *)
Definition state_encrypt (r : ref) (identity : IdentityKey C)
    (pending : PendingPrekey) (t : SessionTag C) (plaintext : Plaintext C)
    : M World (Envelope C) :=
  v <- read_object r ;;
  write_object r (fst (SessionState_encrypt C v identity pending t plaintext)) ;;
  of_result (snd (SessionState_encrypt C v identity pending t plaintext)).

(** [state.serialise()] *)
Definition state_serialise (r : ref) : M World (list (Wire C)) :=
  v <- read_object r ;;
  ret (SessionState_serialise C v).

(** [SessionState.deserialise(buf)]: a new object. *)
Definition state_deserialise (buf : list (Wire C)) : M World ref :=
  v <- of_result (SessionState_deserialise C buf) ;;
  new_object v.

(** *** The prekey store *)

Definition load_prekey (prekey_id : Z) : M World (option (PreKey C)) :=
  log (Ev_load_prekey prekey_id) ;;
  fun w =>
    (set_store (fst (PreKeyStore_load_prekey C (store w) prekey_id)) w,
     inr (snd (PreKeyStore_load_prekey C (store w) prekey_id))).

Definition delete_prekey (prekey_id : Z) : M World unit :=
  log (Ev_delete_prekey prekey_id) ;;
  fun w =>
    (set_store (fst (PreKeyStore_delete_prekey C (store w) prekey_id)) w,
     snd (PreKeyStore_delete_prekey C (store w) prekey_id)).

(** *** [MemoryUtil.zeroize] *)

(** Modelled from the spec: [MemoryUtil.zeroize] is not among the sources.
    It overwrites secret material in place and is a no-op on a missing
    value.  On a prekey (or [undefined]) the call is recorded. *)
Definition zeroize_prekey (prekey : option (PreKey C)) : M World unit :=
  log (Ev_zeroize_prekey prekey).

(** Modelled from the spec: on an entry of the state table the call is
    recorded and the [SessionState] object the entry holds is overwritten in
    place. *)
Definition zeroize_entry (entry : option Entry) : M World unit :=
  match entry with
  | None => ret tt
  | Some e =>
      log (Ev_zeroize_entry e) ;;
      v <- read_object (state e) ;;
      write_object (state e) (MemoryUtil_zeroize_state C v)
  end.

(** *** Access to [this] *)

Definition this : M (Session * World) Session := gets fst.

Definition update_this (f : Session -> Session) : M (Session * World) unit :=
  modify (fun sw => (f (fst sw), snd sw)).

Definition set_counter (n : Z) (s : Session) : Session :=
  mkSession (local_identity s) (remote_identity s) (version s) n
    (pending_prekey s) (session_states s) (session_tag s) (session_tag_name s).

Definition set_pending_prekey (p : PendingPrekey) (s : Session) : Session :=
  mkSession (local_identity s) (remote_identity s) (version s) (counter s)
    p (session_states s) (session_tag s) (session_tag_name s).

Definition set_session_states (o : JsObject Entry) (s : Session) : Session :=
  mkSession (local_identity s) (remote_identity s) (version s) (counter s)
    (pending_prekey s) o (session_tag s) (session_tag_name s).

Definition set_session_tag (t : SessionTag C) (name : string) (s : Session) : Session :=
  mkSession (local_identity s) (remote_identity s) (version s) (counter s)
    (pending_prekey s) (session_states s) t name.

(** Run a method on a session object; the caller gets the object back with
    the result. *)
Definition with_session {A : Type} (s : Session) (m : M (Session * World) A)
    : M World (Session * A) :=
  fun w =>
    match m (s, w) with
    | (sw, inl e) => (snd sw, inl e)
    | (sw, inr a) => (snd sw, inr (fst sw, a))
    end.

(** *** [constructor] *)

Definition new_Session (localIdentity : IdentityKeyPair C)
    (remoteIdentity : IdentityKey C) (sessionTag : SessionTag C)
    (pendingPrekey : PendingPrekey)
    (sessionStates : JsObject Entry) (version : Z) : Session :=
  {| local_identity := localIdentity;
     pending_prekey := pendingPrekey;
     remote_identity := remoteIdentity;
     session_states := sessionStates;
     session_tag := sessionTag;
     session_tag_name := SessionTag_toString C sessionTag;
     version := version;
     counter := 0 |}.

(** *** [_evict_oldest_session_state] *)

(** The callback of [reduce], folded over the keys after the first. *)
Fixpoint reduce_lowest (states : JsObject Entry) (lowest : string)
    (keys : list string) : Error + string :=
  match keys with
  | [] => inr lowest
  | obj :: keys' =>
      match obj_get obj states, obj_get lowest states with
      | Some eo, Some el =>
          reduce_lowest states (if (idx eo <? idx el)%Z then obj else lowest) keys'
      | _, _ => inl runtime_TypeError
      end
  end.

(** [Object.keys(states).filter(name => name !== current)] *)
Definition eviction_candidates (current : string) (states : JsObject Entry)
    : list string :=
  List.filter (fun sessionTagName => negb (String.eqb sessionTagName current))
         (obj_keys states).

(** [.reduce(...)] without initial value throws on an empty array. *)
Definition find_oldest (current : string) (states : JsObject Entry) : Error + string :=
  match eviction_candidates current states with
  | [] => inl runtime_TypeError
  | first :: others => reduce_lowest states first others
  end.

Definition _evict_oldest_session_state : M (Session * World) unit :=
  s <- this ;;
  oldest <- of_result (find_oldest (session_tag_name s) (session_states s)) ;;
  on_snd (zeroize_entry (obj_get oldest (session_states s))) ;;
  update_this (fun s => set_session_states (obj_delete oldest (session_states s)) s).

(** *** [_insert_session_state]

    [insert_and_promote] is the body of the method down to the definition of
    [obj_size]: the insertion or replacement, and the promotion of the tag.
    [_insert_session_state] adds the size test and the eviction. *)

Definition insert_and_promote (sessionTag : SessionTag C) (st : ref)
    : M (Session * World) unit :=
  let sessionTagName := SessionTag_toString C sessionTag in
  s <- this ;;
  match obj_get sessionTagName (session_states s) with
  | Some e =>
      update_this (set_session_states
        (obj_set sessionTagName (mkEntry (idx e) st (tag e)) (session_states s)))
  | None =>
      (if (MAX_SAFE_INTEGER <=? counter s)%Z
       then update_this (fun s => set_counter 0 (set_session_states [] s))
       else ret tt) ;;
      update_this (fun s =>
        set_counter (counter s + 1)
          (set_session_states
             (obj_set sessionTagName (mkEntry (counter s) st sessionTag)
                      (session_states s)) s))
  end ;;
  s <- this ;;
  if negb (String.eqb (session_tag_name s) sessionTagName)
  then update_this (set_session_tag sessionTag sessionTagName)
  else ret tt.

Definition _insert_session_state (sessionTag : SessionTag C) (st : ref)
    : M (Session * World) unit :=
  insert_and_promote sessionTag st ;;
  s <- this ;;
  if (obj_size (session_states s) <? MAX_SESSION_STATES)%Z
  then ret tt
  else _evict_oldest_session_state.

(** *** [get_local_identity] *)

Definition get_local_identity (s : Session) : IdentityKey C :=
  IdentityKeyPair_public_key C (local_identity s).

(** *** [_new_state] *)

Definition _new_state (preKeyMessage : PreKeyMessage) : M (Session * World) ref :=
  pre_key <- on_snd (load_prekey (pkm_prekey_id preKeyMessage)) ;;
  match pre_key with
  | Some pre_key =>
      s <- this ;;
      on_snd (init_as_bob (local_identity s) (PreKey_key_pair C pre_key)
                (pkm_identity_key preKeyMessage) (pkm_base_key preKeyMessage))
  | None => throw (mkError ProteusError CASE_101)
  end.

(** *** [init_from_prekey]

    [alice_base] and [session_tag] are the values drawn by [KeyPair.new()]
    and [new SessionTag()]. *)

Definition init_from_prekey (local_identity : IdentityKeyPair C)
    (remote_pkbundle : PreKeyBundle C) (alice_base : KeyPair C)
    (session_tag : SessionTag C) : M World Session :=
  state <- init_as_alice local_identity alice_base remote_pkbundle ;;
  let pendingPrekey :=
    (Some (PreKeyBundle_prekey_id C remote_pkbundle),
     Some (KeyPair_public_key C alice_base)) in
  let session :=
    new_Session local_identity (PreKeyBundle_identity_key C remote_pkbundle)
      session_tag (Some pendingPrekey) [] 1 in
  r <- with_session session (_insert_session_state session_tag state) ;;
  ret (fst r).

(** *** [init_from_message] *)

Definition init_from_message (ourIdentity : IdentityKeyPair C)
    (envelope : Envelope C) : M World (Session * Plaintext C) :=
  match Envelope_message C envelope with
  | IsCipherMessage _ => throw (mkError DecryptError_InvalidMessage CASE_201)
  | IsPreKeyMessage preKeyMessage =>
      let session :=
        new_Session ourIdentity (pkm_identity_key preKeyMessage)
          (CipherMessage_session_tag C (pkm_message preKeyMessage)) None [] 1 in
      with_session session (
        state <- _new_state preKeyMessage ;;
        plain <- on_snd (state_decrypt state envelope (pkm_message preKeyMessage)) ;;
        _insert_session_state
          (CipherMessage_session_tag C (pkm_message preKeyMessage)) state ;;
        (if (pkm_prekey_id preKeyMessage <? MAX_PREKEY_ID)%Z
         then
           prekey <- on_snd (load_prekey (pkm_prekey_id preKeyMessage)) ;;
           on_snd (zeroize_prekey prekey) ;;
           try_catch
             (on_snd (delete_prekey (pkm_prekey_id preKeyMessage)))
             (fun error => throw (mkError DecryptError_PrekeyNotFound CASE_203))
         else ret tt) ;;
        ret plain)
  | IsUnknownMessage => throw (mkError DecryptError_InvalidMessage CASE_202)
  end.

(** *** [encrypt] *)

Definition encrypt (plaintext : Plaintext C) : M (Session * World) (Envelope C) :=
  s <- this ;;
  match obj_get (session_tag_name s) (session_states s) with
  | None => throw (mkError ProteusError CASE_102)
  | Some session_state =>
      on_snd (state_encrypt (state session_state)
                (IdentityKeyPair_public_key C (local_identity s))
                (pending_prekey s) (session_tag s) plaintext)
  end.

(** *** [_decrypt_cipher_message] *)

Definition _decrypt_cipher_message (envelope : Envelope C) (msg : CipherMessage C)
    : M (Session * World) (Plaintext C) :=
  s <- this ;;
  match obj_get (SessionTag_toString C (CipherMessage_session_tag C msg))
                (session_states s) with
  | None => throw (mkError DecryptError_InvalidMessage CASE_205)
  | Some state_entry =>
      (* serialise and de-serialise for a deep clone *)
      buf <- on_snd (state_serialise (state state_entry)) ;;
      sessionState <- on_snd (state_deserialise buf) ;;
      plaintext <- on_snd (state_decrypt sessionState envelope msg) ;;
      update_this (set_pending_prekey None) ;;
      _insert_session_state (CipherMessage_session_tag C msg) sessionState ;;
      ret plaintext
  end.

(** *** [_decrypt_prekey_message]

    [recover_with_new_state] is the body of the [if] inside the [catch]. *)

Definition recover_with_new_state (envelope : Envelope C) (msg : PreKeyMessage)
    : M (Session * World) (Plaintext C) :=
  state <- _new_state msg ;;
  plaintext <- on_snd (state_decrypt state envelope (pkm_message msg)) ;;
  (if negb (pkm_prekey_id msg =? MAX_PREKEY_ID)%Z
   then
     prekey <- on_snd (load_prekey (pkm_prekey_id msg)) ;;
     on_snd (zeroize_prekey prekey) ;;
     on_snd (delete_prekey (pkm_prekey_id msg))
   else ret tt) ;;
  _insert_session_state (CipherMessage_session_tag C (pkm_message msg)) state ;;
  update_this (set_pending_prekey None) ;;
  ret plaintext.

Definition _decrypt_prekey_message (envelope : Envelope C) (msg : PreKeyMessage)
    : M (Session * World) (Plaintext C) :=
  try_catch
    (plaintext <- _decrypt_cipher_message envelope (pkm_message msg) ;;
     ret plaintext)
    (fun error =>
       if instanceof_InvalidSignature error || instanceof_InvalidMessage error
       then recover_with_new_state envelope msg
       else throw error).

(** *** [decrypt]

    The [prekey_store] argument is the store of the world. *)

Definition decrypt (envelope : Envelope C) : M (Session * World) (Plaintext C) :=
  match Envelope_message C envelope with
  | IsCipherMessage preKeyMessage => _decrypt_cipher_message envelope preKeyMessage
  | IsPreKeyMessage preKeyMessage =>
      s <- this ;;
      let actual_fingerprint :=
        IdentityKey_fingerprint C (pkm_identity_key preKeyMessage) in
      let expected_fingerprint := IdentityKey_fingerprint C (remote_identity s) in
      if negb (String.eqb actual_fingerprint expected_fingerprint)
      then throw (mkError DecryptError_RemoteIdentityChanged CASE_204)
      else _decrypt_prekey_message envelope preKeyMessage
  | IsUnknownMessage => throw (mkError DecryptError CASE_200)
  end.

(** *** [encode] and [serialise]

    The encoder is a buffer to which every call appends. *)

Definition emit (ws : list (Wire C)) : M (World * list (Wire C)) unit :=
  on_snd (modify (fun buf => buf ++ ws)).

(** The loop [for (const sessionStatesIndex of sessionStatesIndices)]. *)
Fixpoint encode_states (states : JsObject Entry) (sessionStatesIndices : list string)
    : M (World * list (Wire C)) unit :=
  match sessionStatesIndices with
  | [] => ret tt
  | sessionStatesIndex :: rest =>
      match obj_get sessionStatesIndex states with
      | None => throw runtime_TypeError
      | Some entry =>
          emit (SessionTag_encode C (tag entry)) ;;
          v <- on_fst (read_object (state entry)) ;;
          emit (SessionState_encode C v) ;;
          encode_states states rest
      end
  end.

(** [encoder.u8(x)] and [encoder.u16(x)].  The coder is not among the
    sources: it writes a number of the range ([Encoder_u8] and [Encoder_u16]
    are what it writes) and throws a [RangeError] on any other value,
    [undefined] included. *)
Definition encoder_u8 (x : Z) : M (World * list (Wire C)) unit :=
  if (0 <=? x)%Z && (x <=? 255)%Z
  then emit (Encoder_u8 C x)
  else throw (mkError RangeError None).

Definition encoder_u16 (x : option Z) : M (World * list (Wire C)) unit :=
  match x with
  | Some n =>
      if (0 <=? n)%Z && (n <=? 65535)%Z
      then emit (Encoder_u16 C n)
      else throw (mkError RangeError None)
  | None => throw (mkError RangeError None)
  end.

Definition encode (s : Session) : M (World * list (Wire C)) unit :=
  emit (Encoder_object C 6) ;;
  encoder_u8 0 ;;
  encoder_u8 (version s) ;;
  encoder_u8 1 ;;
  emit (SessionTag_encode C (session_tag s)) ;;
  encoder_u8 2 ;;
  emit (IdentityKey_encode C (IdentityKeyPair_public_key C (local_identity s))) ;;
  encoder_u8 3 ;;
  emit (IdentityKey_encode C (remote_identity s)) ;;
  encoder_u8 4 ;;
  match pending_prekey s with
  | Some p =>
      emit (Encoder_object C 2) ;;
      encoder_u8 0 ;;
      encoder_u16 (fst p) ;;
      encoder_u8 1 ;;
      match snd p with
      | Some key => emit (PublicKey_encode C key)
      | None => throw runtime_TypeError
      end
  | None => emit (Encoder_null C)
  end ;;
  encoder_u8 5 ;;
  let sessionStatesIndices := obj_keys (session_states s) in
  emit (Encoder_object C (Z.of_nat (length sessionStatesIndices))) ;;
  encode_states (session_states s) sessionStatesIndices.

Definition serialise (s : Session) : M World (list (Wire C)) :=
  fun w =>
    match encode s (w, []) with
    | (wb, inl e) => (fst wb, inl e)
    | (wb, inr _) => (fst wb, inr (snd wb))
    end.

(** *** [decode] and [deserialise]

    The decoder is the input that is left; every call consumes a prefix. *)

Definition decoder_call {A : Type} (f : list (Wire C) -> Error + (A * list (Wire C)))
    : M (World * list (Wire C)) A :=
  fun s =>
    match f (snd s) with
    | inl e => (s, inl e)
    | inr (a, rest) => ((fst s, rest), inr a)
    end.

(** The local variable [pendingPrekey: any]. *)
Inductive PendingVar : Type :=
| pending_undefined
| pending_null
| pending_array (item0 : option Z) (item1 : option (PublicKey C)).

(** The local variables of [decode]. *)
Record DecodeVars : Type := mkDecodeVars {
  var_version : option Z;
  var_sessionTag : option (SessionTag C);
  var_remoteIdentity : option (IdentityKey C);
  var_pendingPrekey : PendingVar;
  var_sessionStates : JsObject Entry
}.

Definition initial_vars : DecodeVars :=
  mkDecodeVars None None None pending_undefined [].

(** The loop over the entries of field 5. *)
Fixpoint decode_states (n : nat) (index : Z) (sessionStates : JsObject Entry)
    : M (World * list (Wire C)) (JsObject Entry) :=
  match n with
  | O => ret sessionStates
  | S n' =>
      tag <- decoder_call (SessionTag_decode C) ;;
      v <- decoder_call (SessionState_decode C) ;;
      st <- on_fst (new_object v) ;;
      decode_states n' (index + 1)
        (obj_set (SessionTag_toString C tag) (mkEntry index st tag) sessionStates)
  end.

(** One round of the loop [for (let key = 0; key <= 1; ++key)]. *)
Definition decode_pending_item (a : option Z * option (PublicKey C))
    : M (World * list (Wire C)) (option Z * option (PublicKey C)) :=
  t <- decoder_call (Decoder_u8 C) ;;
  match t with
  | 0%Z => n <- decoder_call (Decoder_u16 C) ;; ret (Some n, snd a)
  | 1%Z => k <- decoder_call (PublicKey_decode C) ;; ret (fst a, Some k)
  | _ => ret a
  end.

(** One round of the loop over the properties: the [switch]. *)
Definition decode_property (localIdentity : IdentityKeyPair C) (vars : DecodeVars)
    : M (World * list (Wire C)) DecodeVars :=
  t <- decoder_call (Decoder_u8 C) ;;
  match t with
  | 0%Z =>
      version <- decoder_call (Decoder_u8 C) ;;
      ret (mkDecodeVars (Some version) (var_sessionTag vars) (var_remoteIdentity vars)
             (var_pendingPrekey vars) (var_sessionStates vars))
  | 1%Z =>
      sessionTag <- decoder_call (SessionTag_decode C) ;;
      ret (mkDecodeVars (var_version vars) (Some sessionTag) (var_remoteIdentity vars)
             (var_pendingPrekey vars) (var_sessionStates vars))
  | 2%Z =>
      identity_key <- decoder_call (IdentityKey_decode C) ;;
      if negb (String.eqb
                 (IdentityKey_fingerprint C (IdentityKeyPair_public_key C localIdentity))
                 (IdentityKey_fingerprint C identity_key))
      then throw (mkError DecodeError_LocalIdentityChanged CASE_300)
      else ret vars
  | 3%Z =>
      remoteIdentity <- decoder_call (IdentityKey_decode C) ;;
      ret (mkDecodeVars (var_version vars) (var_sessionTag vars) (Some remoteIdentity)
             (var_pendingPrekey vars) (var_sessionStates vars))
  | 4%Z =>
      o <- decoder_call (Decoder_optional_object C) ;;
      match o with
      | None =>
          ret (mkDecodeVars (var_version vars) (var_sessionTag vars)
                 (var_remoteIdentity vars) pending_null (var_sessionStates vars))
      | Some 2%Z =>
          a <- decode_pending_item (None, None) ;;
          a <- decode_pending_item a ;;
          ret (mkDecodeVars (var_version vars) (var_sessionTag vars)
                 (var_remoteIdentity vars) (pending_array (fst a) (snd a))
                 (var_sessionStates vars))
      | Some _ => throw (mkError DecodeError_InvalidType CASE_301)
      end
  | 5%Z =>
      nprops <- decoder_call (Decoder_object C) ;;
      sessionStates <- decode_states (Z.to_nat nprops) 0 [] ;;
      ret (mkDecodeVars (var_version vars) (var_sessionTag vars)
             (var_remoteIdentity vars) (var_pendingPrekey vars) sessionStates)
  | _ =>
      decoder_call (Decoder_skip C) ;;
      ret vars
  end.

Fixpoint decode_properties (n : nat) (localIdentity : IdentityKeyPair C)
    (vars : DecodeVars) : M (World * list (Wire C)) DecodeVars :=
  match n with
  | O => ret vars
  | S n' =>
      vars' <- decode_property localIdentity vars ;;
      decode_properties n' localIdentity vars'
  end.

(** The call of the constructor that ends [decode]: an argument that is
    [undefined] takes the default of its parameter.  [random_tag] is what the
    default [new SessionTag()] draws.  The array [pendingPrekey] is handed
    over as it is, with the items the loop has set. *)
Definition construct_decoded (localIdentity : IdentityKeyPair C)
    (remoteIdentity : IdentityKey C) (random_tag : SessionTag C)
    (vars : DecodeVars) : Session :=
  let sessionTag := default random_tag (var_sessionTag vars) in
  let version := default 1%Z (var_version vars) in
  let pendingPrekey :=
    match var_pendingPrekey vars with
    | pending_undefined | pending_null => None
    | pending_array item0 item1 => Some (item0, item1)
    end in
  new_Session localIdentity remoteIdentity sessionTag pendingPrekey
    (var_sessionStates vars) version.

(** [new DecodeError('Missing remote identity')] is made without a code: the
    error carries the code the class gives by default, [DecodeError_code]. *)
Definition decode (localIdentity : IdentityKeyPair C) (random_tag : SessionTag C)
    : M (World * list (Wire C)) Session :=
  propertiesLength <- decoder_call (Decoder_object C) ;;
  vars <- decode_properties (Z.to_nat propertiesLength) localIdentity initial_vars ;;
  match var_remoteIdentity vars with
  | None => throw (mkError DecodeError (DecodeError_code C))
  | Some remoteIdentity =>
      ret (construct_decoded localIdentity remoteIdentity random_tag vars)
  end.

Definition deserialise (local_identity : IdentityKeyPair C) (buf : list (Wire C))
    (random_tag : SessionTag C) : M World Session :=
  fun w =>
    match decode local_identity random_tag (w, buf) with
    | (wb, r) => (fst wb, r)
    end.

(** ** Invariants and reachable sessions *)

(** What holds of every session object by the nature of JavaScript values:
    the keys of an object are distinct, and a reference points to an
    allocated object. *)
Definition well_formed (s : Session) (w : World) : Prop :=
  List.NoDup (obj_keys (session_states s)) /\
  Forall (fun ke => state (snd ke) < length (heap w)) (session_states s).

(** The invariant of the sessions the public interface produces. *)
Record session_ok (s : Session) (w : World) : Prop := mk_session_ok {
  ok_well_formed : well_formed s w;
  ok_keys : Forall (fun ke => SessionTag_toString C (tag (snd ke)) = fst ke)
                   (session_states s);
  ok_tag_name : session_tag_name s = SessionTag_toString C (session_tag s);
  ok_version : is_u8 (version s);
  ok_pending : forall p, pending_prekey s = Some p ->
                 exists id key, p = (Some id, Some key) /\ is_u16 id;
  ok_size : (obj_size (session_states s) < MAX_SESSION_STATES)%Z
}.

(** Invariant 3 of the data model: every [idx] is below [counter]. *)
Definition idx_below_counter (s : Session) : Prop :=
  Forall (fun ke => (idx (snd ke) < counter s)%Z) (session_states s).

(** The sessions a caller can hold: made by one of the two factories, driven
    by [encrypt] and [decrypt] (whether they return or throw), stored and
    loaded again by [serialise] and [deserialise].  Between two calls the
    caller may hand over another prekey store.  The prekey id of a bundle is
    an unsigned 16 bit number. *)
Inductive reachable : Session -> World -> Prop :=
| reach_init_from_prekey local bundle alice_base t w0 w s :
    is_u16 (PreKeyBundle_prekey_id C bundle) ->
    init_from_prekey local bundle alice_base t w0 = (w, inr s) ->
    reachable s w
| reach_init_from_message our envelope w0 w s plain :
    init_from_message our envelope w0 = (w, inr (s, plain)) ->
    reachable s w
| reach_encrypt s w plaintext s' w' r :
    reachable s w ->
    encrypt plaintext (s, w) = ((s', w'), r) ->
    reachable s' w'
| reach_decrypt s w envelope s' w' r :
    reachable s w ->
    decrypt envelope (s, w) = ((s', w'), r) ->
    reachable s' w'
| reach_deserialise s w buf w1 random_tag s' w' :
    reachable s w ->
    serialise s w = (w1, inr buf) ->
    deserialise (local_identity s) buf random_tag w1 = (w', inr s') ->
    reachable s' w'
| reach_store s w st :
    reachable s w ->
    reachable s (set_store st w).

(** What the round trip needs of the coder: every decoder reads back what
    the matching encoder wrote, whatever follows it. *)
Record CodecLaws : Prop := mk_CodecLaws {
  law_object : forall n rest, (0 <= n <= 4294967295)%Z ->
    Decoder_object C (Encoder_object C n ++ rest) = inr (n, rest);
  law_u8 : forall n rest, is_u8 n ->
    Decoder_u8 C (Encoder_u8 C n ++ rest) = inr (n, rest);
  law_u16 : forall n rest, is_u16 n ->
    Decoder_u16 C (Encoder_u16 C n ++ rest) = inr (n, rest);
  law_optional_null : forall rest,
    Decoder_optional_object C (Encoder_null C ++ rest) = inr (None, rest);
  law_optional_object : forall n rest, (0 <= n <= 4294967295)%Z ->
    Decoder_optional_object C (Encoder_object C n ++ rest) = inr (Some n, rest);
  law_SessionTag : forall t rest,
    SessionTag_decode C (SessionTag_encode C t ++ rest) = inr (t, rest);
  law_IdentityKey : forall k rest,
    IdentityKey_decode C (IdentityKey_encode C k ++ rest) = inr (k, rest);
  law_PublicKey : forall k rest,
    PublicKey_decode C (PublicKey_encode C k ++ rest) = inr (k, rest);
  law_SessionState : forall v rest,
    SessionState_decode C (SessionState_encode C v ++ rest) = inr (v, rest)
}.

(** The calls that concern prekeys, out of a trace. *)
Definition is_prekey_event (ev : Event) : bool :=
  match ev with
  | Ev_load_prekey _ | Ev_delete_prekey _ | Ev_zeroize_prekey _ => true
  | Ev_zeroize_entry _ => false
  end.

Definition prekey_events (tr : list Event) : list Event := List.filter is_prekey_event tr.

(** An entry as an observer sees it: its key, its tag and the content of its
    [SessionState] object. *)
Definition entry_view (w : World) (ke : string * Entry)
    : string * SessionTag C * option (SessionState C) :=
  (fst ke, tag (snd ke), heap w !! state (snd ke)).

(** Whether two worlds hold the same content at every reference the session
    holds. *)
Definition same_objects (s : Session) (w w' : World) : Prop :=
  forall k e, obj_get k (session_states s) = Some e ->
              heap w' !! state e = heap w !! state e.

(** Invariant 2 of the data model: the table has an entry under the current
    name. *)
Definition current_present (s : Session) : Prop :=
  exists e, obj_get (session_tag_name s) (session_states s) = Some e.

(** The [idx] of the entries, in table order. *)
Definition idx_list (states : JsObject Entry) : list Z :=
  map (fun ke => idx (snd ke)) states.

(** The entries are in the order of their [idx], without ties. *)
Fixpoint increasing (l : list Z) : Prop :=
  match l with
  | [] => True
  | x :: l' => Forall (fun y => (x < y)%Z) l' /\ increasing l'
  end.

(** The [CipherMessage] an envelope carries, on its own or inside a
    [PreKeyMessage]. *)
Definition inner_message (envelope : Envelope C) : option (CipherMessage C) :=
  match Envelope_message C envelope with
  | IsCipherMessage m => Some m
  | IsPreKeyMessage m => Some (pkm_message m)
  | IsUnknownMessage => None
  end.

(** Whether the heap of [w'] is the heap of [w] with new objects after it,
    the store and the trace being the same. *)
Definition only_allocates (w w' : World) : Prop :=
  store w' = store w /\ trace w' = trace w /\
  exists extra, heap w' = heap w ++ extra.

(** A computation of the decoder or the encoder that, however it ends, has
    done nothing to the world but allocate. *)
Definition allocating {A : Type} (m : M (World * list (Wire C)) A) : Prop :=
  forall w b w' b' r, m (w, b) = ((w', b'), r) -> only_allocates w w'.

(** What holds of the table [decode] is building: distinct keys, each the
    string form of the tag of its entry, and allocated objects. *)
Definition table_ok (states : JsObject Entry) (w : World) : Prop :=
  List.NoDup (obj_keys states) /\
  Forall (fun ke => SessionTag_toString C (tag (snd ke)) = fst ke) states /\
  Forall (fun ke => state (snd ke) < length (heap w)) states.

(** ** Descriptions used in the proofs *)

(** The world after [MemoryUtil.zeroize] ran on an entry whose object held [v]. *)
Definition zeroized (e : Entry) (v : SessionState C) (w : World) : World :=
  mkWorld (<[state e := MemoryUtil_zeroize_state C v]> (heap w)) (store w)
          (trace w ++ [Ev_zeroize_entry e]).

(** The session [insert_and_promote] leaves behind, as a function of the
    session it starts from ([insert_and_promote_run] proves it). *)
Definition after_insert (sessionTag : SessionTag C) (st : ref) (s : Session) : Session :=
  let name := SessionTag_toString C sessionTag in
  let s1 :=
    match obj_get name (session_states s) with
    | Some e =>
        set_session_states
          (obj_set name (mkEntry (idx e) st (tag e)) (session_states s)) s
    | None =>
        if (MAX_SAFE_INTEGER <=? counter s)%Z
        then set_counter 1 (set_session_states [(name, mkEntry 0 st sessionTag)] s)
        else set_counter (counter s + 1)
               (set_session_states
                  (obj_set name (mkEntry (counter s) st sessionTag) (session_states s)) s)
    end in
  if negb (String.eqb (session_tag_name s1) name)
  then set_session_tag sessionTag name s1
  else s1.

(** What [encode] writes for the entries of the table, given the tag and the
    object content of each. *)
Definition entries_wire (tvs : list (SessionTag C * SessionState C)) : list (Wire C) :=
  flat_map (fun tv => SessionTag_encode C (fst tv) ++ SessionState_encode C (snd tv)) tvs.

(** The pending prekey on the wire: [null], or a prekey id and a public
    key.  An array with a missing item is never written ([encode] throws). *)
Definition pending_wire (p : PendingPrekey) : list (Wire C) :=
  match p with
  | Some (Some id, Some key) =>
      Encoder_object C 2 ++ Encoder_u8 C 0 ++ Encoder_u16 C id ++
      Encoder_u8 C 1 ++ PublicKey_encode C key
  | Some _ => []
  | None => Encoder_null C
  end.

(** What [encode] has written when it reaches the loop over the entries, or
    the error it has thrown before. *)
Definition encode_header (s : Session) : Error + list (Wire C) :=
  let before :=
    Encoder_object C 6 ++
    Encoder_u8 C 0 ++ Encoder_u8 C (version s) ++
    Encoder_u8 C 1 ++ SessionTag_encode C (session_tag s) ++
    Encoder_u8 C 2 ++
    IdentityKey_encode C (IdentityKeyPair_public_key C (local_identity s)) ++
    Encoder_u8 C 3 ++ IdentityKey_encode C (remote_identity s) ++
    Encoder_u8 C 4 in
  let after :=
    Encoder_u8 C 5 ++ Encoder_object C (Z.of_nat (length (session_states s))) in
  if (0 <=? version s)%Z && (version s <=? 255)%Z
  then
    match pending_prekey s with
    | None => inr (before ++ Encoder_null C ++ after)
    | Some (Some id, item1) =>
        if (0 <=? id)%Z && (id <=? 65535)%Z
        then
          match item1 with
          | Some key =>
              inr (before ++ Encoder_object C 2 ++ Encoder_u8 C 0 ++
                   Encoder_u16 C id ++ Encoder_u8 C 1 ++ PublicKey_encode C key ++
                   after)
          | None => inl runtime_TypeError
          end
        else inl (mkError RangeError None)
    | Some (None, _) => inl (mkError RangeError None)
    end
  else inl (mkError RangeError None).

(** The table [decode] builds from entries with distinct names: indices count
    from [index], the objects are allocated from address [base] on. *)
Fixpoint decoded_entries (index : Z) (base : nat)
    (tvs : list (SessionTag C * SessionState C)) : JsObject Entry :=
  match tvs with
  | [] => []
  | tv :: tvs' =>
      (SessionTag_toString C (fst tv), mkEntry index base (fst tv))
      :: decoded_entries (index + 1) (S base) tvs'
  end.

(** The tag and the object content of an entry. *)
Definition entry_content (w : World) (ke : string * Entry)
    (tv : SessionTag C * SessionState C) : Prop :=
  fst tv = tag (snd ke) /\ heap w !! state (snd ke) = Some (snd tv).

(** The six fields of a session on the wire, after the header of the object;
    [tvs] are the tag and the object content of each entry. *)
Definition session_fields (s : Session)
    (tvs : list (SessionTag C * SessionState C)) : list (Wire C) :=
  Encoder_u8 C 0 ++ Encoder_u8 C (version s) ++
  Encoder_u8 C 1 ++ SessionTag_encode C (session_tag s) ++
  Encoder_u8 C 2 ++
  IdentityKey_encode C (IdentityKeyPair_public_key C (local_identity s)) ++
  Encoder_u8 C 3 ++ IdentityKey_encode C (remote_identity s) ++
  Encoder_u8 C 4 ++ pending_wire (pending_prekey s) ++
  Encoder_u8 C 5 ++
  Encoder_object C (Z.of_nat (length (session_states s))) ++
  entries_wire tvs.

End Session.

Arguments mkEntry {C} idx state tag.
Arguments zeroized {C} e v w.
Arguments after_insert {C} sessionTag st s.
Arguments pending_undefined {C}.
Arguments pending_null {C}.
Arguments pending_array {C} item0 item1.
Arguments initial_vars {C}.
Arguments entries_wire {C} tvs.
Arguments idx_list {C} states.
Arguments session_fields {C} s tvs.
Arguments pending_wire {C} p.
Arguments decoded_entries {C} index base tvs.
Arguments entry_content {C} w ke tv.
Arguments Ev_load_prekey {C} prekey_id.
Arguments Ev_delete_prekey {C} prekey_id.
Arguments Ev_zeroize_prekey {C} prekey.
Arguments Ev_zeroize_entry {C} entry.

(** ** A small instance of the collaborators

    Keys are numbers, identities and tags are strings.  A ratchet state is a
    key and the number of calls it has served; it decrypts the messages made
    under its key.  The wire format is a list of tokens. *)

Module Toy.

Record ToyCipherMessage : Type := mkCM {
  cm_tag : string;
  cm_key : Z;
  cm_text : string
}.

Inductive Token : Type :=
| T_object (n : Z)
| T_u8 (n : Z)
| T_u16 (n : Z)
| T_null
| T_tag (t : string)
| T_identity (k : string)
| T_public (k : Z)
| T_state (v : Z * nat).

Definition malformed : Error := mkError DecodeError None.

Definition toy_decrypt (v : Z * nat) (msg : ToyCipherMessage)
    : (Z * nat) * (Error + string) :=
  ((fst v, S (snd v)),
   if (cm_key msg =? fst v)%Z then inr (cm_text msg)
   else if (cm_key msg <? 0)%Z then inl (mkError DecryptError_DuplicateMessage None)
   else inl (mkError DecryptError_InvalidSignature None)).

(** The store: the prekeys it holds, and whether it refuses to delete. *)
Definition ToyStore : Type := list (Z * Z) * bool.

Definition toy_load (st : ToyStore) (id : Z) : ToyStore * option Z :=
  (st, option_map snd (List.find (fun p => (fst p =? id)%Z) (fst st))).

Definition toy_delete (st : ToyStore) (id : Z) : ToyStore * (Error + unit) :=
  if snd st then (st, inl (mkError OtherError None))
  else ((List.filter (fun p => negb (fst p =? id)%Z) (fst st), false), inr tt).

Definition C : Collab := {|
  DecodeError_code := Some 3%Z;
  IdentityKey := string;
  IdentityKey_fingerprint := fun k => k;
  IdentityKeyPair := string;
  IdentityKeyPair_public_key := fun k => k;
  PublicKey := Z;
  KeyPair := Z;
  KeyPair_public_key := fun k => k;
  PreKey := Z;
  PreKey_key_pair := fun k => k;
  PreKeyBundle := Z * string;
  PreKeyBundle_prekey_id := fst;
  PreKeyBundle_identity_key := snd;
  SessionTag := string;
  SessionTag_toString := fun t => t;
  CipherMessage := ToyCipherMessage;
  CipherMessage_session_tag := cm_tag;
  Envelope := MessageOf Z string ToyCipherMessage;
  Envelope_message := fun e => e;
  Plaintext := string;
  Wire := Token;
  SessionState := Z * nat;
  SessionState_init_as_alice := fun _ alice_base _ => inr (alice_base, O);
  SessionState_init_as_bob := fun _ _ _ base => inr (base, O);
  SessionState_encrypt := fun v _ _ t plaintext =>
    ((fst v, S (snd v)), inr (IsCipherMessage (mkCM t (fst v) plaintext)));
  SessionState_decrypt := fun v _ msg => toy_decrypt v msg;
  SessionState_serialise := fun v => [T_state v];
  SessionState_deserialise := fun buf =>
    match buf with
    | [T_state v] => inr v
    | _ => inl malformed
    end;
  PreKeyStore := ToyStore;
  PreKeyStore_load_prekey := toy_load;
  PreKeyStore_delete_prekey := toy_delete;
  MemoryUtil_zeroize_state := fun v => (0%Z, snd v);
  Encoder_object := fun n => [T_object n];
  Encoder_u8 := fun n => [T_u8 n];
  Encoder_u16 := fun n => [T_u16 n];
  Encoder_null := [T_null];
  Decoder_object := fun buf =>
    match buf with T_object n :: rest => inr (n, rest) | _ => inl malformed end;
  Decoder_u8 := fun buf =>
    match buf with T_u8 n :: rest => inr (n, rest) | _ => inl malformed end;
  Decoder_u16 := fun buf =>
    match buf with T_u16 n :: rest => inr (n, rest) | _ => inl malformed end;
  Decoder_optional_object := fun buf =>
    match buf with
    | T_null :: rest => inr (None, rest)
    | T_object n :: rest => inr (Some n, rest)
    | _ => inl malformed
    end;
  Decoder_skip := fun buf =>
    match buf with _ :: rest => inr (tt, rest) | [] => inl malformed end;
  SessionTag_encode := fun t => [T_tag t];
  SessionTag_decode := fun buf =>
    match buf with T_tag t :: rest => inr (t, rest) | _ => inl malformed end;
  IdentityKey_encode := fun k => [T_identity k];
  IdentityKey_decode := fun buf =>
    match buf with T_identity k :: rest => inr (k, rest) | _ => inl malformed end;
  PublicKey_encode := fun k => [T_public k];
  PublicKey_decode := fun buf =>
    match buf with T_public k :: rest => inr (k, rest) | _ => inl malformed end;
  SessionState_encode := fun v => [T_state v];
  SessionState_decode := fun buf =>
    match buf with T_state v :: rest => inr (v, rest) | _ => inl malformed end
|}.

(** *** A scenario

    Alice ("A") opens a session with Bob ("B") from Bob's prekey 7; Bob's
    store also holds the last-resort prekey 65535. *)

Local Open Scope string_scope.
Local Open Scope Z_scope.

Definition store0 : ToyStore := ([(7, 70); (65535, 1)], false).

Definition w0 : World C := mkWorld (C := C) [] store0 [].

(** Alice's first message, under tag [t1] and base key 42. *)
Definition hello_message : PreKeyMessageOf Z string ToyCipherMessage :=
  mkPreKeyMessage 7 42 "A" (mkCM "t1" 42 "hello").

Definition hello : Envelope C := IsPreKeyMessage hello_message.

(** Bob's session and world after [init_from_message "B" hello w0]. *)
Definition bob : Session C :=
  mkSession (C := C) "B" "A" 1 1 None
    [("t1", mkEntry (C := C) 0 0%nat "t1")] "t1" "t1".

Definition bob_world : World C :=
  mkWorld (C := C) [(42, 1%nat)] ([(65535, 1)], false)
    [Ev_load_prekey (C := C) 7; Ev_load_prekey 7;
     Ev_zeroize_prekey (C := C) (Some 70); Ev_delete_prekey 7].

(** A second message of the same ratchet, and one made under another key. *)
Definition again : Envelope C := IsCipherMessage (mkCM "t1" 42 "again").

Definition forged : Envelope C := IsCipherMessage (mkCM "t1" 43 "forged").

(** Alice starts over: a prekey message under tag [t2] and base key 99, once
    from the last-resort prekey and once from prekey 7. *)
Definition fresh_message (prekey_id : Z) : PreKeyMessageOf Z string ToyCipherMessage :=
  mkPreKeyMessage prekey_id 99 "A" (mkCM "t2" 99 "fresh").

Definition fresh (prekey_id : Z) : Envelope C := IsPreKeyMessage (fresh_message prekey_id).

(** Alice's session and world after
    [init_from_prekey "A" (7, "B") 42 "t1" w0]: her pending prekey is Bob's
    prekey 7 with her base key 42. *)
Definition alice : Session C :=
  mkSession (C := C) "A" "B" 1 1 (Some (Some 7, Some 42))
    [("t1", mkEntry (C := C) 0 0%nat "t1")] "t1" "t1".

Definition alice_world : World C := mkWorld (C := C) [(42, 0%nat)] store0 [].

(** Bob's answer under the tag [t1], and a prekey message by which Bob
    starts over under the tag [t2], from Alice's last-resort prekey. *)
Definition reply : Envelope C := IsCipherMessage (mkCM "t1" 42 "reply").

Definition restart_message : PreKeyMessageOf Z string ToyCipherMessage :=
  mkPreKeyMessage 65535 99 "B" (mkCM "t2" 99 "restart").

Definition restart : Envelope C := IsPreKeyMessage restart_message.

(** Bob's world when his store still holds prekey 7 but refuses to delete. *)
Definition stubborn_world : World C :=
  mkWorld (C := C) [(42, 1%nat)] ([(7, 70); (65535, 1)], true) [].

(** A table of [n] entries in insertion order; entry [i] is named by [i]
    letters [a], has index [i] and holds the object at address [i]. *)
Fixpoint name_of (n : nat) : string :=
  match n with
  | O => EmptyString
  | S n' => String.append "a" (name_of n')
  end.

Definition table (n : nat) : JsObject (Entry C) :=
  map (fun i => (name_of i, mkEntry (C := C) (Z.of_nat i) i (name_of i))) (seq 0 n).

Definition crowded : Session C :=
  mkSession (C := C) "B" "A" 1 99 None (table 99) (name_of 98) (name_of 98).

Definition crowded_world : World C :=
  mkWorld (C := C) (map (fun i => (Z.of_nat i, O)) (seq 0 100)) store0 [].

(** The same collaborators with session tags that are objects: a tag is its
    bytes and the identity of the object that holds them; the string form
    shows the bytes only. *)
Definition labelled : Collab := {|
  DecodeError_code := DecodeError_code C;
  IdentityKey := IdentityKey C;
  IdentityKey_fingerprint := IdentityKey_fingerprint C;
  IdentityKeyPair := IdentityKeyPair C;
  IdentityKeyPair_public_key := IdentityKeyPair_public_key C;
  PublicKey := PublicKey C;
  KeyPair := KeyPair C;
  KeyPair_public_key := KeyPair_public_key C;
  PreKey := PreKey C;
  PreKey_key_pair := PreKey_key_pair C;
  PreKeyBundle := PreKeyBundle C;
  PreKeyBundle_prekey_id := PreKeyBundle_prekey_id C;
  PreKeyBundle_identity_key := PreKeyBundle_identity_key C;
  SessionTag := (string * nat)%type;
  SessionTag_toString := fst;
  CipherMessage := CipherMessage C;
  CipherMessage_session_tag := fun m => (cm_tag m, O);
  Envelope := Envelope C;
  Envelope_message := fun e => e;
  Plaintext := Plaintext C;
  Wire := Wire C;
  SessionState := SessionState C;
  SessionState_init_as_alice := SessionState_init_as_alice C;
  SessionState_init_as_bob := SessionState_init_as_bob C;
  SessionState_encrypt := fun v identity pending t plaintext =>
    SessionState_encrypt C v identity pending (fst t) plaintext;
  SessionState_decrypt := SessionState_decrypt C;
  SessionState_serialise := SessionState_serialise C;
  SessionState_deserialise := SessionState_deserialise C;
  PreKeyStore := PreKeyStore C;
  PreKeyStore_load_prekey := PreKeyStore_load_prekey C;
  PreKeyStore_delete_prekey := PreKeyStore_delete_prekey C;
  MemoryUtil_zeroize_state := MemoryUtil_zeroize_state C;
  Encoder_object := Encoder_object C;
  Encoder_u8 := Encoder_u8 C;
  Encoder_u16 := Encoder_u16 C;
  Encoder_null := Encoder_null C;
  Decoder_object := Decoder_object C;
  Decoder_u8 := Decoder_u8 C;
  Decoder_u16 := Decoder_u16 C;
  Decoder_optional_object := Decoder_optional_object C;
  Decoder_skip := Decoder_skip C;
  SessionTag_encode := fun t => [T_tag (fst t)];
  SessionTag_decode := fun buf =>
    match buf with T_tag t :: rest => inr ((t, O), rest) | _ => inl malformed end;
  IdentityKey_encode := IdentityKey_encode C;
  IdentityKey_decode := IdentityKey_decode C;
  PublicKey_encode := PublicKey_encode C;
  PublicKey_decode := PublicKey_decode C;
  SessionState_encode := SessionState_encode C;
  SessionState_decode := SessionState_decode C
|}.

(** Bob's session with its tag as the object 0 of the bytes [t1], and his
    world with a second state. *)
Definition bob_labelled : Session labelled :=
  mkSession (C := labelled) "B" "A" 1 1 None
    [("t1", mkEntry (C := labelled) 0 0%nat ("t1", 0%nat))] ("t1", 0%nat) "t1".

Definition two_states : World labelled :=
  mkWorld (C := labelled) [(42, 1%nat); (42, 2%nat)] store0 [].
(** Decidable forms of the two halves of [well_formed]. *)
Fixpoint distinct (l : list string) : bool :=
  match l with
  | [] => true
  | x :: l' => negb (existsb (String.eqb x) l') && distinct l'
  end.

Definition well_formedb (s : Session C) (w : World C) : bool :=
  distinct (obj_keys (session_states s)) &&
  forallb (fun ke => Nat.ltb (state (snd ke)) (length (heap w))) (session_states s).

End Toy.

(** * Properties *)

Unset Implicit Arguments.

Ltac monad_unfold :=
  unfold bind, ret, throw, gets, modify, on_snd, on_fst, this, update_this,
    try_catch, of_result, log in *.

Ltac monad_simpl := monad_unfold; simpl in *.

(** ** JavaScript objects *)

Section JsObjectFacts.
Context {V : Type}.
Implicit Types (o : JsObject V) (k : string) (v : V).

Lemma obj_get_Some_In k v o : obj_get k o = Some v -> In (k, v) o.
Proof.
  induction o as [|[k' v'] o IH]; simpl; [discriminate|].
  destruct (String.eqb_spec k' k) as [->|Hne].
  - intros [= ->]. now left.
  - intros H. right. now apply IH.
Qed.

Lemma obj_get_None_keys k o : obj_get k o = None <-> ~ In k (obj_keys o).
Proof.
  induction o as [|[k' v'] o IH]; simpl.
  - tauto.
  - destruct (String.eqb_spec k' k) as [->|Hne].
    + split; [discriminate | intros H; exfalso; apply H; now left].
    + rewrite IH. split; [intros H [E|E]; [congruence | tauto] | tauto].
Qed.

Lemma obj_get_Some_keys k v o : obj_get k o = Some v -> In k (obj_keys o).
Proof.
  intros H. apply obj_get_Some_In in H.
  unfold obj_keys. apply in_map_iff. now exists (k, v).
Qed.

Lemma obj_keys_get k o : In k (obj_keys o) -> exists v, obj_get k o = Some v.
Proof.
  intros H. destruct (obj_get k o) as [v|] eqn:E; [eauto|].
  apply obj_get_None_keys in E. contradiction.
Qed.

Lemma obj_get_In_NoDup k v o :
  List.NoDup (obj_keys o) -> In (k, v) o -> obj_get k o = Some v.
Proof.
  induction o as [|[k' v'] o IH]; simpl; [tauto|].
  intros Hnd [E|Hin].
  - injection E as -> ->. now rewrite String.eqb_refl.
  - inversion Hnd as [|? ? Hnotin Hnd']; subst.
    destruct (String.eqb_spec k' k) as [->|Hne].
    + exfalso. apply Hnotin. unfold obj_keys. apply in_map_iff. now exists (k, v).
    + now apply IH.
Qed.

Lemma obj_get_set k k' v o :
  obj_get k' (obj_set k v o) = if String.eqb k k' then Some v else obj_get k' o.
Proof.
  induction o as [|[k1 v1] o IH]; simpl.
  - destruct (String.eqb k k'); reflexivity.
  - destruct (String.eqb_spec k1 k) as [->|Hne]; simpl.
    + destruct (String.eqb k k'); reflexivity.
    + rewrite IH. destruct (String.eqb_spec k1 k') as [->|Hne'].
      * destruct (String.eqb_spec k k'); [congruence|reflexivity].
      * reflexivity.
Qed.

Lemma obj_keys_set_present k v o :
  In k (obj_keys o) -> obj_keys (obj_set k v o) = obj_keys o.
Proof.
  induction o as [|[k1 v1] o IH]; simpl; [tauto|].
  intros H. destruct (String.eqb_spec k1 k) as [->|Hne]; simpl; [reflexivity|].
  f_equal. apply IH. destruct H; [congruence|assumption].
Qed.

Lemma obj_set_absent k v o :
  ~ In k (obj_keys o) -> obj_set k v o = o ++ [(k, v)].
Proof.
  induction o as [|[k1 v1] o IH]; simpl; [reflexivity|].
  intros H. destruct (String.eqb_spec k1 k) as [->|Hne].
  - exfalso. apply H. now left.
  - f_equal. apply IH. tauto.
Qed.

Lemma obj_keys_set_absent k v o :
  ~ In k (obj_keys o) -> obj_keys (obj_set k v o) = obj_keys o ++ [k].
Proof.
  intros H. rewrite obj_set_absent by assumption.
  unfold obj_keys. now rewrite map_app.
Qed.

Lemma obj_set_NoDup k v o : List.NoDup (obj_keys o) -> List.NoDup (obj_keys (obj_set k v o)).
Proof.
  intros Hnd. destruct (in_dec String.string_dec k (obj_keys o)) as [Hin|Hnin].
  - now rewrite obj_keys_set_present.
  - rewrite obj_keys_set_absent by assumption.
    apply List.NoDup_app; [assumption | repeat constructor; intros [] |].
    intros x Hx [<-|[]]. contradiction.
Qed.

Lemma obj_set_Forall (P : string * V -> Prop) k v o :
  Forall P o -> P (k, v) -> Forall P (obj_set k v o).
Proof.
  intros Ho Hk. induction o as [|[k1 v1] o IH]; simpl.
  - now constructor.
  - inversion Ho; subst.
    destruct (String.eqb_spec k1 k) as [->|Hne]; constructor; auto.
Qed.

Lemma obj_delete_In x k o : In x (obj_delete k o) -> In x o.
Proof.
  induction o as [|[k1 v1] o IH]; simpl; [tauto|].
  destruct (String.eqb k1 k); simpl; intuition.
Qed.

Lemma obj_delete_Forall (P : string * V -> Prop) k o :
  Forall P o -> Forall P (obj_delete k o).
Proof.
  rewrite !List.Forall_forall. intros H x Hx. apply H.
  eapply obj_delete_In; eauto.
Qed.

Lemma obj_keys_delete k o :
  List.NoDup (obj_keys o) ->
  obj_keys (obj_delete k o) =
  List.filter (fun k' => negb (String.eqb k' k)) (obj_keys o).
Proof.
  induction o as [|[k1 v1] o IH]; simpl; [reflexivity|].
  intros Hnd. inversion Hnd as [|? ? Hnotin Hnd']; subst.
  destruct (String.eqb_spec k1 k) as [->|Hne]; simpl.
  - symmetry. apply forallb_filter_id. apply forallb_forall.
    intros x Hx. destruct (String.eqb_spec x k) as [->|]; [contradiction|reflexivity].
  - f_equal. now apply IH.
Qed.

Lemma obj_delete_NoDup k o : List.NoDup (obj_keys o) -> List.NoDup (obj_keys (obj_delete k o)).
Proof.
  intros Hnd. rewrite obj_keys_delete by assumption.
  apply List.NoDup_filter. assumption.
Qed.

Lemma obj_size_delete k o :
  List.NoDup (obj_keys o) -> In k (obj_keys o) ->
  obj_size (obj_delete k o) = (obj_size o - 1)%Z.
Proof.
  unfold obj_size.
  induction o as [|[k1 v1] o IH]; simpl; [tauto|].
  intros Hnd Hin. inversion Hnd as [|? ? Hnotin Hnd']; subst.
  destruct (String.eqb_spec k1 k) as [->|Hne]; simpl.
  - lia.
  - destruct Hin as [|Hin]; [congruence|].
    specialize (IH Hnd' Hin). lia.
Qed.

Lemma obj_get_delete k k' o :
  List.NoDup (obj_keys o) ->
  obj_get k' (obj_delete k o) = if String.eqb k k' then None else obj_get k' o.
Proof.
  induction o as [|[k1 v1] o IH]; simpl.
  - now destruct (String.eqb k k').
  - intros Hnd. inversion Hnd as [|? ? Hnotin Hnd']; subst.
    destruct (String.eqb_spec k1 k) as [->|Hne]; simpl.
    + destruct (String.eqb_spec k k') as [->|Hne'].
      * now apply obj_get_None_keys.
      * reflexivity.
    + rewrite IH by assumption.
      destruct (String.eqb_spec k1 k') as [->|Hne'].
      * destruct (String.eqb_spec k k'); [congruence|reflexivity].
      * reflexivity.
Qed.

End JsObjectFacts.

(** ** Eviction *)

Section Eviction.
Context (C : Collab).
Implicit Types (s : Session C) (w : World C) (states : JsObject (Entry C)).

Lemma reduce_lowest_spec states keys : forall lowest el,
  obj_get lowest states = Some el ->
  (forall k, In k keys -> exists e, obj_get k states = Some e) ->
  exists k e,
    reduce_lowest states lowest keys = inr k /\
    obj_get k states = Some e /\
    In k (lowest :: keys) /\
    (forall k' e', In k' (lowest :: keys) -> obj_get k' states = Some e' ->
                   (idx e <= idx e')%Z).
Proof.
  induction keys as [|obj keys IH]; intros lowest el Hl Hkeys; simpl.
  - exists lowest, el. repeat split; auto.
    intros k' e' [<-|[]] He'. rewrite Hl in He'. injection He' as <-. lia.
  - destruct (Hkeys obj (or_introl eq_refl)) as [eo Ho].
    rewrite Ho, Hl.
    assert (Hrest : forall k, In k keys -> exists e, obj_get k states = Some e)
      by (intros k Hk; apply Hkeys; now right).
    destruct (Z.ltb_spec (idx eo) (idx el)) as [Hlt|Hge].
    + destruct (IH obj eo Ho Hrest) as (k & e & Hred & Hk & Hin & Hmin).
      exists k, e. split; [assumption|]. split; [assumption|]. split.
      * destruct Hin as [<-|Hin]; [right; now left | right; now right].
      * intros k' e' [<-|[<-|Hin']] He'.
        -- rewrite Hl in He'. injection He' as <-.
           specialize (Hmin obj eo (or_introl eq_refl) Ho). lia.
        -- apply (Hmin _ _ (or_introl eq_refl) He').
        -- apply (Hmin _ _ (or_intror Hin') He').
    + destruct (IH lowest el Hl Hrest) as (k & e & Hred & Hk & Hin & Hmin).
      exists k, e. split; [assumption|]. split; [assumption|]. split.
      * destruct Hin as [<-|Hin]; [now left | right; now right].
      * intros k' e' [<-|[<-|Hin']] He'.
        -- apply (Hmin _ _ (or_introl eq_refl) He').
        -- rewrite Ho in He'. injection He' as <-.
           specialize (Hmin lowest el (or_introl eq_refl) Hl). lia.
        -- apply (Hmin _ _ (or_intror Hin') He').
Qed.

Lemma eviction_candidates_In current states k :
  In k (eviction_candidates current states) <->
  In k (obj_keys states) /\ k <> current.
Proof.
  unfold eviction_candidates. rewrite filter_In.
  destruct (String.eqb_spec k current); simpl; intuition congruence.
Qed.

Lemma find_oldest_spec current states :
  eviction_candidates current states <> [] ->
  exists oldest e,
    find_oldest current states = inr oldest /\
    obj_get oldest states = Some e /\
    oldest <> current /\
    (forall k e', obj_get k states = Some e' -> k <> current -> (idx e <= idx e')%Z).
Proof.
  intros Hne. unfold find_oldest.
  destruct (eviction_candidates current states) as [|first others] eqn:Ecand;
    [congruence|].
  assert (Hall : forall k, In k (first :: others) ->
                           exists e, obj_get k states = Some e).
  { intros k Hk. rewrite <- Ecand in Hk.
    apply eviction_candidates_In in Hk. apply obj_keys_get. tauto. }
  destruct (Hall first (or_introl eq_refl)) as [ef Hf].
  destruct (reduce_lowest_spec states others first ef Hf) as (k & e & Hred & Hk & Hin & Hmin).
  { intros k Hk. apply Hall. now right. }
  exists k, e. split; [assumption|]. split; [assumption|]. split.
  - rewrite <- Ecand in Hin. apply eviction_candidates_In in Hin. tauto.
  - intros k' e' He' Hk'. apply (Hmin k'); [|assumption].
    rewrite <- Ecand. apply eviction_candidates_In. split; [|assumption].
    eapply obj_get_Some_keys; eauto.
Qed.

Lemma well_formed_ref s w k e :
  well_formed s w -> obj_get k (session_states s) = Some e ->
  exists v, heap w !! state e = Some v.
Proof.
  intros [_ Hrefs] He. apply obj_get_Some_In in He.
  rewrite List.Forall_forall in Hrefs. specialize (Hrefs _ He). simpl in Hrefs.
  destruct (heap w !! state e) eqn:E; [eauto|].
  apply lookup_ge_None in E. lia.
Qed.

Lemma evict_run s w :
  well_formed s w ->
  eviction_candidates (session_tag_name s) (session_states s) <> [] ->
  exists oldest e v,
    obj_get oldest (session_states s) = Some e /\
    oldest <> session_tag_name s /\
    (forall k e', obj_get k (session_states s) = Some e' ->
                  k <> session_tag_name s -> (idx e <= idx e')%Z) /\
    heap w !! state e = Some v /\
    _evict_oldest_session_state (s, w) =
      ((set_session_states (obj_delete oldest (session_states s)) s, zeroized e v w),
       inr tt).
Proof.
  intros Hwf Hne.
  destruct (find_oldest_spec _ _ Hne) as (oldest & e & Hfind & He & Hcur & Hmin).
  destruct (well_formed_ref _ _ _ _ Hwf He) as [v Hv].
  exists oldest, e, v. repeat split; auto.
  unfold _evict_oldest_session_state, zeroize_entry, read_object, write_object.
  monad_simpl. rewrite Hfind. simpl. rewrite He. simpl. rewrite Hv. reflexivity.
Qed.

End Eviction.

(** ** Insertion *)

Section Insertion.
Context (C : Collab).
Implicit Types (s : Session C) (w : World C) (t : SessionTag C) (st : ref).

Lemma insert_and_promote_run t st s w :
  insert_and_promote t st (s, w) = ((after_insert t st s, w), inr tt).
Proof.
  unfold insert_and_promote, after_insert. monad_simpl.
  destruct (obj_get (SessionTag_toString C t) (session_states s)) as [e|]; simpl.
  - destruct (String.eqb (session_tag_name s) (SessionTag_toString C t)); reflexivity.
  - destruct (MAX_SAFE_INTEGER <=? counter s)%Z; simpl;
      destruct (String.eqb (session_tag_name s) (SessionTag_toString C t)); reflexivity.
Qed.

Lemma insert_session_state_run t st s w :
  _insert_session_state t st (s, w) =
  if (obj_size (session_states (after_insert t st s)) <? MAX_SESSION_STATES)%Z
  then ((after_insert t st s, w), inr tt)
  else _evict_oldest_session_state (after_insert t st s, w).
Proof.
  unfold _insert_session_state.
  unfold bind at 1. rewrite insert_and_promote_run.
  monad_simpl.
  destruct (obj_size (session_states (after_insert t st s)) <? MAX_SESSION_STATES)%Z;
    reflexivity.
Qed.

(** The table and the fields the insertion leaves alone. *)
Lemma after_insert_fields t st s :
  pending_prekey (after_insert t st s) = pending_prekey s /\
  version (after_insert t st s) = version s /\
  local_identity (after_insert t st s) = local_identity s /\
  remote_identity (after_insert t st s) = remote_identity s.
Proof.
  unfold after_insert.
  destruct (obj_get _ _); [|destruct (_ <=? _)%Z]; simpl;
    destruct (negb _); simpl; auto.
Qed.

Lemma after_insert_states t st s :
  session_states (after_insert t st s) =
  match obj_get (SessionTag_toString C t) (session_states s) with
  | Some e => obj_set (SessionTag_toString C t) (mkEntry (idx e) st (tag e)) (session_states s)
  | None =>
      if (MAX_SAFE_INTEGER <=? counter s)%Z
      then [(SessionTag_toString C t, mkEntry 0 st t)]
      else obj_set (SessionTag_toString C t) (mkEntry (counter s) st t) (session_states s)
  end.
Proof.
  unfold after_insert.
  destruct (obj_get _ _); [|destruct (_ <=? _)%Z]; simpl;
    destruct (negb _); reflexivity.
Qed.

Lemma after_insert_tag_name t st s :
  session_tag_name (after_insert t st s) = SessionTag_toString C t.
Proof.
  unfold after_insert.
  destruct (obj_get _ _); [|destruct (_ <=? _)%Z]; simpl;
    destruct (String.eqb_spec (session_tag_name s) (SessionTag_toString C t));
    simpl; auto.
Qed.

Lemma after_insert_tag t st s :
  session_tag_name s = SessionTag_toString C (session_tag s) ->
  session_tag_name (after_insert t st s) =
  SessionTag_toString C (session_tag (after_insert t st s)).
Proof.
  intros H. unfold after_insert.
  destruct (obj_get _ _); [|destruct (_ <=? _)%Z]; simpl;
    destruct (String.eqb_spec (session_tag_name s) (SessionTag_toString C t));
    simpl; congruence.
Qed.

Lemma after_insert_key t st s :
  In (SessionTag_toString C t) (obj_keys (session_states (after_insert t st s))).
Proof.
  rewrite after_insert_states.
  destruct (obj_get _ _) as [e|] eqn:E; [|destruct (_ <=? _)%Z].
  - rewrite obj_keys_set_present; eapply obj_get_Some_keys; eauto.
  - now left.
  - apply obj_get_None_keys in E. rewrite obj_keys_set_absent by assumption.
    apply in_or_app. right. now left.
Qed.

Lemma after_insert_size t st s :
  (1 <= obj_size (session_states (after_insert t st s)) <=
   obj_size (session_states s) + 1)%Z.
Proof.
  rewrite after_insert_states. unfold obj_size.
  destruct (obj_get _ _) as [e|] eqn:E; [|destruct (_ <=? _)%Z].
  - rewrite obj_keys_set_present by (eapply obj_get_Some_keys; eauto).
    apply obj_get_Some_keys in E.
    destruct (obj_keys (session_states s)); simpl in *; [tauto | lia].
  - simpl. lia.
  - apply obj_get_None_keys in E. rewrite obj_keys_set_absent by assumption.
    rewrite length_app. simpl. lia.
Qed.

Lemma after_insert_well_formed t st s w :
  well_formed s w -> st < length (heap w) ->
  well_formed (after_insert t st s) w.
Proof.
  intros [Hnd Hrefs] Hst. unfold well_formed. rewrite after_insert_states.
  destruct (obj_get _ _) as [e|] eqn:E; [|destruct (_ <=? _)%Z].
  - split; [now apply obj_set_NoDup | apply obj_set_Forall; auto].
  - split; [repeat constructor; intros [] | repeat constructor; auto].
  - split; [now apply obj_set_NoDup | apply obj_set_Forall; auto].
Qed.

Lemma after_insert_keys_ok t st s :
  Forall (fun ke : string * Entry C => SessionTag_toString C (tag (snd ke)) = fst ke)
         (session_states s) ->
  Forall (fun ke : string * Entry C => SessionTag_toString C (tag (snd ke)) = fst ke)
         (session_states (after_insert t st s)).
Proof.
  intros H. rewrite after_insert_states.
  destruct (obj_get _ _) as [e|] eqn:E; [|destruct (_ <=? _)%Z].
  - apply obj_set_Forall; auto. simpl.
    apply obj_get_Some_In in E. rewrite List.Forall_forall in H.
    apply (H _ E).
  - repeat constructor.
  - apply obj_set_Forall; auto.
Qed.

(** [_insert_session_state] keeps every [idx] below [counter], and lets
    [counter] grow, but for the reset at [MAX_SAFE_INTEGER]. *)
Lemma after_insert_idx_below_counter t st s :
  idx_below_counter s -> idx_below_counter (after_insert t st s).
Proof.
  unfold idx_below_counter, after_insert. intros H.
  destruct (obj_get _ _) as [e|] eqn:E; [|destruct (_ <=? _)%Z]; simpl;
    destruct (negb _); simpl.
  1,2: apply obj_set_Forall; [exact H|]; simpl;
       apply obj_get_Some_In in E; rewrite List.Forall_forall in H; apply (H _ E).
  1,2: repeat constructor; simpl; lia.
  1,2: apply obj_set_Forall; [|simpl; lia];
       eapply List.Forall_impl; [|exact H]; simpl; intros ke Hke; lia.
Qed.

Lemma after_insert_counter t st s :
  (counter s <= counter (after_insert t st s))%Z \/
  ((MAX_SAFE_INTEGER <= counter s)%Z /\ counter (after_insert t st s) = 1%Z).
Proof.
  unfold after_insert.
  destruct (obj_get _ _) as [e|] eqn:E;
    [|destruct (Z.leb_spec MAX_SAFE_INTEGER (counter s))]; simpl;
    destruct (negb _); simpl; auto; left; lia.
Qed.

Lemma insert_keeps_idx_below_counter t st s w s' w' r :
  well_formed s w -> st < length (heap w) ->
  idx_below_counter s ->
  _insert_session_state t st (s, w) = ((s', w'), r) ->
  idx_below_counter s'.
Proof.
  intros Hwf Hst Hidx. rewrite insert_session_state_run.
  pose proof (after_insert_idx_below_counter t st s Hidx) as H1.
  destruct (_ <? _)%Z.
  - intros [= <- <- _]. exact H1.
  - unfold _evict_oldest_session_state, zeroize_entry, read_object, write_object.
    monad_simpl.
    destruct (find_oldest _ _) as [e|oldest]; simpl; [intros [= <- _ _]; exact H1|].
    destruct (obj_get oldest _) as [entry|]; simpl.
    + destruct (heap w !! state entry); simpl; intros [= <- _ _];
        [apply obj_delete_Forall; exact H1 | exact H1].
    + intros [= <- _ _]. apply obj_delete_Forall. exact H1.
Qed.

End Insertion.

Section InsertionRun.
Context (C : Collab).
Implicit Types (s : Session C) (w : World C) (t : SessionTag C) (st : ref).

(** A table with two keys or more has a key that is not the current one. *)
Lemma candidates_nonempty current (states : JsObject (Entry C)) :
  List.NoDup (obj_keys states) ->
  (2 <= obj_size states)%Z ->
  eviction_candidates current states <> [].
Proof.
  intros Hnd Hsize. unfold obj_size in Hsize.
  destruct (obj_keys states) as [|k1 [|k2 ks]] eqn:Ekeys; simpl in Hsize; try lia.
  assert (Hk : exists k, In k (obj_keys states) /\ k <> current).
  { rewrite Ekeys. inversion Hnd as [|? ? Hnotin _]; subst.
    destruct (String.eqb_spec k1 current) as [->|Hne].
    - exists k2. split; [right; now left|]. intros ->. apply Hnotin. now left.
    - exists k1. split; [now left | assumption]. }
  destruct Hk as (k & Hin & Hne).
  assert (Hc : In k (eviction_candidates current states))
    by (apply eviction_candidates_In; tauto).
  intros E. rewrite E in Hc. destruct Hc.
Qed.

Lemma prekey_events_app (tr1 tr2 : list (Event C)) :
  prekey_events (tr1 ++ tr2) = prekey_events tr1 ++ prekey_events tr2.
Proof. unfold prekey_events. apply List.filter_app. Qed.

Lemma insert_run t st s w :
  well_formed s w -> st < length (heap w) ->
  exists s' w',
    _insert_session_state t st (s, w) = ((s', w'), inr tt) /\
    well_formed s' w' /\
    length (heap w') = length (heap w) /\
    store w' = store w /\
    prekey_events (trace w') = prekey_events (trace w) /\
    pending_prekey s' = pending_prekey s /\
    version s' = version s /\
    local_identity s' = local_identity s /\
    remote_identity s' = remote_identity s /\
    session_tag s' = session_tag (after_insert t st s) /\
    session_tag_name s' = SessionTag_toString C t /\
    counter s' = counter (after_insert t st s) /\
    (forall x, In x (session_states s') -> In x (session_states (after_insert t st s))) /\
    obj_size (session_states s') =
      (if (obj_size (session_states (after_insert t st s)) <? MAX_SESSION_STATES)%Z
       then obj_size (session_states (after_insert t st s))
       else obj_size (session_states (after_insert t st s)) - 1)%Z.
Proof.
  intros Hwf Hst.
  pose proof (after_insert_well_formed C t st s w Hwf Hst) as Hwf1.
  pose proof (after_insert_fields C t st s) as (Hp & Hv & Hl & Hr).
  rewrite insert_session_state_run.
  destruct (Z.ltb_spec (obj_size (session_states (after_insert t st s)))
                       MAX_SESSION_STATES) as [Hlt|Hge].
  - exists (after_insert t st s), w.
    repeat (split; [first [reflexivity | assumption | apply after_insert_tag_name]|]).
    split; [auto | reflexivity].
  - assert (Hcand : eviction_candidates (session_tag_name (after_insert t st s))
                      (session_states (after_insert t st s)) <> []).
    { apply candidates_nonempty; [apply Hwf1 | unfold MAX_SESSION_STATES in Hge; lia]. }
    destruct (evict_run C _ _ Hwf1 Hcand) as (oldest & e & v & He & Hcur & Hmin & Hv' & Hrun).
    rewrite Hrun. destruct Hwf1 as [Hnd Hrefs].
    eexists _, _. split; [reflexivity|]. simpl.
    split.
    { split; simpl.
      - now apply obj_delete_NoDup.
      - rewrite length_insert. now apply obj_delete_Forall. }
    split; [apply length_insert|].
    split; [reflexivity|].
    split; [rewrite prekey_events_app; simpl; apply app_nil_r|].
    repeat (split; [first [assumption | apply after_insert_tag_name | reflexivity]|]).
    split; [intros x; apply obj_delete_In|].
    apply obj_size_delete; [assumption | eapply obj_get_Some_keys; eauto].
Qed.

Lemma insert_session_ok t st s w :
  session_ok s w -> st < length (heap w) ->
  exists s' w',
    _insert_session_state t st (s, w) = ((s', w'), inr tt) /\
    session_ok s' w' /\ store w' = store w /\
    length (heap w') = length (heap w) /\
    prekey_events (trace w') = prekey_events (trace w) /\
    pending_prekey s' = pending_prekey s /\
    local_identity s' = local_identity s /\
    remote_identity s' = remote_identity s.
Proof.
  intros [Hwf Hkeys Htag Hver Hpend Hsize] Hst.
  destruct (insert_run t st s w Hwf Hst)
    as (s' & w' & Hrun & Hwf' & Hlen & Hstore & Htr & Hp & Hv & Hl & Hr & Ht & Htn & Hc & Hin & Hsz).
  exists s', w'. split; [assumption|]. split; [|tauto].
  constructor.
  - assumption.
  - pose proof (after_insert_keys_ok C t st s Hkeys) as Hk.
    rewrite List.Forall_forall in *. intros x Hx. apply Hk, Hin, Hx.
  - rewrite Htn, Ht, <- after_insert_tag_name with (st := st) (s := s).
    apply after_insert_tag. assumption.
  - now rewrite Hv.
  - now rewrite Hp.
  - rewrite Hsz. pose proof (after_insert_size C t st s) as Hb.
    destruct (Z.ltb_spec (obj_size (session_states (after_insert t st s)))
                         MAX_SESSION_STATES); unfold MAX_SESSION_STATES in *; lia.
Qed.

Lemma after_insert_entry t st s :
  exists e,
    obj_get (SessionTag_toString C t) (session_states (after_insert t st s)) = Some e /\
    state e = st.
Proof.
  rewrite after_insert_states.
  destruct (obj_get (SessionTag_toString C t) (session_states s)) as [e|] eqn:E;
    [|destruct (_ <=? _)%Z]; simpl.
  - rewrite obj_get_set, String.eqb_refl. eauto.
  - rewrite String.eqb_refl. eauto.
  - rewrite obj_get_set, String.eqb_refl. eauto.
Qed.

Lemma insert_current_entry t st s w s' w' r :
  well_formed s w -> st < length (heap w) ->
  _insert_session_state t st (s, w) = ((s', w'), r) ->
  r = inr tt /\
  session_tag_name s' = SessionTag_toString C t /\
  exists e,
    obj_get (SessionTag_toString C t) (session_states s') = Some e /\ state e = st.
Proof.
  intros Hwf Hst. rewrite insert_session_state_run.
  pose proof (after_insert_well_formed C t st s w Hwf Hst) as Hwf1.
  destruct (Z.ltb_spec (obj_size (session_states (after_insert t st s)))
                       MAX_SESSION_STATES) as [Hlt|Hge].
  - intros [= <- <- <-]. split; [reflexivity|].
    split; [apply after_insert_tag_name | apply after_insert_entry].
  - assert (Hcand : eviction_candidates (session_tag_name (after_insert t st s))
                      (session_states (after_insert t st s)) <> []).
    { apply candidates_nonempty; [apply Hwf1 | unfold MAX_SESSION_STATES in Hge; lia]. }
    destruct (evict_run C _ _ Hwf1 Hcand) as (oldest & e & v & He & Hcur & _ & _ & Hrun).
    rewrite Hrun. intros [= <- <- <-]. simpl.
    split; [reflexivity|]. split; [apply after_insert_tag_name|].
    rewrite obj_get_delete by apply Hwf1.
    rewrite after_insert_tag_name in Hcur.
    destruct (String.eqb_spec oldest (SessionTag_toString C t)); [contradiction|].
    apply after_insert_entry.
Qed.

End InsertionRun.

(** ** Decryption *)

Section Decryption.
Context (C : Collab).
Implicit Types (s : Session C) (w : World C) (t : SessionTag C) (st : ref).

Lemma well_formed_heap_grow s w w' :
  well_formed s w -> length (heap w) <= length (heap w') -> well_formed s w'.
Proof.
  intros [Hnd Hrefs] Hlen. split; [assumption|].
  eapply List.Forall_impl; [|exact Hrefs]. simpl. intros ke H. lia.
Qed.

Lemma session_ok_heap_grow s w w' :
  session_ok s w -> length (heap w) <= length (heap w') -> session_ok s w'.
Proof.
  intros [Hwf Hkeys Htag Hver Hpend Hsize] Hlen.
  constructor; auto. eapply well_formed_heap_grow; eauto.
Qed.

Lemma session_ok_set_pending_None s w :
  session_ok s w -> session_ok (set_pending_prekey None s) w.
Proof.
  intros [Hwf Hkeys Htag Hver Hpend Hsize].
  constructor; auto. simpl. discriminate.
Qed.

Lemma same_objects_app s w w' extra :
  well_formed s w -> heap w' = heap w ++ extra -> same_objects s w w'.
Proof.
  intros Hwf Hheap k e He. rewrite Hheap.
  destruct (well_formed_ref C s w k e Hwf He) as [v Hv].
  apply lookup_app_l. eapply lookup_lt_Some; eauto.
Qed.

Lemma decrypt_cipher_message_run envelope msg s w :
  well_formed s w ->
  exists s' w' r,
    _decrypt_cipher_message envelope msg (s, w) = ((s', w'), r) /\
    store w' = store w /\
    prekey_events (trace w') = prekey_events (trace w) /\
    length (heap w) <= length (heap w') /\
    match r with
    | inl e => s' = s /\ trace w' = trace w /\ exists extra, heap w' = heap w ++ extra
    | inr p =>
        pending_prekey s' = None /\ well_formed s' w' /\
        local_identity s' = local_identity s /\
        remote_identity s' = remote_identity s /\
        (session_ok s w -> session_ok s' w')
    end.
Proof.
  intros Hwf. unfold _decrypt_cipher_message.
  unfold bind at 1. unfold this at 1. unfold gets at 1. cbn [fst snd].
  destruct (obj_get (SessionTag_toString C (CipherMessage_session_tag C msg))
                    (session_states s)) as [entry|] eqn:Eentry.
  2:{ exists s, w, (inl (mkError DecryptError_InvalidMessage CASE_205)).
      split; [reflexivity|]. repeat split; auto. exists []. now rewrite app_nil_r. }
  destruct (well_formed_ref C s w _ _ Hwf Eentry) as [v Hv].
  unfold state_serialise, state_deserialise, state_decrypt, read_object,
    write_object, new_object.
  monad_simpl. rewrite Hv. simpl.
  destruct (SessionState_deserialise C (SessionState_serialise C v)) as [e|v1] eqn:Edes;
    simpl.
  { exists s, w, (inl e). split; [reflexivity|]. repeat split; auto.
    exists []. now rewrite app_nil_r. }
  rewrite lookup_app_r by lia. rewrite Nat.sub_diag. simpl.
  destruct (SessionState_decrypt C v1 envelope msg) as [v2 [e|p]] eqn:Edec; simpl.
  { eexists s, _, (inl e). split; [reflexivity|]. simpl.
    rewrite length_insert, length_app. simpl.
    repeat split; auto; try lia.
    exists [v2]. rewrite insert_app_r_alt by lia. now rewrite Nat.sub_diag. }
  match goal with
  | |- context [_insert_session_state _ _ (_, ?x)] => set (w2 := x)
  end.
  assert (Hlen2 : length (heap w2) = S (length (heap w))).
  { unfold w2. simpl. rewrite length_insert, length_app. simpl. lia. }
  assert (Hwf2 : well_formed (set_pending_prekey None s) w2).
  { apply well_formed_heap_grow with (w := w); [exact Hwf | lia]. }
  destruct (insert_run C (CipherMessage_session_tag C msg) (length (heap w))
              (set_pending_prekey None s) w2 Hwf2 ltac:(lia))
    as (s' & w' & Hrun & Hwf' & Hlen & Hstore & Htr & Hp & Hver & Hl & Hr & _).
  unfold bind in Hrun |- *. rewrite Hrun. simpl.
  exists s', w', (inr p). split; [reflexivity|].
  split; [now rewrite Hstore|]. split; [now rewrite Htr|].
  split; [lia|].
  split; [now rewrite Hp|]. split; [assumption|].
  split; [now rewrite Hl|]. split; [now rewrite Hr|].
  intros Hok.
  assert (Hok2 : session_ok (set_pending_prekey None s) w2).
  { apply session_ok_set_pending_None.
    apply session_ok_heap_grow with (w := w); [exact Hok | lia]. }
  destruct (insert_session_ok C (CipherMessage_session_tag C msg) (length (heap w))
              (set_pending_prekey None s) w2 Hok2 ltac:(lia))
    as (s'' & w'' & Hrun' & Hok' & _).
  rewrite Hrun in Hrun'. injection Hrun' as <- <-. exact Hok'.
Qed.

Lemma new_state_run msg s w :
  exists w' r,
    _new_state msg (s, w) = ((s, w'), r) /\
    trace w' = trace w ++ [Ev_load_prekey (pkm_prekey_id msg)] /\
    store w' = fst (PreKeyStore_load_prekey C (store w) (pkm_prekey_id msg)) /\
    match r with
    | inl e => heap w' = heap w
    | inr st => st = length (heap w) /\ exists v, heap w' = heap w ++ [v]
    end.
Proof.
  unfold _new_state, load_prekey, init_as_bob, new_object. monad_simpl.
  destruct (snd (PreKeyStore_load_prekey C (store w) (pkm_prekey_id msg)))
    as [pre_key|]; simpl.
  - destruct (SessionState_init_as_bob C (local_identity s)
                (PreKey_key_pair C pre_key) (pkm_identity_key msg)
                (pkm_base_key msg)) as [e|v]; simpl.
    + eexists _, (inl e). split; [reflexivity|]. simpl. auto.
    + eexists _, (inr _). split; [reflexivity|]. simpl. eauto.
  - eexists _, (inl _). split; [reflexivity|]. simpl. auto.
Qed.

Lemma state_decrypt_run st envelope msg s w v :
  heap w !! st = Some v ->
  on_snd (state_decrypt st envelope msg) (s, w) =
  ((s, set_heap (<[st := fst (SessionState_decrypt C v envelope msg)]> (heap w)) w),
   snd (SessionState_decrypt C v envelope msg)).
Proof.
  intros Hv. unfold state_decrypt, read_object, write_object. monad_simpl.
  rewrite Hv. simpl.
  destruct (snd (SessionState_decrypt C v envelope msg)); reflexivity.
Qed.

(** The three store calls that consume a prekey, and the world they leave. *)
Lemma consume_prekey_run id s w :
  (prekey <- on_snd (load_prekey id) ;;
   on_snd (zeroize_prekey prekey) ;;
   on_snd (delete_prekey id)) (s, w) =
  ((s, mkWorld (heap w)
         (fst (PreKeyStore_delete_prekey C
                 (fst (PreKeyStore_load_prekey C (store w) id)) id))
         (trace w ++ [Ev_load_prekey id;
                      Ev_zeroize_prekey (snd (PreKeyStore_load_prekey C (store w) id));
                      Ev_delete_prekey id])),
   snd (PreKeyStore_delete_prekey C
          (fst (PreKeyStore_load_prekey C (store w) id)) id)).
Proof.
  unfold load_prekey, zeroize_prekey, delete_prekey. monad_simpl.
  rewrite <- !app_assoc. simpl.
  destruct (snd (PreKeyStore_delete_prekey C _ id)); reflexivity.
Qed.

Lemma recover_run envelope msg s w :
  well_formed s w ->
  exists s' w' r,
    recover_with_new_state envelope msg (s, w) = ((s', w'), r) /\
    length (heap w) <= length (heap w') /\
    match r with
    | inl e => s' = s /\ exists extra, heap w' = heap w ++ extra
    | inr p =>
        pending_prekey s' = None /\ well_formed s' w' /\
        local_identity s' = local_identity s /\
        remote_identity s' = remote_identity s /\
        (session_ok s w -> session_ok s' w')
    end.
Proof.
  intros Hwf. unfold recover_with_new_state.
  destruct (new_state_run msg s w) as (w1 & r1 & Hnew & Htr1 & Hst1 & Hr1).
  unfold bind at 1. rewrite Hnew.
  destruct r1 as [e|st].
  { exists s, w1, (inl e). split; [reflexivity|]. rewrite Hr1.
    split; [lia|]. split; [reflexivity|]. exists []. now rewrite app_nil_r. }
  destruct Hr1 as (-> & v & Hheap1).
  assert (Hv : heap w1 !! length (heap w) = Some v).
  { rewrite Hheap1, lookup_app_r by lia. now rewrite Nat.sub_diag. }
  unfold bind at 1. rewrite (state_decrypt_run _ _ _ _ _ _ Hv).
  set (D := SessionState_decrypt C v envelope (pkm_message msg)).
  set (w2 := set_heap _ w1).
  assert (Hheap2 : heap w2 = heap w ++ [fst D]).
  { unfold w2. simpl. rewrite Hheap1, insert_app_r_alt by lia.
    now rewrite Nat.sub_diag. }
  destruct (snd D) as [e|p].
  { exists s, w2, (inl e). split; [reflexivity|]. rewrite Hheap2, length_app.
    split; [lia|]. split; [reflexivity|]. eauto. }
  assert (Hstep : exists w3 r3,
    (if negb (pkm_prekey_id msg =? MAX_PREKEY_ID)%Z
     then prekey <- on_snd (load_prekey (pkm_prekey_id msg)) ;;
          on_snd (zeroize_prekey prekey) ;;
          on_snd (delete_prekey (pkm_prekey_id msg))
     else ret tt) (s, w2) = ((s, w3), r3) /\ heap w3 = heap w2).
  { destruct (negb _).
    - rewrite consume_prekey_run. eexists _, _. split; reflexivity.
    - eexists _, _. split; reflexivity. }
  destruct Hstep as (w3 & r3 & Hstep & Hheap3).
  unfold bind at 1. rewrite Hstep.
  destruct r3 as [e|[]].
  { exists s, w3, (inl e). split; [reflexivity|]. rewrite Hheap3, Hheap2, length_app.
    split; [lia|]. split; [reflexivity|]. eauto. }
  assert (Hlen3 : length (heap w3) = S (length (heap w)))
    by (rewrite Hheap3, Hheap2, length_app; simpl; lia).
  assert (Hwf3 : well_formed s w3)
    by (apply well_formed_heap_grow with (w := w); [exact Hwf | lia]).
  destruct (insert_run C (CipherMessage_session_tag C (pkm_message msg))
              (length (heap w)) s w3 Hwf3 ltac:(lia))
    as (s' & w' & Hrun & Hwf' & Hlen & Hstore & Htr & Hp & Hver & Hl & Hr & _).
  unfold bind at 1. rewrite Hrun. monad_simpl.
  eexists _, w', (inr p). split; [reflexivity|].
  split; [lia|]. split; [reflexivity|].
  split; [exact Hwf'|]. split; [exact Hl|]. split; [exact Hr|].
  intros Hok.
  assert (Hok3 : session_ok s w3)
    by (apply session_ok_heap_grow with (w := w); [exact Hok | lia]).
  destruct (insert_session_ok C (CipherMessage_session_tag C (pkm_message msg))
              (length (heap w)) s w3 Hok3 ltac:(lia))
    as (s'' & w'' & Hrun' & Hok' & _).
  rewrite Hrun in Hrun'. injection Hrun' as <- <-.
  now apply session_ok_set_pending_None.
Qed.

Lemma new_state_success msg s w pre_key v :
  snd (PreKeyStore_load_prekey C (store w) (pkm_prekey_id msg)) = Some pre_key ->
  SessionState_init_as_bob C (local_identity s) (PreKey_key_pair C pre_key)
    (pkm_identity_key msg) (pkm_base_key msg) = inr v ->
  _new_state msg (s, w) =
  ((s, mkWorld (heap w ++ [v])
         (fst (PreKeyStore_load_prekey C (store w) (pkm_prekey_id msg)))
         (trace w ++ [Ev_load_prekey (pkm_prekey_id msg)])),
   inr (length (heap w))).
Proof.
  intros Hload Hbob.
  unfold _new_state, load_prekey, init_as_bob, new_object. monad_simpl.
  rewrite Hload. simpl. rewrite Hbob. reflexivity.
Qed.

(** The recovery when the prekey is found, the new state is derived and it
    decrypts the message: the world in which the consumption starts. *)
Lemma recover_prefix envelope msg s w pre_key v plaintext :
  snd (PreKeyStore_load_prekey C (store w) (pkm_prekey_id msg)) = Some pre_key ->
  SessionState_init_as_bob C (local_identity s) (PreKey_key_pair C pre_key)
    (pkm_identity_key msg) (pkm_base_key msg) = inr v ->
  snd (SessionState_decrypt C v envelope (pkm_message msg)) = inr plaintext ->
  recover_with_new_state envelope msg (s, w) =
  ((if negb (pkm_prekey_id msg =? MAX_PREKEY_ID)%Z
    then
      prekey <- on_snd (load_prekey (pkm_prekey_id msg)) ;;
      on_snd (zeroize_prekey prekey) ;;
      on_snd (delete_prekey (pkm_prekey_id msg))
    else ret tt) ;;
   _insert_session_state (CipherMessage_session_tag C (pkm_message msg))
     (length (heap w)) ;;
   update_this (set_pending_prekey None) ;;
   ret plaintext)
    (s, mkWorld
          (heap w ++ [fst (SessionState_decrypt C v envelope (pkm_message msg))])
          (fst (PreKeyStore_load_prekey C (store w) (pkm_prekey_id msg)))
          (trace w ++ [Ev_load_prekey (pkm_prekey_id msg)])).
Proof.
  intros Hload Hbob Hdec.
  unfold recover_with_new_state.
  unfold bind at 1. rewrite (new_state_success _ _ _ _ _ Hload Hbob).
  set (w1 := mkWorld (heap w ++ [v]) _ _).
  assert (Hv : heap w1 !! length (heap w) = Some v).
  { unfold w1. simpl. rewrite lookup_app_r by lia. now rewrite Nat.sub_diag. }
  unfold bind at 1. rewrite (state_decrypt_run _ _ _ _ _ _ Hv), Hdec.
  unfold w1, set_heap. simpl. rewrite insert_app_r_alt by lia.
  rewrite Nat.sub_diag. reflexivity.
Qed.

(** What the recovery returns then, which store calls it makes, and what is
    left when the deletion fails. *)
Lemma recover_after_decryption envelope msg s w pre_key v plaintext :
  well_formed s w ->
  snd (PreKeyStore_load_prekey C (store w) (pkm_prekey_id msg)) = Some pre_key ->
  SessionState_init_as_bob C (local_identity s) (PreKey_key_pair C pre_key)
    (pkm_identity_key msg) (pkm_base_key msg) = inr v ->
  snd (SessionState_decrypt C v envelope (pkm_message msg)) = inr plaintext ->
  let id := pkm_prekey_id msg in
  let store1 := fst (PreKeyStore_load_prekey C (store w) id) in
  let loaded := PreKeyStore_load_prekey C store1 id in
  let deleted := PreKeyStore_delete_prekey C (fst loaded) id in
  let consumption :=
    [Ev_load_prekey id; Ev_zeroize_prekey (snd loaded); Ev_delete_prekey id] in
  exists s' w',
    if (id =? MAX_PREKEY_ID)%Z
    then
      recover_with_new_state envelope msg (s, w) = ((s', w'), inr plaintext) /\
      prekey_events (trace w') = prekey_events (trace w) ++ [Ev_load_prekey id] /\
      store w' = store1
    else
      recover_with_new_state envelope msg (s, w) =
        ((s', w'),
         match snd deleted with
         | inl e => inl e
         | inr _ => inr plaintext
         end) /\
      prekey_events (trace w') =
        prekey_events (trace w) ++ Ev_load_prekey id :: consumption /\
      store w' = fst deleted /\
      (forall e, snd deleted = inl e ->
         s' = s /\
         heap w' = heap w ++ [fst (SessionState_decrypt C v envelope (pkm_message msg))] /\
         trace w' = trace w ++ Ev_load_prekey id :: consumption).
Proof.
  intros Hwf Hload Hbob Hdec id store1 loaded deleted consumption.
  rewrite (recover_prefix _ _ _ _ _ _ _ Hload Hbob Hdec).
  fold id. fold store1.
  set (w2 := mkWorld _ store1 _).
  assert (Hinsert : forall w3, heap w3 = heap w2 ->
    exists s' w',
      _insert_session_state (CipherMessage_session_tag C (pkm_message msg))
        (length (heap w)) (s, w3) = ((s', w'), inr tt) /\
      store w' = store w3 /\
      prekey_events (trace w') = prekey_events (trace w3)).
  { intros w3 Hheap3.
    assert (Hlen3 : length (heap w3) = S (length (heap w)))
      by (rewrite Hheap3; unfold w2; simpl; rewrite length_app; simpl; lia).
    destruct (insert_run C (CipherMessage_session_tag C (pkm_message msg))
                (length (heap w)) s w3) as (s' & w' & Hrun & _ & _ & Hst & Htr & _).
    - apply well_formed_heap_grow with (w := w); [exact Hwf | lia].
    - lia.
    - exists s', w'. auto. }
  destruct (id =? MAX_PREKEY_ID)%Z; cbn [negb].
  - unfold bind at 1. unfold ret at 1.
    destruct (Hinsert w2 eq_refl) as (s' & w' & Hrun & Hst & Htr).
    unfold bind at 1. rewrite Hrun. monad_simpl.
    eexists _, w'. split; [reflexivity|].
    rewrite Htr, Hst. unfold w2. simpl.
    split; [apply prekey_events_app | reflexivity].
  - unfold bind at 1. rewrite consume_prekey_run.
    set (w3 := mkWorld (heap w2) _ _).
    change (PreKeyStore_delete_prekey C
              (fst (PreKeyStore_load_prekey C (store w2) id)) id) with deleted in *.
    assert (Htr3 : trace w3 = trace w ++ Ev_load_prekey id :: consumption).
    { unfold w3, w2. simpl. now rewrite <- app_assoc. }
    destruct (snd deleted) as [e|[]] eqn:Edel.
    + exists s, w3. split; [reflexivity|].
      split; [rewrite Htr3; apply prekey_events_app|].
      split; [reflexivity|].
      intros e' _. split; [reflexivity|]. split; [reflexivity | exact Htr3].
    + destruct (Hinsert w3 eq_refl) as (s' & w' & Hrun & Hst & Htr).
      unfold bind at 1. rewrite Hrun. monad_simpl.
      eexists _, w'. split; [reflexivity|].
      rewrite Htr, Hst, Htr3.
      split; [apply prekey_events_app|]. split; [reflexivity|]. discriminate.
Qed.

Lemma decrypt_prekey_message_run envelope msg s w :
  well_formed s w ->
  exists s' w' r,
    _decrypt_prekey_message envelope msg (s, w) = ((s', w'), r) /\
    length (heap w) <= length (heap w') /\
    match r with
    | inl e => s' = s /\ exists extra, heap w' = heap w ++ extra
    | inr p =>
        pending_prekey s' = None /\ well_formed s' w' /\
        local_identity s' = local_identity s /\
        remote_identity s' = remote_identity s /\
        (session_ok s w -> session_ok s' w')
    end.
Proof.
  intros Hwf. unfold _decrypt_prekey_message, try_catch.
  destruct (decrypt_cipher_message_run envelope (pkm_message msg) s w Hwf)
    as (s1 & w1 & r1 & Hrun1 & _ & _ & Hlen1 & Hr1).
  unfold bind at 1. rewrite Hrun1.
  destruct r1 as [e|p].
  - destruct Hr1 as (-> & _ & extra & Hheap1).
    destruct (instanceof_InvalidSignature e || instanceof_InvalidMessage e).
    + assert (Hwf1 : well_formed s w1)
        by (apply well_formed_heap_grow with (w := w); assumption).
      destruct (recover_run envelope msg s w1 Hwf1)
        as (s' & w' & r & Hrun & Hlen & Hr).
      exists s', w', r. split; [exact Hrun|]. split; [lia|].
      destruct r as [e'|p].
      * destruct Hr as (-> & extra' & Hheap'). split; [reflexivity|].
        exists (extra ++ extra'). now rewrite Hheap', Hheap1, app_assoc.
      * destruct Hr as (Hp & Hwf' & Hl & Hr & Hok).
        repeat (split; [assumption|]). intros Hs. apply Hok.
        apply session_ok_heap_grow with (w := w); assumption.
    + exists s, w1, (inl e). split; [reflexivity|]. split; [lia|]. eauto.
  - exists s1, w1, (inr p). split; [reflexivity|]. split; [lia|]. exact Hr1.
Qed.

Lemma decrypt_run envelope s w :
  well_formed s w ->
  exists s' w' r,
    decrypt envelope (s, w) = ((s', w'), r) /\
    length (heap w) <= length (heap w') /\
    match r with
    | inl e => s' = s /\ exists extra, heap w' = heap w ++ extra
    | inr p =>
        pending_prekey s' = None /\ well_formed s' w' /\
        local_identity s' = local_identity s /\
        remote_identity s' = remote_identity s /\
        (session_ok s w -> session_ok s' w')
    end.
Proof.
  intros Hwf. unfold decrypt.
  destruct (Envelope_message C envelope) as [msg|msg|].
  - destruct (decrypt_cipher_message_run envelope msg s w Hwf)
      as (s' & w' & r & Hrun & _ & _ & Hlen & Hr).
    exists s', w', r. split; [exact Hrun|]. split; [exact Hlen|].
    destruct r; [|exact Hr]. tauto.
  - monad_simpl.
    destruct (negb (String.eqb (IdentityKey_fingerprint C (pkm_identity_key msg))
                               (IdentityKey_fingerprint C (remote_identity s)))).
    + eexists s, w, (inl _). split; [reflexivity|]. split; [lia|].
      split; [reflexivity|]. exists []. now rewrite app_nil_r.
    + apply decrypt_prekey_message_run. exact Hwf.
  - eexists s, w, (inl _). split; [reflexivity|]. split; [lia|].
    split; [reflexivity|]. exists []. now rewrite app_nil_r.
Qed.

(** [decrypt] on a [PreKeyMessage]: the fingerprint test, the first attempt,
    and what follows it. *)
Lemma decrypt_prekey_message_unfold envelope
    (msg : PreKeyMessageOf (PublicKey C) (IdentityKey C) (CipherMessage C)) s w :
  Envelope_message C envelope = IsPreKeyMessage msg ->
  decrypt envelope (s, w) =
  if negb (String.eqb (IdentityKey_fingerprint C (pkm_identity_key msg))
                      (IdentityKey_fingerprint C (remote_identity s)))
  then ((s, w), inl (mkError DecryptError_RemoteIdentityChanged CASE_204))
  else
    match _decrypt_cipher_message envelope (pkm_message msg) (s, w) with
    | (sw1, inr plaintext) => (sw1, inr plaintext)
    | (sw1, inl error) =>
        if instanceof_InvalidSignature error || instanceof_InvalidMessage error
        then recover_with_new_state envelope msg sw1
        else (sw1, inl error)
    end.
Proof.
  intros Hmsg. unfold decrypt. rewrite Hmsg.
  unfold bind at 1. unfold this, gets. cbn [fst snd].
  destruct (negb _); [reflexivity|].
  unfold _decrypt_prekey_message, try_catch. unfold bind at 1.
  destruct (_decrypt_cipher_message envelope (pkm_message msg) (s, w))
    as [sw1 [error|plaintext]]; [|reflexivity].
  destruct (instanceof_InvalidSignature error || instanceof_InvalidMessage error);
    reflexivity.
Qed.

(** The outcomes of [_decrypt_cipher_message], by the table, the clone and
    the ratchet. *)
Lemma decrypt_cipher_message_outcome envelope (m : CipherMessage C) s w :
  well_formed s w ->
  match obj_get (SessionTag_toString C (CipherMessage_session_tag C m))
                (session_states s) with
  | None =>
      _decrypt_cipher_message envelope m (s, w) =
        ((s, w), inl (mkError DecryptError_InvalidMessage CASE_205))
  | Some e =>
      exists v,
        heap w !! state e = Some v /\
        match SessionState_deserialise C (SessionState_serialise C v) with
        | inl error => _decrypt_cipher_message envelope m (s, w) = ((s, w), inl error)
        | inr v1 =>
            match snd (SessionState_decrypt C v1 envelope m) with
            | inl error =>
                _decrypt_cipher_message envelope m (s, w) =
                  ((s, set_heap
                         (heap w ++ [fst (SessionState_decrypt C v1 envelope m)]) w),
                   inl error)
            | inr plaintext =>
                exists s' w',
                  _insert_session_state (CipherMessage_session_tag C m)
                    (length (heap w))
                    (set_pending_prekey None s,
                     set_heap
                       (heap w ++ [fst (SessionState_decrypt C v1 envelope m)]) w) =
                    ((s', w'), inr tt) /\
                  _decrypt_cipher_message envelope m (s, w) = ((s', w'), inr plaintext)
            end
        end
  end.
Proof.
  intros Hwf.
  assert (Hunfold : forall entry v,
    obj_get (SessionTag_toString C (CipherMessage_session_tag C m))
            (session_states s) = Some entry ->
    heap w !! state entry = Some v ->
    _decrypt_cipher_message envelope m (s, w) =
    match SessionState_deserialise C (SessionState_serialise C v) with
    | inl error => ((s, w), inl error)
    | inr v1 =>
        match snd (SessionState_decrypt C v1 envelope m) with
        | inl error =>
            ((s, set_heap (heap w ++ [fst (SessionState_decrypt C v1 envelope m)]) w),
             inl error)
        | inr plaintext =>
            match _insert_session_state (CipherMessage_session_tag C m)
                    (length (heap w))
                    (set_pending_prekey None s,
                     set_heap
                       (heap w ++ [fst (SessionState_decrypt C v1 envelope m)]) w) with
            | (sw, inr _) => (sw, inr plaintext)
            | (sw, inl error) => (sw, inl error)
            end
        end
    end).
  { intros entry v Eentry Hv. unfold _decrypt_cipher_message.
    unfold bind at 1. unfold this at 1. unfold gets at 1. cbn [fst snd].
    rewrite Eentry.
    unfold state_serialise, state_deserialise, state_decrypt, read_object,
      write_object, new_object.
    monad_simpl. rewrite Hv. simpl.
    destruct (SessionState_deserialise C (SessionState_serialise C v)) as [e|v1];
      simpl; [reflexivity|].
    rewrite lookup_app_r by lia. rewrite Nat.sub_diag. simpl.
    rewrite insert_app_r_alt by lia. rewrite Nat.sub_diag. simpl.
    destruct (SessionState_decrypt C v1 envelope m) as [v2 [e|p]]; simpl;
      [reflexivity|].
    destruct (_insert_session_state _ _ _) as [sw [e|[]]]; reflexivity. }
  destruct (obj_get (SessionTag_toString C (CipherMessage_session_tag C m))
                    (session_states s)) as [entry|] eqn:Eentry.
  2:{ unfold _decrypt_cipher_message.
      unfold bind at 1. unfold this at 1. unfold gets at 1. cbn [fst snd].
      rewrite Eentry. reflexivity. }
  destruct (well_formed_ref C s w _ _ Hwf Eentry) as [v Hv].
  exists v. split; [exact Hv|].
  rewrite (Hunfold entry v eq_refl Hv).
  destruct (SessionState_deserialise C (SessionState_serialise C v)) as [e|v1];
    [reflexivity|].
  destruct (snd (SessionState_decrypt C v1 envelope m)) as [e|p]; [reflexivity|].
  set (w2 := set_heap _ w).
  assert (Hwf2 : well_formed (set_pending_prekey None s) w2).
  { apply well_formed_heap_grow with (w := w); [exact Hwf|].
    unfold w2. simpl. rewrite length_app. lia. }
  assert (Hst : length (heap w) < length (heap w2)).
  { unfold w2. simpl. rewrite length_app. simpl. lia. }
  destruct (insert_run C (CipherMessage_session_tag C m) (length (heap w))
              _ w2 Hwf2 Hst) as (s' & w' & Hrun & _).
  exists s', w'. split; [exact Hrun|]. rewrite Hrun. reflexivity.
Qed.

End Decryption.

(** ** Serialisation reads the session and the objects it refers to *)

Section Serialisation.
Context (C : Collab).
Implicit Types (s : Session C) (w : World C).

Lemma encode_states_same_objects (states : JsObject (Entry C)) w w' :
  (forall k e, obj_get k states = Some e -> heap w' !! state e = heap w !! state e) ->
  forall keys buf,
  exists buf' r,
    encode_states states keys (w, buf) = ((w, buf'), r) /\
    encode_states states keys (w', buf) = ((w', buf'), r).
Proof.
  intros Hsame. induction keys as [|k keys IH]; intros buf; simpl.
  - exists buf, (inr tt). split; reflexivity.
  - destruct (obj_get k states) as [e|] eqn:Ek.
    + unfold emit, read_object. monad_simpl. rewrite (Hsame _ _ Ek).
      destruct (heap w !! state e) as [v|]; simpl.
      * apply IH.
      * eexists _, _. split; reflexivity.
    + eexists _, _. split; reflexivity.
Qed.

(** [serialise] as the bytes written before the entries, then the loop. *)
Lemma serialise_header s w :
  serialise s w =
  match encode_header s with
  | inl e => (w, inl e)
  | inr pre =>
      match encode_states (session_states s) (obj_keys (session_states s)) (w, pre) with
      | (wb, inl e) => (fst wb, inl e)
      | (wb, inr _) => (fst wb, inr (snd wb))
      end
  end.
Proof.
  unfold serialise, encode, encode_header, encoder_u8, encoder_u16, emit.
  monad_simpl.
  destruct ((0 <=? version s)%Z && (version s <=? 255)%Z); simpl; [|reflexivity].
  destruct (pending_prekey s) as [[[id|] [key|]]|]; simpl;
    try destruct ((0 <=? id)%Z && (id <=? 65535)%Z); simpl;
    try reflexivity;
    rewrite <- ?app_assoc; unfold obj_keys; rewrite length_map; reflexivity.
Qed.

Lemma serialise_same_objects s w w' :
  same_objects s w w' -> snd (serialise s w') = snd (serialise s w).
Proof.
  intros Hsame. rewrite !serialise_header.
  destruct (encode_header s) as [e|pre]; [reflexivity|].
  destruct (encode_states_same_objects (session_states s) w w' Hsame
              (obj_keys (session_states s)) pre) as (buf' & r & H1 & H2).
  rewrite H1, H2. destruct r; reflexivity.
Qed.

End Serialisation.

(** ** The round trip through [serialise] and [deserialise] *)

Section RoundTrip.
Context (C : Collab).
Implicit Types (s : Session C) (w : World C).

Lemma encode_states_run (states : JsObject (Entry C)) w :
  Forall (fun ke => state (snd ke) < length (heap w)) states ->
  forall entries,
    (forall ke, In ke entries -> obj_get (fst ke) states = Some (snd ke)) ->
    forall buf,
    exists tvs,
      Forall2 (entry_content w) entries tvs /\
      encode_states states (map fst entries) (w, buf) =
        ((w, buf ++ entries_wire tvs), inr tt).
Proof.
  intros Hrefs. induction entries as [|ke entries IH]; intros Hget buf; simpl.
  - exists []. split; [constructor | now rewrite app_nil_r].
  - pose proof (Hget ke (or_introl eq_refl)) as Hke. rewrite Hke.
    assert (Hlt : state (snd ke) < length (heap w)).
    { apply obj_get_Some_In in Hke. rewrite List.Forall_forall in Hrefs.
      apply (Hrefs _ Hke). }
    destruct (heap w !! state (snd ke)) as [v|] eqn:Ev;
      [|apply lookup_ge_None in Ev; lia].
    unfold emit, read_object. monad_simpl. rewrite Ev. simpl.
    destruct (IH (fun x Hx => Hget x (or_intror Hx))
                 ((buf ++ SessionTag_encode C (tag (snd ke))) ++ SessionState_encode C v))
      as (tvs & Hall & Hrun).
    exists ((tag (snd ke), v) :: tvs). split.
    + constructor; [split; [reflexivity | exact Ev] | exact Hall].
    + rewrite Hrun. unfold entries_wire. simpl. now rewrite <- !app_assoc.
Qed.

Lemma encode_header_ok s :
  is_u8 (version s) ->
  (forall p, pending_prekey s = Some p ->
     exists id key, p = (Some id, Some key) /\ is_u16 id) ->
  encode_header s =
  inr (Encoder_object C 6 ++
       Encoder_u8 C 0 ++ Encoder_u8 C (version s) ++
       Encoder_u8 C 1 ++ SessionTag_encode C (session_tag s) ++
       Encoder_u8 C 2 ++
       IdentityKey_encode C (IdentityKeyPair_public_key C (local_identity s)) ++
       Encoder_u8 C 3 ++ IdentityKey_encode C (remote_identity s) ++
       Encoder_u8 C 4 ++ pending_wire (pending_prekey s) ++
       Encoder_u8 C 5 ++
       Encoder_object C (Z.of_nat (length (session_states s)))).
Proof.
  intros Hver Hpend. unfold encode_header, pending_wire.
  assert (Hv : ((0 <=? version s)%Z && (version s <=? 255)%Z) = true)
    by (unfold is_u8 in Hver; apply andb_true_intro; split; apply Z.leb_le; lia).
  rewrite Hv.
  destruct (pending_prekey s) as [p|].
  - destruct (Hpend p eq_refl) as (id & key & -> & Hid).
    assert (Hi : ((0 <=? id)%Z && (id <=? 65535)%Z) = true)
      by (unfold is_u16 in Hid; apply andb_true_intro; split; apply Z.leb_le; lia).
    rewrite Hi. rewrite <- !app_assoc. reflexivity.
  - rewrite <- !app_assoc. reflexivity.
Qed.

(** The bytes of a session that satisfies the invariant. *)
Lemma serialise_run s w :
  session_ok s w ->
  exists tvs,
    Forall2 (entry_content w) (session_states s) tvs /\
    serialise s w =
      (w, inr (Encoder_object C 6 ++
               Encoder_u8 C 0 ++ Encoder_u8 C (version s) ++
               Encoder_u8 C 1 ++ SessionTag_encode C (session_tag s) ++
               Encoder_u8 C 2 ++
               IdentityKey_encode C (IdentityKeyPair_public_key C (local_identity s)) ++
               Encoder_u8 C 3 ++ IdentityKey_encode C (remote_identity s) ++
               Encoder_u8 C 4 ++ pending_wire (pending_prekey s) ++
               Encoder_u8 C 5 ++
               Encoder_object C (Z.of_nat (length (session_states s))) ++
               entries_wire tvs)).
Proof.
  intros [[Hnd Hrefs] Hkeys Htag Hver Hpend Hsize].
  assert (Hget : forall ke, In ke (session_states s) ->
                            obj_get (fst ke) (session_states s) = Some (snd ke)).
  { intros [k e] Hin. now apply obj_get_In_NoDup. }
  rewrite serialise_header, (encode_header_ok s Hver Hpend).
  match goal with
  | |- context [encode_states _ _ (w, ?b)] =>
      destruct (encode_states_run (session_states s) w Hrefs (session_states s) Hget b)
        as (tvs & Hall & Hrun)
  end.
  exists tvs. split; [exact Hall|].
  unfold obj_keys. rewrite Hrun. simpl. rewrite <- !app_assoc. reflexivity.
Qed.

Lemma decoder_call_run {A : Type} (f : list (Wire C) -> Error + (A * list (Wire C)))
    w buf x rest :
  f buf = inr (x, rest) ->
  decoder_call f (w, buf) = ((w, rest), inr x).
Proof. intros H. unfold decoder_call. simpl. now rewrite H. Qed.

Section WithLaws.
Hypothesis laws : CodecLaws C.

Lemma decode_states_run : forall tvs index acc w rest,
  List.NoDup (obj_keys acc ++ map (fun tv => SessionTag_toString C (fst tv)) tvs) ->
  decode_states (length tvs) index acc (w, entries_wire tvs ++ rest) =
  ((set_heap (heap w ++ map snd tvs) w, rest),
   inr (acc ++ decoded_entries index (length (heap w)) tvs)).
Proof.
  induction tvs as [|[t v] tvs IH]; intros index acc w rest Hnd; simpl.
  - rewrite !app_nil_r. destruct w. reflexivity.
  - unfold entries_wire in *. simpl. rewrite <- !app_assoc.
    unfold bind at 1.
    rewrite (decoder_call_run _ _ _ _ _ (law_SessionTag laws t _)).
    unfold bind at 1.
    rewrite (decoder_call_run _ _ _ _ _ (law_SessionState laws v _)).
    unfold bind at 1. unfold on_fst, new_object. cbn [fst snd].
    assert (Hnotin : ~ In (SessionTag_toString C t) (obj_keys acc)).
    { intros Hin. apply List.NoDup_remove_2 in Hnd. apply Hnd.
      apply in_or_app. now left. }
    rewrite obj_set_absent by exact Hnotin.
    rewrite IH.
    + simpl. unfold set_heap. simpl. rewrite <- !app_assoc. simpl.
      rewrite length_app. simpl. rewrite Nat.add_1_r. reflexivity.
    + unfold obj_keys in *. rewrite map_app. simpl. rewrite <- app_assoc.
      simpl. apply NoDup_Add with (a := SessionTag_toString C t)
        (l := map fst acc ++ map (fun tv => SessionTag_toString C (fst tv)) tvs).
      * apply List.Add_app.
      * split.
        -- eapply List.NoDup_remove_1; eauto.
        -- eapply List.NoDup_remove_2; eauto.
Qed.

Ltac read_wire law :=
  unfold bind at 1;
  rewrite (decoder_call_run _ _ _ _ _ law);
  cbv beta iota.

Ltac read_tag :=
  unfold bind at 1;
  erewrite decoder_call_run by (apply (law_u8 laws); unfold is_u8; lia);
  cbv beta iota.

Lemma decode_property_version L vars w v rest :
  is_u8 v ->
  decode_property L vars (w, Encoder_u8 C 0 ++ Encoder_u8 C v ++ rest) =
  ((w, rest),
   inr (mkDecodeVars (Some v) (var_sessionTag vars) (var_remoteIdentity vars)
          (var_pendingPrekey vars) (var_sessionStates vars))).
Proof.
  intros Hv. unfold decode_property. read_tag.
  read_wire (@law_u8 C laws v rest Hv). reflexivity.
Qed.

Lemma decode_property_session_tag L vars w t rest :
  decode_property L vars (w, Encoder_u8 C 1 ++ SessionTag_encode C t ++ rest) =
  ((w, rest),
   inr (mkDecodeVars (var_version vars) (Some t) (var_remoteIdentity vars)
          (var_pendingPrekey vars) (var_sessionStates vars))).
Proof.
  unfold decode_property. read_tag.
  read_wire (law_SessionTag laws t rest). reflexivity.
Qed.

Lemma decode_property_local_identity L vars w rest :
  decode_property L vars
    (w, Encoder_u8 C 2 ++ IdentityKey_encode C (IdentityKeyPair_public_key C L) ++ rest) =
  ((w, rest), inr vars).
Proof.
  unfold decode_property. read_tag.
  read_wire (law_IdentityKey laws (IdentityKeyPair_public_key C L) rest).
  now rewrite String.eqb_refl.
Qed.

Lemma decode_property_remote_identity L vars w k rest :
  decode_property L vars (w, Encoder_u8 C 3 ++ IdentityKey_encode C k ++ rest) =
  ((w, rest),
   inr (mkDecodeVars (var_version vars) (var_sessionTag vars) (Some k)
          (var_pendingPrekey vars) (var_sessionStates vars))).
Proof.
  unfold decode_property. read_tag.
  read_wire (law_IdentityKey laws k rest). reflexivity.
Qed.

Lemma decode_pending_item_id a w n rest :
  is_u16 n ->
  decode_pending_item a (w, Encoder_u8 C 0 ++ Encoder_u16 C n ++ rest) =
  ((w, rest), inr (Some n, snd a)).
Proof.
  intros Hn. unfold decode_pending_item. read_tag.
  read_wire (@law_u16 C laws n rest Hn). reflexivity.
Qed.

Lemma decode_pending_item_key a w k rest :
  decode_pending_item a (w, Encoder_u8 C 1 ++ PublicKey_encode C k ++ rest) =
  ((w, rest), inr (fst a, Some k)).
Proof.
  unfold decode_pending_item. read_tag.
  read_wire (law_PublicKey laws k rest). reflexivity.
Qed.

Lemma decode_property_pending L vars w (p : PendingPrekey C) rest :
  (forall q, p = Some q -> exists id key, q = (Some id, Some key) /\ is_u16 id) ->
  decode_property L vars (w, Encoder_u8 C 4 ++ pending_wire p ++ rest) =
  ((w, rest),
   inr (mkDecodeVars (var_version vars) (var_sessionTag vars) (var_remoteIdentity vars)
          (match p with
           | Some q => pending_array (fst q) (snd q)
           | None => pending_null
           end)
          (var_sessionStates vars))).
Proof.
  intros Hp. unfold decode_property. read_tag.
  destruct p as [q|]; unfold pending_wire.
  - destruct (Hp q eq_refl) as (id & key & -> & Hid).
    rewrite <- !app_assoc.
    unfold bind at 1.
    erewrite decoder_call_run by (apply (law_optional_object laws); lia).
    cbv beta iota.
    unfold bind at 1. rewrite decode_pending_item_id by exact Hid.
    unfold bind at 1. rewrite decode_pending_item_key.
    reflexivity.
  - read_wire (law_optional_null laws rest). reflexivity.
Qed.

Lemma decode_property_states L vars w tvs rest :
  (Z.of_nat (length tvs) <= 4294967295)%Z ->
  List.NoDup (map (fun tv => SessionTag_toString C (fst tv)) tvs) ->
  decode_property L vars
    (w, Encoder_u8 C 5 ++ Encoder_object C (Z.of_nat (length tvs)) ++
        entries_wire tvs ++ rest) =
  ((set_heap (heap w ++ map snd tvs) w, rest),
   inr (mkDecodeVars (var_version vars) (var_sessionTag vars) (var_remoteIdentity vars)
          (var_pendingPrekey vars) (decoded_entries 0 (length (heap w)) tvs))).
Proof.
  intros Hn Hnd. unfold decode_property. read_tag.
  unfold bind at 1.
  erewrite decoder_call_run by (apply (law_object laws); lia).
  cbv beta iota.
  rewrite Nat2Z.id. unfold bind at 1.
  rewrite decode_states_run by exact Hnd. reflexivity.
Qed.

Lemma entry_content_names (states : JsObject (Entry C)) w tvs :
  Forall2 (entry_content w) states tvs ->
  Forall (fun ke : string * Entry C => SessionTag_toString C (tag (snd ke)) = fst ke)
         states ->
  map (fun tv => SessionTag_toString C (fst tv)) tvs = obj_keys states.
Proof.
  induction 1 as [|ke tv states tvs [Htag _] _ IH]; intros Hkeys; simpl.
  - reflexivity.
  - inversion Hkeys; subst. rewrite IH by assumption. congruence.
Qed.

Lemma decoded_entries_keys index base (tvs : list (SessionTag C * SessionState C)) :
  obj_keys (decoded_entries index base tvs) =
  map (fun tv => SessionTag_toString C (fst tv)) tvs.
Proof.
  revert index base. induction tvs as [|tv tvs IH]; intros index base; simpl.
  - reflexivity.
  - f_equal. apply IH.
Qed.

Lemma decoded_entries_keys_ok index base (tvs : list (SessionTag C * SessionState C)) :
  Forall (fun ke : string * Entry C => SessionTag_toString C (tag (snd ke)) = fst ke)
         (decoded_entries index base tvs).
Proof.
  revert index base. induction tvs as [|tv tvs IH]; intros index base; simpl;
    constructor; auto.
Qed.

Lemma decoded_entries_refs index base (tvs : list (SessionTag C * SessionState C)) :
  Forall (fun ke : string * Entry C => state (snd ke) < base + length tvs)
         (decoded_entries index base tvs).
Proof.
  revert index base. induction tvs as [|tv tvs IH]; intros index base; simpl;
    constructor; simpl; [lia|].
  eapply List.Forall_impl; [|apply (IH (index + 1)%Z (S base))].
  simpl. intros ke H. lia.
Qed.

Lemma decoded_entries_idx index base (tvs : list (SessionTag C * SessionState C)) :
  map (fun ke => idx (snd ke)) (decoded_entries index base tvs) =
  map (fun i => (index + Z.of_nat i)%Z) (seq 0 (length tvs)).
Proof.
  revert index base. induction tvs as [|tv tvs IH]; intros index base; simpl.
  - reflexivity.
  - f_equal; [lia|]. rewrite IH, <- seq_shift, map_map.
    apply map_ext. intros i. lia.
Qed.

Lemma decoded_entries_view (states : JsObject (Entry C)) w tvs :
  Forall2 (entry_content w) states tvs ->
  Forall (fun ke : string * Entry C => SessionTag_toString C (tag (snd ke)) = fst ke)
         states ->
  forall (h : list (SessionState C)) index w',
    heap w' = h ++ map snd tvs ->
    map (entry_view w') (decoded_entries index (length h) tvs) =
    map (entry_view w) states.
Proof.
  induction 1 as [|ke tv states tvs [Htag Hobj] _ IH]; intros Hkeys h index w' Hheap;
    simpl.
  - reflexivity.
  - inversion Hkeys as [|? ? Hke Hkeys']; subst. f_equal.
    + unfold entry_view. simpl. rewrite Hheap, Hobj, Htag, Hke.
      rewrite lookup_app_r by lia. now rewrite Nat.sub_diag.
    + specialize (IH Hkeys' (h ++ [snd tv]) (index + 1)%Z w').
      rewrite length_app, Nat.add_1_r in IH. apply IH.
      rewrite Hheap, <- app_assoc. reflexivity.
Qed.

Lemma deserialise_serialise_run s w random_tag :
  session_ok s w ->
  exists buf tvs,
    Forall2 (entry_content w) (session_states s) tvs /\
    serialise s w = (w, inr buf) /\
    deserialise (local_identity s) buf random_tag w =
      (set_heap (heap w ++ map snd tvs) w,
       inr (new_Session (local_identity s) (remote_identity s) (session_tag s)
              (pending_prekey s)
              (decoded_entries 0 (length (heap w)) tvs) (version s))).
Proof.
  intros Hok. destruct (serialise_run s w Hok) as (tvs & Hall & Hser).
  destruct Hok as [[Hnd Hrefs] Hkeys Htag Hver Hpend Hsize].
  eexists _, tvs. split; [exact Hall|]. split; [exact Hser|].
  pose proof (Forall2_length _ _ _ Hall) as Hlen.
  assert (Hbound : (Z.of_nat (length tvs) <= 4294967295)%Z).
  { unfold obj_size, obj_keys, MAX_SESSION_STATES in Hsize.
    rewrite length_map in Hsize. lia. }
  assert (Hnames : List.NoDup (map (fun tv => SessionTag_toString C (fst tv)) tvs)).
  { rewrite (entry_content_names _ _ _ Hall Hkeys). exact Hnd. }
  unfold deserialise, decode.
  unfold bind at 1.
  erewrite decoder_call_run by (apply (law_object laws); lia).
  change (Z.to_nat 6) with 6. cbn [decode_properties].
  unfold bind at 1. unfold bind at 1.
  rewrite decode_property_version by exact Hver.
  unfold bind at 1. rewrite decode_property_session_tag.
  unfold bind at 1. rewrite decode_property_local_identity.
  unfold bind at 1. rewrite decode_property_remote_identity.
  unfold bind at 1. rewrite decode_property_pending by exact Hpend.
  unfold bind at 1. rewrite Hlen.
  rewrite <- (app_nil_r (entries_wire tvs)).
  rewrite decode_property_states by assumption.
  unfold ret at 1. cbn [var_remoteIdentity fst snd initial_vars].
  unfold ret at 1. unfold construct_decoded. simpl.
  destruct (pending_prekey s) as [[item0 item1]|]; reflexivity.
Qed.

Lemma decoded_session_ok s w tvs :
  session_ok s w ->
  Forall2 (entry_content w) (session_states s) tvs ->
  session_ok
    (new_Session (local_identity s) (remote_identity s) (session_tag s)
       (pending_prekey s) (decoded_entries 0 (length (heap w)) tvs) (version s))
    (set_heap (heap w ++ map snd tvs) w).
Proof.
  intros [[Hnd Hrefs] Hkeys Htag Hver Hpend Hsize] Hall.
  pose proof (Forall2_length _ _ _ Hall) as Hlen.
  constructor; simpl.
  - split; simpl.
    + rewrite decoded_entries_keys, (entry_content_names _ _ _ Hall Hkeys). exact Hnd.
    + rewrite length_app, length_map. apply decoded_entries_refs.
  - apply decoded_entries_keys_ok.
  - reflexivity.
  - exact Hver.
  - exact Hpend.
  - unfold obj_size in *. rewrite decoded_entries_keys, length_map.
    unfold obj_keys in Hsize. rewrite length_map in Hsize. lia.
Qed.

End WithLaws.

End RoundTrip.

(** ** Every reachable session satisfies the invariant *)

Section Reachable.
Context (C : Collab).
Hypothesis laws : CodecLaws C.
Implicit Types (s : Session C) (w : World C).

Lemma new_Session_ok local remote t (pending : PendingPrekey C) version w :
  (forall p, pending = Some p -> exists id key, p = (Some id, Some key) /\ is_u16 id) ->
  is_u8 version ->
  session_ok (new_Session (C := C) local remote t pending [] version) w.
Proof.
  intros Hp Hv. constructor; simpl; auto.
  - split; simpl; constructor.
  - unfold obj_size, MAX_SESSION_STATES. simpl. lia.
Qed.

Lemma init_from_prekey_ok local bundle alice_base t w0 w s :
  is_u16 (PreKeyBundle_prekey_id C bundle) ->
  init_from_prekey local bundle alice_base t w0 = (w, inr s) ->
  session_ok s w.
Proof.
  intros Hid. unfold init_from_prekey, init_as_alice, new_object, with_session.
  monad_simpl.
  destruct (SessionState_init_as_alice C local alice_base bundle) as [e|v];
    simpl; [discriminate|].
  match goal with
  | |- context [_insert_session_state ?t ?st (?s0, ?w1)] =>
      destruct (insert_session_ok C t st s0 w1) as (s' & w' & Hrun & Hok & _)
  end.
  - apply new_Session_ok; [|unfold is_u8; lia]. intros p [= <-]. eauto.
  - simpl. rewrite length_app. simpl. lia.
  - rewrite Hrun. simpl. intros [= <- <-]. exact Hok.
Qed.

Lemma init_from_message_ok our envelope w0 w s plain :
  init_from_message our envelope w0 = (w, inr (s, plain)) ->
  session_ok s w.
Proof.
  unfold init_from_message.
  destruct (Envelope_message C envelope) as [msg|msg|]; try discriminate.
  unfold with_session.
  set (s0 := new_Session our (pkm_identity_key msg)
               (CipherMessage_session_tag C (pkm_message msg)) None [] 1).
  assert (Hok0 : forall w, session_ok s0 w)
    by (intros w1; apply new_Session_ok; [discriminate | unfold is_u8; lia]).
  destruct (new_state_run C msg s0 w0) as (w1 & r1 & Hnew & _ & _ & Hr1).
  unfold bind at 1. rewrite Hnew.
  destruct r1 as [e|st]; [discriminate|].
  destruct Hr1 as (-> & v & Hheap1).
  assert (Hv : heap w1 !! length (heap w0) = Some v).
  { rewrite Hheap1, lookup_app_r by lia. now rewrite Nat.sub_diag. }
  unfold bind at 1. rewrite (state_decrypt_run C _ _ _ _ _ _ Hv).
  destruct (snd (SessionState_decrypt C v envelope (pkm_message msg))) as [e|p];
    [discriminate|].
  unfold bind at 1.
  match goal with
  | |- context [_insert_session_state ?t ?st (?s0, ?w2)] =>
      destruct (insert_session_ok C t st s0 w2) as (s' & w' & Hrun & Hok & _ & Hlen & _)
  end.
  - apply Hok0.
  - simpl. rewrite length_insert, Hheap1, length_app. simpl. lia.
  - rewrite Hrun.
    destruct (pkm_prekey_id msg <? MAX_PREKEY_ID)%Z.
    + unfold bind at 1. unfold bind at 1. unfold bind at 1.
      unfold load_prekey, zeroize_prekey, delete_prekey. monad_simpl.
      destruct (snd (PreKeyStore_delete_prekey C _ _)); [discriminate|].
      intros [= <- <- _].
      apply session_ok_heap_grow with (w := w'); [exact Hok | simpl; lia].
    + monad_simpl. intros [= <- <- _]. exact Hok.
Qed.

Lemma encrypt_ok plaintext s w s' w' r :
  session_ok s w ->
  encrypt plaintext (s, w) = ((s', w'), r) ->
  session_ok s' w'.
Proof.
  intros Hok. unfold encrypt. monad_simpl.
  destruct (obj_get (session_tag_name s) (session_states s)) as [e|] eqn:Ee; simpl.
  - destruct (well_formed_ref C s w _ _ (ok_well_formed Hok) Ee) as [v Hv].
    unfold state_encrypt, read_object, write_object. monad_simpl.
    rewrite Hv. simpl.
    destruct (snd (SessionState_encrypt C v _ _ _ _)); simpl;
      intros [= <- <- _];
      (apply session_ok_heap_grow with (w := w);
       [exact Hok | simpl; rewrite length_insert; lia]).
  - intros [= <- <- _]. exact Hok.
Qed.

Lemma decrypt_ok envelope s w s' w' r :
  session_ok s w ->
  decrypt envelope (s, w) = ((s', w'), r) ->
  session_ok s' w'.
Proof.
  intros Hok Hrun.
  destruct (decrypt_run C envelope s w (ok_well_formed Hok))
    as (s1 & w1 & r1 & Hrun1 & Hlen & Hr1).
  rewrite Hrun in Hrun1. injection Hrun1 as <- <- <-.
  destruct r as [e|p].
  - destruct Hr1 as (-> & _). eapply session_ok_heap_grow; eauto.
  - apply Hr1. exact Hok.
Qed.

Lemma reachable_session_ok s w : reachable s w -> session_ok s w.
Proof.
  induction 1 as [local bundle alice_base t w0 w s Hid Hinit
                 | our envelope w0 w s plain Hinit
                 | s w plaintext s' w' r _ IH Henc
                 | s w envelope s' w' r _ IH Hdec
                 | s w buf w1 random_tag s' w' _ IH Hser Hdes
                 | s w st _ IH].
  - eapply init_from_prekey_ok; eauto.
  - eapply init_from_message_ok; eauto.
  - eapply encrypt_ok; eauto.
  - eapply decrypt_ok; eauto.
  - destruct (deserialise_serialise_run C laws s w random_tag IH)
      as (buf0 & tvs & Hall & Hser0 & Hdes0).
    rewrite Hser in Hser0. injection Hser0 as -> ->.
    rewrite Hdes in Hdes0. injection Hdes0 as -> ->.
    now apply decoded_session_ok.
  - apply session_ok_heap_grow with (w := w); [exact IH | simpl; lia].
Qed.

End Reachable.

(** * The claims *)

Section Claims.
Context (C : Collab).
Implicit Types (s : Session C) (w : World C).

(** C1.  Atomicity of [decrypt].  If [Session.decrypt] raises, the session
    object is what it was before the call, every [SessionState] object it
    refers to holds what it held, and serialising the session yields the
    same bytes as before the call.  The ratchet that ran was a clone, made by
    [SessionState.deserialise(state.serialise())]; the clone is committed,
    and [pending_prekey] cleared, only after it has decrypted the message. *)
Theorem decrypt_failure_leaves_session_unchanged envelope s w s' w' e :
  well_formed s w ->
  decrypt envelope (s, w) = ((s', w'), inl e) ->
  s' = s /\
  same_objects s w w' /\
  snd (serialise s' w') = snd (serialise s w).
Proof.
  intros Hwf Hrun.
  destruct (decrypt_run C envelope s w Hwf) as (s1 & w1 & r1 & Hrun1 & _ & Hr1).
  rewrite Hrun in Hrun1. injection Hrun1 as <- <- <-.
  destruct Hr1 as (-> & extra & Hheap).
  assert (Hsame : same_objects s w w') by (eapply same_objects_app; eauto).
  split; [reflexivity|]. split; [exact Hsame|].
  now apply serialise_same_objects.
Qed.

(** C8.  After [Session.decrypt] has returned a plaintext, [pending_prekey]
    is [null], whatever it was before: on the path of a [CipherMessage] and
    on both paths of a [PreKeyMessage].  And [decrypt] does return on these
    paths: on a [CipherMessage], when the clone of the state the table has
    under its tag decrypts it; in the recovery of a [PreKeyMessage] of the
    expected identity under a tag the table does not have, when the prekey
    is found, the state derived from it decrypts the message, and the prekey
    is the last-resort one or is deleted without error. *)
Theorem decrypt_success_clears_pending_prekey envelope s w :
  well_formed s w ->
  (forall s' w' plaintext,
     decrypt envelope (s, w) = ((s', w'), inr plaintext) ->
     pending_prekey s' = None) /\
  (forall m e v v1 plaintext,
     Envelope_message C envelope = IsCipherMessage m ->
     obj_get (SessionTag_toString C (CipherMessage_session_tag C m))
             (session_states s) = Some e ->
     heap w !! state e = Some v ->
     SessionState_deserialise C (SessionState_serialise C v) = inr v1 ->
     snd (SessionState_decrypt C v1 envelope m) = inr plaintext ->
     exists s' w',
       decrypt envelope (s, w) = ((s', w'), inr plaintext) /\
       pending_prekey s' = None) /\
  (forall (msg : PreKeyMessageOf (PublicKey C) (IdentityKey C) (CipherMessage C))
          pre_key v plaintext,
     Envelope_message C envelope = IsPreKeyMessage msg ->
     IdentityKey_fingerprint C (pkm_identity_key msg) =
       IdentityKey_fingerprint C (remote_identity s) ->
     obj_get (SessionTag_toString C (CipherMessage_session_tag C (pkm_message msg)))
             (session_states s) = None ->
     snd (PreKeyStore_load_prekey C (store w) (pkm_prekey_id msg)) = Some pre_key ->
     SessionState_init_as_bob C (local_identity s) (PreKey_key_pair C pre_key)
       (pkm_identity_key msg) (pkm_base_key msg) = inr v ->
     snd (SessionState_decrypt C v envelope (pkm_message msg)) = inr plaintext ->
     (pkm_prekey_id msg = MAX_PREKEY_ID \/
      snd (PreKeyStore_delete_prekey C
             (fst (PreKeyStore_load_prekey C
                     (fst (PreKeyStore_load_prekey C (store w) (pkm_prekey_id msg)))
                     (pkm_prekey_id msg)))
             (pkm_prekey_id msg)) = inr tt) ->
     exists s' w',
       decrypt envelope (s, w) = ((s', w'), inr plaintext) /\
       pending_prekey s' = None).
Proof.
  intros Hwf.
  assert (Hclear : forall s' w' plaintext,
            decrypt envelope (s, w) = ((s', w'), inr plaintext) ->
            pending_prekey s' = None).
  { intros s' w' plaintext Hrun.
    destruct (decrypt_run C envelope s w Hwf) as (s1 & w1 & r1 & Hrun1 & _ & Hr1).
    rewrite Hrun in Hrun1. injection Hrun1 as <- <- <-. apply Hr1. }
  split; [exact Hclear|]. split.
  - intros m e v v1 plaintext Hmsg He Hv Hclone Hdec.
    pose proof (decrypt_cipher_message_outcome C envelope m s w Hwf) as Hfirst.
    rewrite He in Hfirst. destruct Hfirst as (v' & Hv' & Hfirst).
    rewrite Hv in Hv'. injection Hv' as <-.
    rewrite Hclone, Hdec in Hfirst. destruct Hfirst as (s' & w' & _ & Hrun).
    assert (Hdecrypt : decrypt envelope (s, w) = ((s', w'), inr plaintext))
      by (unfold decrypt; rewrite Hmsg; exact Hrun).
    exists s', w'. split; [exact Hdecrypt | exact (Hclear _ _ _ Hdecrypt)].
  - intros msg pre_key v plaintext Hmsg Hfp Hnone Hload Hbob Hdec Hid.
    pose proof (decrypt_prekey_message_unfold C envelope msg s w Hmsg) as Hunfold.
    rewrite Hfp, String.eqb_refl in Hunfold. cbn [negb] in Hunfold.
    pose proof (decrypt_cipher_message_outcome C envelope (pkm_message msg) s w Hwf)
      as Hfirst.
    rewrite Hnone in Hfirst. rewrite Hfirst in Hunfold. cbn in Hunfold.
    destruct (recover_after_decryption C envelope msg s w pre_key v plaintext
                Hwf Hload Hbob Hdec) as (s' & w' & Hrec).
    assert (Hdecrypt : decrypt envelope (s, w) = ((s', w'), inr plaintext)).
    { rewrite Hunfold. destruct Hid as [Hid|Hdel].
      - rewrite Hid, Z.eqb_refl in Hrec. rewrite <- Hid in Hrec. apply Hrec.
      - destruct (pkm_prekey_id msg =? MAX_PREKEY_ID)%Z; [apply Hrec|].
        destruct Hrec as (Hrec & _). rewrite Hdel in Hrec. exact Hrec. }
    exists s', w'. split; [exact Hdecrypt | exact (Hclear _ _ _ Hdecrypt)].
Qed.

(** C7.  [_evict_oldest_session_state], run on a table that has an entry
    under another name than the current one, removes exactly one entry:
    among the entries whose name is not [session_tag_name], one of smallest
    [idx].  [MemoryUtil.zeroize] runs on that entry, found in the table,
    before the entry is deleted; the other entries, and so the entry of the
    current tag, stay. *)
Theorem evict_removes_oldest_non_current s w :
  well_formed s w ->
  eviction_candidates (session_tag_name s) (session_states s) <> [] ->
  exists oldest e v,
    obj_get oldest (session_states s) = Some e /\
    oldest <> session_tag_name s /\
    (forall k e', obj_get k (session_states s) = Some e' ->
                  k <> session_tag_name s -> (idx e <= idx e')%Z) /\
    heap w !! state e = Some v /\
    _evict_oldest_session_state (s, w) =
      ((set_session_states (obj_delete oldest (session_states s)) s, zeroized e v w),
       inr tt) /\
    obj_size (obj_delete oldest (session_states s)) =
      (obj_size (session_states s) - 1)%Z /\
    obj_get oldest (obj_delete oldest (session_states s)) = None /\
    (forall k, k <> oldest ->
       obj_get k (obj_delete oldest (session_states s)) = obj_get k (session_states s)) /\
    obj_get (session_tag_name s) (obj_delete oldest (session_states s)) =
      obj_get (session_tag_name s) (session_states s).
Proof.
  intros Hwf Hne.
  destruct (evict_run C s w Hwf Hne) as (oldest & e & v & He & Hcur & Hmin & Hv & Hrun).
  destruct Hwf as [Hnd _].
  assert (Hother : forall k, k <> oldest ->
    obj_get k (obj_delete oldest (session_states s)) = obj_get k (session_states s)).
  { intros k Hk. rewrite obj_get_delete by exact Hnd.
    destruct (String.eqb_spec oldest k); [congruence | reflexivity]. }
  exists oldest, e, v.
  repeat (split; [assumption|]).
  split; [apply obj_size_delete; [exact Hnd | eapply obj_get_Some_keys; eauto]|].
  split; [rewrite obj_get_delete by exact Hnd; now rewrite String.eqb_refl|].
  split; [exact Hother|].
  apply Hother. congruence.
Qed.

(** At most one key of a table is filtered out as the current one. *)
Lemma eviction_candidates_length current (states : JsObject (Entry C)) :
  List.NoDup (obj_keys states) ->
  (obj_size states - 1 <= Z.of_nat (length (eviction_candidates current states)))%Z.
Proof.
  unfold obj_size, eviction_candidates.
  induction (obj_keys states) as [|k ks IH]; intros Hnd; simpl; [lia|].
  inversion Hnd as [|? ? Hnotin Hnd']; subst.
  destruct (String.eqb_spec k current) as [->|Hne]; simpl.
  - rewrite forallb_filter_id; [lia|].
    apply forallb_forall. intros x Hx.
    destruct (String.eqb_spec x current) as [->|]; [contradiction | reflexivity].
  - specialize (IH Hnd'). lia.
Qed.

(** C9.  [_insert_session_state] never throws.  When it runs the eviction,
    the table holds at least [MAX_SESSION_STATES] entries, at most one of
    them under the current name, so that the list handed to [reduce] is not
    empty; the eviction returns and leaves one entry less. *)
Theorem insert_eviction_has_candidates (t : SessionTag C) (st : ref) s w :
  well_formed s w ->
  st < length (heap w) ->
  let mid := fst (fst (insert_and_promote t st (s, w))) in
  (exists s' w', _insert_session_state t st (s, w) = ((s', w'), inr tt)) /\
  ((MAX_SESSION_STATES <= obj_size (session_states mid))%Z ->
   (MAX_SESSION_STATES - 1 <=
    Z.of_nat (length (eviction_candidates (session_tag_name mid) (session_states mid))))%Z /\
   eviction_candidates (session_tag_name mid) (session_states mid) <> [] /\
   exists s' w',
     _evict_oldest_session_state (mid, w) = ((s', w'), inr tt) /\
     _insert_session_state t st (s, w) = ((s', w'), inr tt) /\
     obj_size (session_states s') = (obj_size (session_states mid) - 1)%Z).
Proof.
  intros Hwf Hst. rewrite insert_and_promote_run. cbn [fst].
  destruct (insert_run C t st s w Hwf Hst) as (s' & w' & Hrun & _).
  split; [eauto|]. intros Hfull.
  pose proof (after_insert_well_formed C t st s w Hwf Hst) as Hwf1.
  assert (Hcand : eviction_candidates (session_tag_name (after_insert t st s))
                    (session_states (after_insert t st s)) <> []).
  { apply candidates_nonempty; [apply Hwf1 | unfold MAX_SESSION_STATES in Hfull; lia]. }
  split.
  { pose proof (eviction_candidates_length
                  (session_tag_name (after_insert t st s))
                  (session_states (after_insert t st s)) (proj1 Hwf1)). lia. }
  split; [exact Hcand|].
  destruct (evict_run C _ _ Hwf1 Hcand) as (oldest & e & v & He & _ & _ & _ & Hev).
  eexists _, _. split; [exact Hev|]. split.
  - rewrite insert_session_state_run.
    destruct (Z.ltb_spec (obj_size (session_states (after_insert t st s)))
                         MAX_SESSION_STATES); [lia | exact Hev].
  - simpl. apply obj_size_delete; [apply Hwf1 | eapply obj_get_Some_keys; eauto].
Qed.

(** C2.  The table of a reachable session holds at most
    [MAX_SESSION_STATES] = 100 entries, and still does after any call of
    [_insert_session_state]; the call runs the eviction exactly when the
    table holds at least 100 entries after the insertion. *)
Theorem session_states_at_most_MAX s w :
  CodecLaws C ->
  reachable s w ->
  (obj_size (session_states s) <= MAX_SESSION_STATES)%Z /\
  forall (t : SessionTag C) (st : ref),
    st < length (heap w) ->
    let mid := fst (fst (insert_and_promote t st (s, w))) in
    _insert_session_state t st (s, w) =
      (if (obj_size (session_states mid) <? MAX_SESSION_STATES)%Z
       then ((mid, w), inr tt)
       else _evict_oldest_session_state (mid, w)) /\
    exists s' w',
      _insert_session_state t st (s, w) = ((s', w'), inr tt) /\
      (obj_size (session_states s') <= MAX_SESSION_STATES)%Z.
Proof.
  intros laws Hreach.
  pose proof (reachable_session_ok C laws s w Hreach) as Hok.
  split; [pose proof (ok_size Hok); lia|].
  intros t st Hst. rewrite insert_and_promote_run. cbn [fst].
  split; [apply insert_session_state_run|].
  destruct (insert_session_ok C t st s w Hok Hst) as (s' & w' & Hrun & Hok' & _).
  exists s', w'. split; [exact Hrun|]. pose proof (ok_size Hok'). lia.
Qed.

(** C3.  The round trip.  A reachable session serialises, and the bytes
    deserialise under its local identity to a session with the same version,
    session tag, identities and pending prekey, and with the same table: the
    same keys in the same order, each with the same tag and a [SessionState]
    object of the same content.  The [idx] of the entries are 0, 1, 2, ... in
    that order. *)
Theorem serialise_deserialise_round_trip s w (random_tag : SessionTag C) :
  CodecLaws C ->
  reachable s w ->
  exists buf s' w',
    serialise s w = (w, inr buf) /\
    deserialise (local_identity s) buf random_tag w = (w', inr s') /\
    version s' = version s /\
    session_tag s' = session_tag s /\
    session_tag_name s' = session_tag_name s /\
    local_identity s' = local_identity s /\
    remote_identity s' = remote_identity s /\
    pending_prekey s' = pending_prekey s /\
    map (entry_view w') (session_states s') = map (entry_view w) (session_states s) /\
    map (fun ke => idx (snd ke)) (session_states s') =
      map Z.of_nat (seq 0 (length (session_states s))).
Proof.
  intros laws Hreach.
  pose proof (reachable_session_ok C laws s w Hreach) as Hok.
  destruct (deserialise_serialise_run C laws s w random_tag Hok)
    as (buf & tvs & Hall & Hser & Hdes).
  eexists buf, _, _. split; [exact Hser|]. split; [exact Hdes|]. simpl.
  repeat (split; [reflexivity|]).
  split; [symmetry; apply (ok_tag_name Hok)|].
  repeat (split; [reflexivity|]).
  split.
  - apply (decoded_entries_view C _ _ _ Hall (ok_keys Hok) (heap w) 0%Z). reflexivity.
  - rewrite decoded_entries_idx, (Forall2_length _ _ _ Hall). apply map_ext.
    intros i. lia.
Qed.

(** C5.  [decrypt] on a [PreKeyMessage].  A fingerprint other than the one of
    [remote_identity] fails with [RemoteIdentityChanged] (CASE_204) and
    nothing else happens.  Otherwise the message is first decrypted through
    the state the table has under its tag: the clone of that state decrypts,
    and a plaintext is returned with the clone inserted.  The first attempt
    fails with [InvalidMessage] (CASE_205) when the table has no such state,
    with the error of the clone or of its decryption otherwise; the session
    is then as it was, and only an [InvalidSignature] or an
    [InvalidMessage] starts the recovery, any other error being thrown again
    as it is.  The recovery, spelled out as [recovery] below from the world
    [w1] the first attempt has left: the prekey is loaded, and its absence
    is a [ProteusError] (CASE_101); a new state is derived from it by
    [SessionState.init_as_bob], a new object; that state decrypts the
    message; unless its id is [MAX_PREKEY_ID] the prekey is loaded again,
    zeroized and deleted; the state is inserted under the tag of the
    message, which becomes the current one; [pending_prekey] is cleared and
    the plaintext of the new state returned.  An error at any of these
    steps is thrown as it is, with the session as it was. *)
Theorem decrypt_prekey_message_policy envelope
    (msg : PreKeyMessageOf (PublicKey C) (IdentityKey C) (CipherMessage C)) s w :
  Envelope_message C envelope = IsPreKeyMessage msg ->
  well_formed s w ->
  let m := pkm_message msg in
  let t := CipherMessage_session_tag C m in
  let id := pkm_prekey_id msg in
  let recoverable (error : Error) :=
    instanceof_InvalidSignature error || instanceof_InvalidMessage error in
  let recovery (w1 : World C) : Prop :=
    let loaded := PreKeyStore_load_prekey C (store w1) id in
    let wl := mkWorld (heap w1) (fst loaded) (trace w1 ++ [Ev_load_prekey id]) in
    match snd loaded with
    | None =>
        decrypt envelope (s, w) = ((s, wl), inl (mkError ProteusError CASE_101))
    | Some pre_key =>
        match SessionState_init_as_bob C (local_identity s)
                (PreKey_key_pair C pre_key) (pkm_identity_key msg)
                (pkm_base_key msg) with
        | inl error => decrypt envelope (s, w) = ((s, wl), inl error)
        | inr v =>
            let wd :=
              set_heap (heap w1 ++ [fst (SessionState_decrypt C v envelope m)]) wl in
            match snd (SessionState_decrypt C v envelope m) with
            | inl error => decrypt envelope (s, w) = ((s, wd), inl error)
            | inr plaintext =>
                let again := PreKeyStore_load_prekey C (store wd) id in
                let deleted := PreKeyStore_delete_prekey C (fst again) id in
                let wc :=
                  if (id =? MAX_PREKEY_ID)%Z then wd
                  else mkWorld (heap wd) (fst deleted)
                         (trace wd ++ [Ev_load_prekey id;
                                       Ev_zeroize_prekey (snd again);
                                       Ev_delete_prekey id]) in
                match (if (id =? MAX_PREKEY_ID)%Z then inr tt else snd deleted) with
                | inl error => decrypt envelope (s, w) = ((s, wc), inl error)
                | inr _ =>
                    exists s1 w',
                      _insert_session_state t (length (heap w1)) (s, wc) =
                        ((s1, w'), inr tt) /\
                      decrypt envelope (s, w) =
                        ((set_pending_prekey None s1, w'), inr plaintext) /\
                      session_tag_name s1 = SessionTag_toString C t /\
                      exists e,
                        obj_get (SessionTag_toString C t) (session_states s1) =
                          Some e /\
                        state e = length (heap w1)
                end
            end
        end
    end in
  if negb (String.eqb (IdentityKey_fingerprint C (pkm_identity_key msg))
                      (IdentityKey_fingerprint C (remote_identity s)))
  then
    decrypt envelope (s, w) =
      ((s, w), inl (mkError DecryptError_RemoteIdentityChanged CASE_204))
  else
    match obj_get (SessionTag_toString C t) (session_states s) with
    | None => recovery w
    | Some e =>
        exists v,
          heap w !! state e = Some v /\
          match SessionState_deserialise C (SessionState_serialise C v) with
          | inl error =>
              if recoverable error then recovery w
              else decrypt envelope (s, w) = ((s, w), inl error)
          | inr v1 =>
              let w1 :=
                set_heap (heap w ++ [fst (SessionState_decrypt C v1 envelope m)]) w in
              match snd (SessionState_decrypt C v1 envelope m) with
              | inl error =>
                  if recoverable error then recovery w1
                  else decrypt envelope (s, w) = ((s, w1), inl error)
              | inr plaintext =>
                  exists s' w',
                    _insert_session_state t (length (heap w))
                      (set_pending_prekey None s, w1) = ((s', w'), inr tt) /\
                    decrypt envelope (s, w) = ((s', w'), inr plaintext) /\
                    pending_prekey s' = None /\
                    session_tag_name s' = SessionTag_toString C t /\
                    exists e',
                      obj_get (SessionTag_toString C t) (session_states s') =
                        Some e' /\
                      state e' = length (heap w)
              end
          end
    end.
Proof.
  intros Hmsg Hwf m t id recoverable recovery.
  (* the recovery, from any world that extends the heap *)
  assert (Hrec : forall w1,
            length (heap w) <= length (heap w1) ->
            decrypt envelope (s, w) = recover_with_new_state envelope msg (s, w1) ->
            recovery w1).
  { intros w1 Hlen Hdec. unfold recovery. cbv zeta. rewrite Hdec.
    unfold set_heap. cbn [heap store trace].
    assert (Hwf1 : well_formed s w1)
      by (apply well_formed_heap_grow with (w := w); assumption).
    destruct (snd (PreKeyStore_load_prekey C (store w1) id)) as [pre_key|] eqn:Eload.
    2:{ unfold recover_with_new_state, _new_state, load_prekey. monad_simpl.
        fold id. rewrite Eload. reflexivity. }
    destruct (SessionState_init_as_bob C (local_identity s)
                (PreKey_key_pair C pre_key) (pkm_identity_key msg)
                (pkm_base_key msg)) as [error|v] eqn:Ebob.
    { unfold recover_with_new_state, _new_state, load_prekey, init_as_bob.
      monad_simpl. fold id. rewrite Eload. simpl. rewrite Ebob. reflexivity. }
    destruct (snd (SessionState_decrypt C v envelope m)) as [error|plaintext]
      eqn:Edec.
    { unfold recover_with_new_state. unfold bind at 1.
      rewrite (new_state_success C msg s w1 pre_key v Eload Ebob).
      set (wn := mkWorld (heap w1 ++ [v]) _ _).
      assert (Hv : heap wn !! length (heap w1) = Some v).
      { unfold wn. simpl. rewrite lookup_app_r by lia. now rewrite Nat.sub_diag. }
      unfold bind at 1. rewrite (state_decrypt_run C _ _ _ _ _ _ Hv).
      fold m. rewrite Edec. unfold wn, set_heap. simpl.
      rewrite insert_app_r_alt by lia. rewrite Nat.sub_diag. reflexivity. }
    rewrite (recover_prefix C envelope msg s w1 pre_key v plaintext Eload Ebob Edec).
    fold id m t. cbn [heap store trace].
    match goal with
    | |- context [mkWorld (heap w1 ++ [?x]) ?st ?tr] =>
        set (wd := mkWorld (heap w1 ++ [x]) st tr)
    end.
    assert (Hlend : length (heap wd) = S (length (heap w1)))
      by (unfold wd; simpl; rewrite length_app; simpl; lia).
    assert (Hinsert : forall wc, heap wc = heap wd ->
      exists s1 w',
        _insert_session_state t (length (heap w1)) (s, wc) = ((s1, w'), inr tt) /\
        session_tag_name s1 = SessionTag_toString C t /\
        exists e,
          obj_get (SessionTag_toString C t) (session_states s1) = Some e /\
          state e = length (heap w1)).
    { intros wc Hheap.
      assert (Hwfc : well_formed s wc)
        by (apply well_formed_heap_grow with (w := w1);
            [exact Hwf1 | rewrite Hheap; lia]).
      assert (Hst : length (heap w1) < length (heap wc)) by (rewrite Hheap; lia).
      destruct (insert_run C t (length (heap w1)) s wc Hwfc Hst)
        as (s1 & w' & Hrun & _).
      destruct (insert_current_entry C t _ s wc s1 w' _ Hwfc Hst Hrun)
        as (_ & Hname & He).
      exists s1, w'. auto. }
    destruct (id =? MAX_PREKEY_ID)%Z; cbn [negb].
    - destruct (Hinsert wd eq_refl) as (s1 & w' & Hrun & Hname & He).
      exists s1, w'. split; [exact Hrun|]. split; [|split; assumption].
      unfold bind at 1. unfold ret at 1.
      unfold bind at 1. rewrite Hrun. reflexivity.
    - destruct (snd (PreKeyStore_delete_prekey C
                       (fst (PreKeyStore_load_prekey C
                               (fst (PreKeyStore_load_prekey C (store w1) id)) id))
                       id))
        as [error|[]] eqn:Edel.
      + unfold bind at 1. rewrite consume_prekey_run.
        unfold wd. cbn [heap store trace]. rewrite Edel. reflexivity.
      + match goal with
        | |- context [_insert_session_state t _ (s, ?x)] => set (wc := x)
        end.
        destruct (Hinsert wc eq_refl) as (s1 & w' & Hrun & Hname & He).
        exists s1, w'. split; [exact Hrun|]. split; [|split; assumption].
        unfold bind at 1. rewrite consume_prekey_run.
        unfold wd. cbn [heap store trace]. rewrite Edel.
        unfold bind at 1. unfold wc in Hrun. rewrite Hrun. reflexivity. }
  pose proof (decrypt_prekey_message_unfold C envelope msg s w Hmsg) as Hdec.
  revert Hdec. destruct (negb _); [intros Hdec; exact Hdec|].
  pose proof (decrypt_cipher_message_outcome C envelope m s w Hwf) as Hfirst.
  fold t in Hfirst. fold m. revert Hfirst.
  destruct (obj_get (SessionTag_toString C t) (session_states s)) as [e|].
  - intros (v & Hv & Hfirst) Hdec. exists v. split; [exact Hv|].
    revert Hfirst.
    destruct (SessionState_deserialise C (SessionState_serialise C v)) as [error|v1].
    + intros Hfirst. rewrite Hfirst in Hdec. unfold recoverable. revert Hdec.
      destruct (instanceof_InvalidSignature error || instanceof_InvalidMessage error);
        intros Hdec; [|exact Hdec].
      apply Hrec; [lia | exact Hdec].
    + cbv zeta.
      destruct (snd (SessionState_decrypt C v1 envelope m)) as [error|plaintext].
      * intros Hfirst. rewrite Hfirst in Hdec. unfold recoverable. revert Hdec.
        destruct (instanceof_InvalidSignature error || instanceof_InvalidMessage error);
          intros Hdec; [|exact Hdec].
        apply Hrec; [simpl; rewrite length_app; lia | exact Hdec].
      * intros (s' & w' & Hins & Hrun). rewrite Hrun in Hdec.
        exists s', w'. split; [exact Hins|]. split; [exact Hdec|].
        assert (Hwf2 : well_formed (set_pending_prekey None s)
                  (set_heap (heap w ++ [fst (SessionState_decrypt C v1 envelope m)]) w)).
        { apply well_formed_heap_grow with (w := w); [exact Hwf|].
          simpl. rewrite length_app. lia. }
        assert (Hst : length (heap w) <
                      length (heap (set_heap
                        (heap w ++ [fst (SessionState_decrypt C v1 envelope m)]) w))).
        { simpl. rewrite length_app. simpl. lia. }
        destruct (insert_current_entry C t _ _ _ s' w' _ Hwf2 Hst Hins)
          as (_ & Hname & He).
        destruct (insert_run C t (length (heap w)) _ _ Hwf2 Hst)
          as (s2 & w2 & Hrun2 & _ & _ & _ & _ & Hp & _).
        rewrite Hins in Hrun2. injection Hrun2 as <- <-.
        split; [exact Hp|]. split; assumption.
  - intros Hfirst Hdec. rewrite Hfirst in Hdec. apply Hrec; [lia | exact Hdec].
Qed.

(** The first insertion into a new session. *)
Lemma insert_into_new_session local remote (t : SessionTag C) pending version
    (st : ref) w :
  _insert_session_state t st (new_Session local remote t pending [] version, w) =
  ((mkSession local remote version 1 pending
      [(SessionTag_toString C t, mkEntry 0 st t)] t (SessionTag_toString C t), w),
   inr tt).
Proof.
  rewrite insert_session_state_run. unfold after_insert. simpl.
  rewrite String.eqb_refl. reflexivity.
Qed.

(** C6.  The consumption of the prekey, for a [PreKeyMessage] whose prekey id
    is an unsigned 16 bit number, once the new state has decrypted the
    message.  In [init_from_message] and in the recovery of
    [_decrypt_prekey_message] alike: when the id is not [MAX_PREKEY_ID] the
    store is asked to load the prekey, the prekey is zeroized, and the store
    is asked to delete it, in that order and whether or not the deletion
    fails; when the id is [MAX_PREKEY_ID] the store sees no call after the
    load that derived the state.  A failed deletion makes
    [init_from_message] throw [PrekeyNotFound] (CASE_203), and makes the
    recovery throw the error of the store itself. *)
Theorem prekey_consumption_on_both_paths envelope
    (msg : PreKeyMessageOf (PublicKey C) (IdentityKey C) (CipherMessage C)) :
  Envelope_message C envelope = IsPreKeyMessage msg ->
  is_u16 (pkm_prekey_id msg) ->
  let id := pkm_prekey_id msg in
  forall (store0 : PreKeyStore C) (local : IdentityKeyPair C) pre_key v plaintext,
  snd (PreKeyStore_load_prekey C store0 id) = Some pre_key ->
  SessionState_init_as_bob C local (PreKey_key_pair C pre_key)
    (pkm_identity_key msg) (pkm_base_key msg) = inr v ->
  snd (SessionState_decrypt C v envelope (pkm_message msg)) = inr plaintext ->
  let store1 := fst (PreKeyStore_load_prekey C store0 id) in
  let loaded := PreKeyStore_load_prekey C store1 id in
  let deleted := PreKeyStore_delete_prekey C (fst loaded) id in
  let consumption :=
    [Ev_load_prekey id; Ev_zeroize_prekey (snd loaded); Ev_delete_prekey id] in
  (* init_from_message *)
  (forall w, store w = store0 ->
   exists s' w',
     if (id =? MAX_PREKEY_ID)%Z
     then
       init_from_message local envelope w = (w', inr (s', plaintext)) /\
       trace w' = trace w ++ [Ev_load_prekey id] /\
       store w' = store1
     else
       init_from_message local envelope w =
         (w', match snd deleted with
              | inl _ => inl (mkError DecryptError_PrekeyNotFound CASE_203)
              | inr _ => inr (s', plaintext)
              end) /\
       trace w' = trace w ++ Ev_load_prekey id :: consumption /\
       store w' = fst deleted) /\
  (* the recovery of _decrypt_prekey_message *)
  (forall s w e, store w = store0 -> local_identity s = local ->
   well_formed s w ->
   snd (_decrypt_cipher_message envelope (pkm_message msg) (s, w)) = inl e ->
   instanceof_InvalidSignature e || instanceof_InvalidMessage e = true ->
   exists s' w',
     if (id =? MAX_PREKEY_ID)%Z
     then
       _decrypt_prekey_message envelope msg (s, w) = ((s', w'), inr plaintext) /\
       prekey_events (trace w') = prekey_events (trace w) ++ [Ev_load_prekey id] /\
       store w' = store1
     else
       _decrypt_prekey_message envelope msg (s, w) =
         ((s', w'), match snd deleted with
                    | inl e' => inl e'
                    | inr _ => inr plaintext
                    end) /\
       prekey_events (trace w') =
         prekey_events (trace w) ++ Ev_load_prekey id :: consumption /\
       store w' = fst deleted).
Proof.
  intros Hmsg Hid id store0 local pre_key v plaintext Hload Hbob Hdec
         store1 loaded deleted consumption.
  split.
  - intros w Hstore. subst store0.
    assert (Hprefix : forall A (k : Plaintext C -> M (Session C * World C) A),
      (state <- _new_state msg ;;
       plain <- on_snd (state_decrypt state envelope (pkm_message msg)) ;;
       _insert_session_state
         (CipherMessage_session_tag C (pkm_message msg)) state ;;
       k plain)
        (new_Session local (pkm_identity_key msg)
           (CipherMessage_session_tag C (pkm_message msg)) None [] 1, w) =
      k plaintext (mkSession local (pkm_identity_key msg) 1 1 None
           [(SessionTag_toString C (CipherMessage_session_tag C (pkm_message msg)),
             mkEntry 0 (length (heap w))
               (CipherMessage_session_tag C (pkm_message msg)))]
           (CipherMessage_session_tag C (pkm_message msg))
           (SessionTag_toString C (CipherMessage_session_tag C (pkm_message msg))),
         mkWorld
           (heap w ++ [fst (SessionState_decrypt C v envelope (pkm_message msg))])
           store1 (trace w ++ [Ev_load_prekey id]))).
    { intros A k.
      unfold bind at 1.
      rewrite (new_state_success C msg
                 (new_Session local (pkm_identity_key msg)
                    (CipherMessage_session_tag C (pkm_message msg)) None [] 1)
                 w pre_key v Hload Hbob).
      unfold bind at 1.
      erewrite state_decrypt_run
        by (simpl; rewrite lookup_app_r by lia; now rewrite Nat.sub_diag).
      rewrite Hdec.
      unfold bind at 1. rewrite insert_into_new_session.
      unfold set_heap. simpl. rewrite insert_app_r_alt by lia.
      rewrite Nat.sub_diag. reflexivity. }
    unfold init_from_message. rewrite Hmsg. unfold with_session.
    fold id.
    destruct (Z.eqb_spec id MAX_PREKEY_ID) as [Heq|Hne].
    + replace (id <? MAX_PREKEY_ID)%Z with false by (symmetry; apply Z.ltb_ge; lia).
      eexists _, _.
      rewrite (Hprefix _ (fun plain => ret tt ;; ret plain)).
      monad_simpl. split; [reflexivity|]. simpl. split; reflexivity.
    + replace (id <? MAX_PREKEY_ID)%Z with true
        by (symmetry; apply Z.ltb_lt; unfold is_u16, MAX_PREKEY_ID in *; lia).
      eexists _, _.
      erewrite (Hprefix _ (fun plain => _ ;; ret plain)).
      unfold load_prekey, zeroize_prekey, delete_prekey. monad_simpl.
      change (PreKeyStore_delete_prekey C
                (fst (PreKeyStore_load_prekey C store1 id)) id) with deleted.
      destruct (snd deleted) as [e|[]]; simpl;
        (split; [reflexivity|]; simpl; rewrite <- !app_assoc; split; reflexivity).
  - intros s w e Hstore Hlocal Hwf Hfirst Hrec. subst store0 local.
    destruct (decrypt_cipher_message_run C envelope (pkm_message msg) s w Hwf)
      as (s1 & w1 & r1 & Hrun1 & Hst1 & Htr1 & Hlen1 & Hr1).
    rewrite Hrun1 in Hfirst. simpl in Hfirst. subst r1.
    destruct Hr1 as (-> & _ & _).
    assert (Hwf1 : well_formed s w1) by (eapply well_formed_heap_grow; eauto).
    assert (Hrun : _decrypt_prekey_message envelope msg (s, w) =
                   recover_with_new_state envelope msg (s, w1)).
    { unfold _decrypt_prekey_message, try_catch. unfold bind at 1.
      rewrite Hrun1, Hrec. reflexivity. }
    rewrite <- Hst1 in Hload.
    destruct (recover_after_decryption C envelope msg s w1 pre_key v plaintext
                Hwf1 Hload Hbob Hdec) as (s' & w' & Hrecover).
    rewrite Hst1, Htr1, <- Hrun in Hrecover.
    exists s', w'. change (pkm_prekey_id msg) with id in Hrecover.
    destruct (id =? MAX_PREKEY_ID)%Z.
    + exact Hrecover.
    + destruct Hrecover as (H1 & H2 & H3 & _).
      split; [exact H1|]. split; [exact H2 | exact H3].
Qed.

(** C10.  In the recovery of [_decrypt_prekey_message], when the new state
    has decrypted the message and [delete_prekey] then throws, the error of
    the store is what the caller gets.  The session object is untouched, the
    new state is not in the table and [pending_prekey] is not cleared, the
    objects it refers to hold what they held and it serialises to the same
    bytes; the store has been asked to load the prekey, the prekey has been
    zeroized, and the store has been asked to delete it. *)
Theorem recovery_delete_failure_leaves_session_unchanged envelope
    (msg : PreKeyMessageOf (PublicKey C) (IdentityKey C) (CipherMessage C))
    s w e pre_key v plaintext e' :
  well_formed s w ->
  snd (_decrypt_cipher_message envelope (pkm_message msg) (s, w)) = inl e ->
  instanceof_InvalidSignature e || instanceof_InvalidMessage e = true ->
  let id := pkm_prekey_id msg in
  snd (PreKeyStore_load_prekey C (store w) id) = Some pre_key ->
  SessionState_init_as_bob C (local_identity s) (PreKey_key_pair C pre_key)
    (pkm_identity_key msg) (pkm_base_key msg) = inr v ->
  snd (SessionState_decrypt C v envelope (pkm_message msg)) = inr plaintext ->
  id <> MAX_PREKEY_ID ->
  let store1 := fst (PreKeyStore_load_prekey C (store w) id) in
  let loaded := PreKeyStore_load_prekey C store1 id in
  let deleted := PreKeyStore_delete_prekey C (fst loaded) id in
  snd deleted = inl e' ->
  exists w',
    _decrypt_prekey_message envelope msg (s, w) = ((s, w'), inl e') /\
    same_objects s w w' /\
    snd (serialise s w') = snd (serialise s w) /\
    trace w' =
      trace w ++ [Ev_load_prekey id; Ev_load_prekey id;
                  Ev_zeroize_prekey (snd loaded); Ev_delete_prekey id] /\
    store w' = fst deleted.
Proof.
  intros Hwf Hfirst Hrec id Hload Hbob Hdec Hid store1 loaded deleted Hdel.
  destruct (decrypt_cipher_message_run C envelope (pkm_message msg) s w Hwf)
    as (s1 & w1 & r1 & Hrun1 & Hst1 & _ & Hlen1 & Hr1).
  rewrite Hrun1 in Hfirst. simpl in Hfirst. subst r1.
  destruct Hr1 as (-> & Htr1 & extra & Hheap1).
  assert (Hwf1 : well_formed s w1) by (eapply well_formed_heap_grow; eauto).
  assert (Hrun : _decrypt_prekey_message envelope msg (s, w) =
                 recover_with_new_state envelope msg (s, w1)).
  { unfold _decrypt_prekey_message, try_catch. unfold bind at 1.
    rewrite Hrun1, Hrec. reflexivity. }
  rewrite <- Hst1 in Hload.
  destruct (recover_after_decryption C envelope msg s w1 pre_key v plaintext
              Hwf1 Hload Hbob Hdec) as (s' & w' & Hrecover).
  fold id in Hrecover. rewrite Hst1 in Hrecover.
  fold store1 loaded deleted in Hrecover.
  destruct (Z.eqb_spec id MAX_PREKEY_ID) as [|_]; [contradiction|].
  destruct Hrecover as (Hrun' & _ & Hstore & Hfail).
  destruct (Hfail e' Hdel) as (-> & Hheap' & Htr').
  rewrite Hdel in Hrun'.
  assert (Hsame : same_objects s w w').
  { apply same_objects_app with (extra := extra ++
      [fst (SessionState_decrypt C v envelope (pkm_message msg))]);
      [exact Hwf | now rewrite Hheap', Hheap1, app_assoc]. }
  exists w'. split; [now rewrite Hrun|]. split; [exact Hsame|].
  split; [now apply serialise_same_objects|].
  split; [now rewrite Htr', Htr1 | exact Hstore].
Qed.

End Claims.

(** * The claims on the small instance *)

Lemma toy_codec_laws : CodecLaws Toy.C.
Proof. constructor; intros; reflexivity. Defined.

Lemma toy_distinct_sound (l : list string) : Toy.distinct l = true -> List.NoDup l.
Proof.
  induction l as [|x l IH]; simpl; intros H; constructor.
  - apply andb_prop in H. destruct H as [H _].
    intros Hin. apply negb_true_iff in H.
    assert (Hex : existsb (String.eqb x) l = true)
      by (apply existsb_exists; exists x; split; [exact Hin | apply String.eqb_refl]).
    congruence.
  - apply andb_prop in H. apply IH, H.
Defined.

Lemma toy_well_formedb_sound (s : Session Toy.C) (w : World Toy.C) :
  Toy.well_formedb s w = true -> well_formed s w.
Proof.
  unfold Toy.well_formedb. intros H. apply andb_prop in H. destruct H as [H1 H2].
  split.
  - apply toy_distinct_sound, H1.
  - apply List.Forall_forall. intros ke Hin.
    rewrite forallb_forall in H2. apply Nat.ltb_lt, H2, Hin.
Defined.

Lemma toy_bob_reachable : reachable Toy.bob Toy.bob_world.
Proof.
  apply (@reach_init_from_message Toy.C "B"%string Toy.hello Toy.w0
           Toy.bob_world Toy.bob "hello"%string).
  reflexivity.
Defined.

(** C1, on the forged message: Bob's session is left as it was. *)
Lemma decrypt_failure_witness :
  well_formed Toy.bob Toy.bob_world /\
  Toy.bob = Toy.bob /\
  same_objects Toy.bob Toy.bob_world
    (mkWorld (C := Toy.C) [(42%Z, 1); (42%Z, 2)] (store Toy.bob_world)
       (trace Toy.bob_world)) /\
  snd (serialise Toy.bob
         (mkWorld (C := Toy.C) [(42%Z, 1); (42%Z, 2)] (store Toy.bob_world)
            (trace Toy.bob_world))) =
  snd (serialise Toy.bob Toy.bob_world).
Proof.
  assert (Hwf : well_formed Toy.bob Toy.bob_world)
    by (apply toy_well_formedb_sound; reflexivity).
  split; [exact Hwf|].
  apply (decrypt_failure_leaves_session_unchanged Toy.C Toy.forged
           Toy.bob Toy.bob_world Toy.bob
           (mkWorld (C := Toy.C) [(42%Z, 1); (42%Z, 2)] (store Toy.bob_world)
              (trace Toy.bob_world))
           (mkError DecryptError_InvalidSignature None) Hwf).
  reflexivity.
Defined.

(** C8, on Alice's session, whose pending prekey is Bob's prekey 7: Bob's
    answer, decrypted by the state of [t1], clears it; so does the prekey
    message by which Bob starts over, decrypted in the recovery. *)
Lemma decrypt_success_witness :
  well_formed Toy.alice Toy.alice_world /\
  pending_prekey Toy.alice = Some (Some 7%Z, Some 42%Z) /\
  (exists s' w',
     decrypt Toy.reply (Toy.alice, Toy.alice_world) =
       ((s', w'), inr "reply"%string) /\
     pending_prekey s' = None) /\
  (exists s' w',
     decrypt Toy.restart (Toy.alice, Toy.alice_world) =
       ((s', w'), inr "restart"%string) /\
     pending_prekey s' = None).
Proof.
  assert (Hwf : well_formed Toy.alice Toy.alice_world)
    by (apply toy_well_formedb_sound; reflexivity).
  split; [exact Hwf|]. split; [reflexivity|]. split.
  - destruct (decrypt_success_clears_pending_prekey Toy.C Toy.reply
                Toy.alice Toy.alice_world Hwf) as (_ & Hcipher & _).
    exact (Hcipher (Toy.mkCM "t1" 42 "reply") (mkEntry (C := Toy.C) 0 0 "t1"%string)
             (42%Z, 0) (42%Z, 0) "reply"%string
             eq_refl eq_refl eq_refl eq_refl eq_refl).
  - destruct (decrypt_success_clears_pending_prekey Toy.C Toy.restart
                Toy.alice Toy.alice_world Hwf) as (_ & _ & Hrecover).
    exact (Hrecover Toy.restart_message 1%Z (99%Z, 0) "restart"%string
             eq_refl eq_refl eq_refl eq_refl eq_refl eq_refl (or_introl eq_refl)).
Defined.

(** C7, on the crowded table: the entry of index 0 goes. *)
Lemma evict_witness :
  well_formed Toy.crowded Toy.crowded_world /\
  eviction_candidates (session_tag_name Toy.crowded) (session_states Toy.crowded) <> [] /\
  exists oldest e v,
    obj_get oldest (session_states Toy.crowded) = Some e /\
    oldest <> session_tag_name Toy.crowded /\
    _evict_oldest_session_state (Toy.crowded, Toy.crowded_world) =
      ((set_session_states (obj_delete oldest (session_states Toy.crowded)) Toy.crowded,
        zeroized e v Toy.crowded_world), inr tt).
Proof.
  assert (Hwf : well_formed Toy.crowded Toy.crowded_world)
    by (apply toy_well_formedb_sound; vm_compute; reflexivity).
  assert (Hne : eviction_candidates (session_tag_name Toy.crowded)
                  (session_states Toy.crowded) <> [])
    by (vm_compute; discriminate).
  split; [exact Hwf|]. split; [exact Hne|].
  destruct (evict_removes_oldest_non_current Toy.C Toy.crowded Toy.crowded_world
              Hwf Hne) as (oldest & e & v & He & Hcur & _ & _ & Hrun & _).
  exists oldest, e, v. split; [exact He|]. split; [exact Hcur | exact Hrun].
Defined.

(** C9, on the crowded table: the hundredth entry triggers the eviction,
    which returns. *)
Lemma insert_eviction_witness :
  well_formed Toy.crowded Toy.crowded_world /\
  99 < length (heap Toy.crowded_world) /\
  exists s' w',
    _evict_oldest_session_state
      (fst (fst (insert_and_promote (C := Toy.C) "new"%string 99
                   (Toy.crowded, Toy.crowded_world))), Toy.crowded_world) =
      ((s', w'), inr tt) /\
    _insert_session_state (C := Toy.C) "new"%string 99
      (Toy.crowded, Toy.crowded_world) = ((s', w'), inr tt) /\
    obj_size (session_states s') = 99%Z.
Proof.
  assert (Hwf : well_formed Toy.crowded Toy.crowded_world)
    by (apply toy_well_formedb_sound; vm_compute; reflexivity).
  assert (Hst : 99 < length (heap Toy.crowded_world))
    by (apply Nat.ltb_lt; vm_compute; reflexivity).
  split; [exact Hwf|]. split; [exact Hst|].
  destruct (proj2 (insert_eviction_has_candidates Toy.C "new"%string 99
                     Toy.crowded Toy.crowded_world Hwf Hst))
    as (_ & _ & s' & w' & Hev & Hrun & Hsize).
  - apply Z.leb_le. vm_compute. reflexivity.
  - exists s', w'. split; [exact Hev|]. split; [exact Hrun|].
    rewrite Hsize. vm_compute. reflexivity.
Defined.

(** C2, on Bob's session. *)
Lemma session_states_at_most_MAX_witness :
  CodecLaws Toy.C /\
  reachable Toy.bob Toy.bob_world /\
  (obj_size (session_states Toy.bob) <= MAX_SESSION_STATES)%Z.
Proof.
  split; [exact toy_codec_laws|]. split; [exact toy_bob_reachable|].
  exact (proj1 (session_states_at_most_MAX Toy.C Toy.bob Toy.bob_world
                  toy_codec_laws toy_bob_reachable)).
Defined.

(** C3, on Bob's session. *)
Lemma round_trip_witness :
  CodecLaws Toy.C /\
  reachable Toy.bob Toy.bob_world /\
  exists buf s' w',
    serialise Toy.bob Toy.bob_world = (Toy.bob_world, inr buf) /\
    deserialise (C := Toy.C) "B"%string buf "random"%string Toy.bob_world =
      (w', inr s') /\
    pending_prekey s' = pending_prekey Toy.bob /\
    map (entry_view w') (session_states s') =
      map (entry_view Toy.bob_world) (session_states Toy.bob).
Proof.
  split; [exact toy_codec_laws|]. split; [exact toy_bob_reachable|].
  destruct (serialise_deserialise_round_trip Toy.C Toy.bob Toy.bob_world
              "random"%string toy_codec_laws toy_bob_reachable)
    as (buf & s' & w' & Hser & Hdes & _ & _ & _ & _ & _ & Hp & Hview & _).
  exists buf, s', w'. repeat split; assumption.
Defined.

(** C5, on the prekey message by which Alice starts over under the tag
    [t2], from Bob's last-resort prekey: Bob has no state under [t2], the
    first attempt fails with [InvalidMessage] (CASE_205), and the recovery
    loads the prekey, derives the state, which decrypts at address 1, and
    inserts it under [t2], now the current tag. *)
Lemma decrypt_prekey_message_witness :
  well_formed Toy.bob Toy.bob_world /\
  decrypt (Toy.fresh 65535) (Toy.bob, Toy.bob_world) =
    ((mkSession (C := Toy.C) "B"%string "A"%string 1 2 None
        [("t1"%string, mkEntry (C := Toy.C) 0 0 "t1"%string);
         ("t2"%string, mkEntry (C := Toy.C) 1 1 "t2"%string)]
        "t2"%string "t2"%string,
      mkWorld (C := Toy.C) [(42%Z, 1); (99%Z, 1)] (store Toy.bob_world)
        (trace Toy.bob_world ++ [Ev_load_prekey 65535])),
     inr "fresh"%string).
Proof.
  assert (Hwf : well_formed Toy.bob Toy.bob_world)
    by (apply toy_well_formedb_sound; reflexivity).
  split; [exact Hwf|].
  destruct (decrypt_prekey_message_policy Toy.C (Toy.fresh 65535)
              (Toy.fresh_message 65535) Toy.bob Toy.bob_world eq_refl Hwf)
    as (s1 & w' & Hins & Hrun & _).
  rewrite Hrun. injection Hins as <- <-. reflexivity.
Defined.

(** C6, on the prekey message made from prekey 7 when the store refuses to
    delete: [init_from_message] throws CASE_203, the recovery throws the
    error of the store, and both have loaded, zeroized and asked to delete. *)
Lemma prekey_consumption_witness :
  is_u16 7 /\
  (exists w',
     init_from_message (C := Toy.C) "B"%string (Toy.fresh 7)
       (mkWorld (C := Toy.C) [] (store Toy.stubborn_world) []) =
       (w', inl (mkError DecryptError_PrekeyNotFound CASE_203)) /\
     trace w' =
       [Ev_load_prekey 7; Ev_load_prekey 7;
        Ev_zeroize_prekey (C := Toy.C) (Some 70%Z); Ev_delete_prekey 7]) /\
  (exists s' w',
     _decrypt_prekey_message (Toy.fresh 7) (Toy.fresh_message 7)
       (Toy.bob, Toy.stubborn_world) = ((s', w'), inl (mkError OtherError None)) /\
     prekey_events (trace w') =
       [Ev_load_prekey 7; Ev_load_prekey 7;
        Ev_zeroize_prekey (C := Toy.C) (Some 70%Z); Ev_delete_prekey 7]).
Proof.
  assert (Hid : is_u16 7) by (unfold is_u16; lia).
  assert (Hwf : well_formed Toy.bob Toy.stubborn_world)
    by (apply toy_well_formedb_sound; reflexivity).
  split; [exact Hid|].
  destruct (prekey_consumption_on_both_paths Toy.C (Toy.fresh 7) (Toy.fresh_message 7)
              eq_refl Hid (store Toy.stubborn_world) "B"%string 70%Z (99%Z, 0)
              "fresh"%string eq_refl eq_refl eq_refl) as [Hinit Hrecover].
  split.
  - destruct (Hinit (mkWorld (C := Toy.C) [] (store Toy.stubborn_world) []) eq_refl)
      as (s' & w' & Hrun & Htrace & _).
    exists w'. split; [exact Hrun | exact Htrace].
  - destruct (Hrecover Toy.bob Toy.stubborn_world
                (mkError DecryptError_InvalidMessage CASE_205)
                eq_refl eq_refl Hwf eq_refl eq_refl)
      as (s' & w' & Hrun & Htrace & _).
    exists s', w'. split; [exact Hrun | exact Htrace].
Defined.

(** C10, on the same message: Bob's session is left as it was. *)
Lemma recovery_delete_failure_witness :
  well_formed Toy.bob Toy.stubborn_world /\
  exists w',
    _decrypt_prekey_message (Toy.fresh 7) (Toy.fresh_message 7)
      (Toy.bob, Toy.stubborn_world) = ((Toy.bob, w'), inl (mkError OtherError None)) /\
    snd (serialise Toy.bob w') = snd (serialise Toy.bob Toy.stubborn_world) /\
    trace w' =
      [Ev_load_prekey 7; Ev_load_prekey 7;
       Ev_zeroize_prekey (C := Toy.C) (Some 70%Z); Ev_delete_prekey 7].
Proof.
  assert (Hwf : well_formed Toy.bob Toy.stubborn_world)
    by (apply toy_well_formedb_sound; reflexivity).
  split; [exact Hwf|].
  destruct (recovery_delete_failure_leaves_session_unchanged Toy.C
              (Toy.fresh 7) (Toy.fresh_message 7) Toy.bob Toy.stubborn_world
              (mkError DecryptError_InvalidMessage CASE_205) 70%Z (99%Z, 0)
              "fresh"%string (mkError OtherError None)
              Hwf eq_refl eq_refl eq_refl eq_refl eq_refl
              ltac:(discriminate) eq_refl)
    as (w' & Hrun & _ & Hser & Htrace & _).
  exists w'. split; [exact Hrun|]. split; [exact Hser | exact Htrace].
Defined.

(** C4.  The invariant "every [idx] is below [counter]" does not survive
    [Session.deserialise]: [decode] numbers the entries 0, 1, 2, ... and the
    constructor it calls sets [counter] to 0.  Bob's session, stored and
    loaded again, is reachable and has an entry of [idx] 0 under a [counter]
    of 0. *)
Theorem deserialised_session_has_idx_not_below_counter :
  exists (s : Session Toy.C) (w : World Toy.C) (e : Entry Toy.C),
    reachable s w /\
    obj_get "t1"%string (session_states s) = Some e /\
    idx e = 0%Z /\
    counter s = 0%Z /\
    ~ (idx e < counter s)%Z.
Proof.
  exists (mkSession (C := Toy.C) "B"%string "A"%string 1 0 None
            [("t1"%string, mkEntry (C := Toy.C) 0 1 "t1"%string)]
            "t1"%string "t1"%string),
         (mkWorld (C := Toy.C) [(42%Z, 1); (42%Z, 1)] (store Toy.bob_world)
            (trace Toy.bob_world)),
         (mkEntry (C := Toy.C) 0 1 "t1"%string).
  split.
  - apply (@reach_deserialise Toy.C Toy.bob Toy.bob_world
             (match snd (serialise Toy.bob Toy.bob_world) with
              | inr buf => buf
              | inl _ => []
              end)
             Toy.bob_world "random"%string _ _ toy_bob_reachable);
      reflexivity.
  - repeat split; simpl; lia.
Qed.

(** What C4 costs.  The crowded session is stored and loaded again; two new
    states are then inserted under the tags [x] and [y].  Both get an [idx]
    that an older entry already has, and the second insertion evicts the
    state of [x], inserted just before, while the older state named [a]
    stays: the eviction no longer removes the oldest state. *)
Example eviction_after_deserialise_removes_newer_state :
  exists buf s1 w1 s2 w2 s3 w3,
    serialise Toy.crowded Toy.crowded_world = (Toy.crowded_world, inr buf) /\
    deserialise (C := Toy.C) "B"%string buf "random"%string Toy.crowded_world =
      (w1, inr s1) /\
    counter s1 = 0%Z /\
    _insert_session_state (C := Toy.C) "x"%string 0 (s1, w1) = ((s2, w2), inr tt) /\
    _insert_session_state (C := Toy.C) "y"%string 1 (s2, w2) = ((s3, w3), inr tt) /\
    obj_get "x"%string (session_states s3) = None /\
    option_map (fun e => idx e) (obj_get "a"%string (session_states s3)) = Some 1%Z.
Proof.
  do 7 eexists.
  split; [vm_compute; reflexivity|].
  split; [vm_compute; reflexivity|].
  split; [reflexivity|].
  split; [vm_compute; reflexivity|].
  split; [vm_compute; reflexivity|].
  split; vm_compute; reflexivity.
Qed.

(** * More of the session *)

(** ** [encrypt] *)

Section Encrypt.
Context (C : Collab).
Implicit Types (s : Session C) (w : World C).

(** X1.  [encrypt] never changes the session object, the store or the trace,
    whether it returns or throws: the table, the current tag and
    [pending_prekey] are what they were.  The only object it may change is the
    [SessionState] of the current tag; without an entry under the current
    name it throws [ProteusError] (CASE_102) and changes nothing at all. *)
Theorem encrypt_leaves_session_unchanged plaintext s w s' w' r :
  encrypt plaintext (s, w) = ((s', w'), r) ->
  s' = s /\
  store w' = store w /\
  trace w' = trace w /\
  length (heap w') = length (heap w) /\
  match obj_get (session_tag_name s) (session_states s) with
  | Some e => forall r0, r0 <> state e -> heap w' !! r0 = heap w !! r0
  | None => w' = w /\ r = inl (mkError ProteusError CASE_102)
  end.
Proof.
  unfold encrypt. monad_simpl.
  destruct (obj_get (session_tag_name s) (session_states s)) as [e|]; simpl.
  - unfold state_encrypt, read_object, write_object. monad_simpl.
    destruct (heap w !! state e) as [v|]; simpl.
    + destruct (snd (SessionState_encrypt C v _ _ _ _)); simpl;
        intros [= <- <- _]; simpl; rewrite length_insert;
        (repeat split; try reflexivity);
        intros r0 Hr0; apply list_lookup_insert_ne; congruence.
    + intros [= <- <- _]. repeat split; reflexivity.
  - intros [= <- <- <-]. repeat split; reflexivity.
Qed.

End Encrypt.

(** ** [_insert_session_state]: promotion, replacement, overflow *)

Section InsertMore.
Context (C : Collab).
Implicit Types (s : Session C) (w : World C) (t : SessionTag C) (st : ref).

(** X2.  Tag promotion.  When [_insert_session_state] has run, whether or
    not it evicted, it has returned; the current name is the string form of
    the inserted tag and the table holds the inserted state under that name
    (the state just inserted is never the one evicted).  If the session was
    under another name, [session_tag] is the inserted tag; if it was under
    that name already, [session_tag] is the tag object it had: the inserted
    tag object is not taken. *)
Theorem insert_promotes_inserted_tag t st s w s' w' r :
  well_formed s w ->
  st < length (heap w) ->
  _insert_session_state t st (s, w) = ((s', w'), r) ->
  r = inr tt /\
  session_tag_name s' = SessionTag_toString C t /\
  (exists e,
     obj_get (SessionTag_toString C t) (session_states s') = Some e /\ state e = st) /\
  (session_tag_name s <> SessionTag_toString C t -> session_tag s' = t) /\
  (session_tag_name s = SessionTag_toString C t -> session_tag s' = session_tag s).
Proof.
  intros Hwf Hst Hrun.
  destruct (insert_current_entry C t st s w s' w' r Hwf Hst Hrun)
    as (Hr & Hname & He).
  split; [exact Hr|]. split; [exact Hname|]. split; [exact He|].
  destruct (insert_run C t st s w Hwf Hst)
    as (s1 & w1 & Hrun1 & _ & _ & _ & _ & _ & _ & _ & _ & Htag & _).
  rewrite Hrun in Hrun1. injection Hrun1 as <- <- _.
  rewrite Htag. unfold after_insert.
  destruct (obj_get (SessionTag_toString C t) (session_states s));
    [|destruct (_ <=? _)%Z]; simpl;
    destruct (String.eqb_spec (session_tag_name s) (SessionTag_toString C t));
    simpl; split; intros H; first [reflexivity | contradiction].
Qed.

End InsertMore.

Section InsertOrder.
Context (C : Collab).
Implicit Types (s : Session C) (w : World C) (t : SessionTag C) (st : ref).
Implicit Types (states : JsObject (Entry C)).

Lemma idx_list_set_same states k e st (tg : SessionTag C) :
  obj_get k states = Some e ->
  idx_list (obj_set k (mkEntry (idx e) st tg) states) = idx_list states.
Proof.
  induction states as [|[k1 e1] states IH]; simpl; [discriminate|].
  destruct (String.eqb_spec k1 k) as [->|Hne]; simpl.
  - intros [= ->]. reflexivity.
  - intros H. f_equal. apply IH, H.
Qed.

Lemma increasing_app_last (l : list Z) (c : Z) :
  increasing l -> Forall (fun x => (x < c)%Z) l -> increasing (l ++ [c]).
Proof.
  induction l as [|x l IH]; simpl; intros Hinc Hall.
  - split; constructor.
  - destruct Hinc as [Hx Hinc]. inversion Hall; subst. split.
    + apply Forall_app. split; [exact Hx | repeat constructor; assumption].
    + apply IH; assumption.
Qed.

Lemma idx_list_delete_In states k x :
  In x (idx_list (obj_delete k states)) -> In x (idx_list states).
Proof.
  unfold idx_list. rewrite !in_map_iff. intros (ke & <- & Hin).
  exists ke. split; [reflexivity | eapply obj_delete_In; eauto].
Qed.

Lemma increasing_delete states k :
  increasing (idx_list states) -> increasing (idx_list (obj_delete k states)).
Proof.
  induction states as [|[k1 e1] states IH]; simpl; [tauto|].
  intros [Hhead Htail]. destruct (String.eqb k1 k); simpl; [exact Htail|].
  split; [|apply IH, Htail].
  rewrite List.Forall_forall in *. intros x Hx. apply Hhead.
  eapply idx_list_delete_In; eauto.
Qed.

Lemma after_insert_increasing t st s :
  idx_below_counter s ->
  increasing (idx_list (session_states s)) ->
  increasing (idx_list (session_states (after_insert t st s))).
Proof.
  intros Hbelow Hinc. rewrite after_insert_states.
  destruct (obj_get (SessionTag_toString C t) (session_states s)) as [e|] eqn:E;
    [|destruct (_ <=? _)%Z].
  - rewrite idx_list_set_same by exact E. exact Hinc.
  - simpl. split; constructor.
  - apply obj_get_None_keys in E. rewrite obj_set_absent by exact E.
    unfold idx_list. rewrite map_app. simpl.
    apply increasing_app_last; [exact Hinc|].
    unfold idx_below_counter in Hbelow. rewrite List.Forall_forall in *.
    intros x Hx. apply in_map_iff in Hx. destruct Hx as (ke & <- & Hin).
    apply (Hbelow _ Hin).
Qed.

(** X3.  Inserting under a name the table already has replaces the state in
    place, in a table below its bound: the keys and their order, every [idx]
    and [counter] are what they were, the entry keeps its [idx] and its tag
    object and holds the new state, every other entry is untouched, and
    nothing is evicted or zeroized. *)
Theorem insert_existing_replaces_in_place t st s w e :
  obj_get (SessionTag_toString C t) (session_states s) = Some e ->
  (obj_size (session_states s) < MAX_SESSION_STATES)%Z ->
  exists s',
    _insert_session_state t st (s, w) = ((s', w), inr tt) /\
    obj_keys (session_states s') = obj_keys (session_states s) /\
    idx_list (session_states s') = idx_list (session_states s) /\
    counter s' = counter s /\
    obj_get (SessionTag_toString C t) (session_states s') =
      Some (mkEntry (idx e) st (tag e)) /\
    forall k, k <> SessionTag_toString C t ->
      obj_get k (session_states s') = obj_get k (session_states s).
Proof.
  intros He Hsize. exists (after_insert t st s).
  assert (Hstates : session_states (after_insert t st s) =
            obj_set (SessionTag_toString C t) (mkEntry (idx e) st (tag e))
                    (session_states s))
    by (rewrite after_insert_states, He; reflexivity).
  assert (Hkeys : obj_keys (session_states (after_insert t st s)) =
                  obj_keys (session_states s)).
  { rewrite Hstates. apply obj_keys_set_present. eapply obj_get_Some_keys; eauto. }
  split.
  - rewrite insert_session_state_run. unfold obj_size at 1. rewrite Hkeys.
    fold (obj_size (session_states s)).
    destruct (Z.ltb_spec (obj_size (session_states s)) MAX_SESSION_STATES);
      [reflexivity | lia].
  - split; [exact Hkeys|].
    split; [rewrite Hstates; apply idx_list_set_same; exact He|].
    split.
    { unfold after_insert. rewrite He. simpl. destruct (negb _); reflexivity. }
    rewrite Hstates. split.
    + rewrite obj_get_set, String.eqb_refl. reflexivity.
    + intros k Hk. rewrite obj_get_set.
      destruct (String.eqb_spec (SessionTag_toString C t) k); [congruence | reflexivity].
Qed.

(** X4.  The overflow of [counter].  Inserting under a new name when
    [counter] has reached [Number.MAX_SAFE_INTEGER] empties the table first:
    the inserted state is the only entry, with [idx] 0 under a [counter] of 1,
    and the states that were dropped were not handed to [MemoryUtil.zeroize]
    (the world is what it was). *)
Theorem insert_at_counter_overflow_resets t st s w :
  obj_get (SessionTag_toString C t) (session_states s) = None ->
  (MAX_SAFE_INTEGER <= counter s)%Z ->
  exists s',
    _insert_session_state t st (s, w) = ((s', w), inr tt) /\
    session_states s' = [(SessionTag_toString C t, mkEntry 0 st t)] /\
    counter s' = 1%Z /\
    session_tag_name s' = SessionTag_toString C t.
Proof.
  intros Hnone Hmax. exists (after_insert t st s).
  assert (Hstates : session_states (after_insert t st s) =
                    [(SessionTag_toString C t, mkEntry 0 st t)]).
  { rewrite after_insert_states, Hnone.
    destruct (Z.leb_spec MAX_SAFE_INTEGER (counter s)); [reflexivity | lia]. }
  split.
  - rewrite insert_session_state_run, Hstates. reflexivity.
  - split; [exact Hstates|]. split; [|apply after_insert_tag_name].
    unfold after_insert. rewrite Hnone.
    destruct (Z.leb_spec MAX_SAFE_INTEGER (counter s)); [|lia].
    simpl. destruct (negb _); reflexivity.
Qed.

Lemma insert_increasing t st s w s' w' r :
  well_formed s w ->
  st < length (heap w) ->
  idx_below_counter s ->
  increasing (idx_list (session_states s)) ->
  _insert_session_state t st (s, w) = ((s', w'), r) ->
  increasing (idx_list (session_states s')).
Proof.
  intros Hwf Hst Hbelow Hinc Hrun.
  pose proof (after_insert_increasing t st s Hbelow Hinc) as Hinc1.
  pose proof (after_insert_well_formed C t st s w Hwf Hst) as Hwf1.
  rewrite insert_session_state_run in Hrun.
  destruct (Z.ltb_spec (obj_size (session_states (after_insert t st s)))
                       MAX_SESSION_STATES) as [Hlt|Hge].
  - injection Hrun as <- _ _. assumption.
  - assert (Hcand : eviction_candidates (session_tag_name (after_insert t st s))
                      (session_states (after_insert t st s)) <> []).
    { apply candidates_nonempty; [apply Hwf1 | unfold MAX_SESSION_STATES in Hge; lia]. }
    destruct (evict_run C _ _ Hwf1 Hcand) as (oldest & e & v & _ & _ & _ & _ & Hev).
    rewrite Hev in Hrun. injection Hrun as <- _ _. simpl.
    apply increasing_delete; exact Hinc1.
Qed.
(** X5.  The order of insertion.  If every [idx] is below [counter] and the
    entries stand in the order of their [idx], without ties, the same holds
    after [_insert_session_state], with or without eviction; and [counter] has
    not gone down, unless it had reached [Number.MAX_SAFE_INTEGER], in which
    case it is 1. *)
Theorem insert_keeps_idx_order t st s w s' w' r :
  well_formed s w ->
  st < length (heap w) ->
  idx_below_counter s ->
  increasing (idx_list (session_states s)) ->
  _insert_session_state t st (s, w) = ((s', w'), r) ->
  idx_below_counter s' /\
  increasing (idx_list (session_states s')) /\
  ((counter s <= counter s')%Z \/
   ((MAX_SAFE_INTEGER <= counter s)%Z /\ counter s' = 1%Z)).
Proof.
  intros Hwf Hst Hbelow Hinc Hrun.
  split; [eapply insert_keeps_idx_below_counter; eauto|].
  split; [eapply insert_increasing; eauto|].
  destruct (insert_run C t st s w Hwf Hst)
    as (s1 & w1 & Hrun1 & _ & _ & _ & _ & _ & _ & _ & _ & _ & _ & Hc & _).
  rewrite Hrun in Hrun1. injection Hrun1 as <- _ _.
  rewrite Hc. apply after_insert_counter.
Qed.

End InsertOrder.

(** ** [_evict_oldest_session_state]: ties and the order of insertion *)

Section EvictMore.
Context (C : Collab).
Implicit Types (s : Session C) (w : World C).
Implicit Types (states : JsObject (Entry C)).

(** [reduce] keeps the first of the keys it has seen with the smallest
    [idx]: the callback replaces [lowest] only on a strictly smaller one. *)
Lemma reduce_lowest_first states keys : forall lowest el,
  obj_get lowest states = Some el ->
  (forall k, In k keys -> exists e, obj_get k states = Some e) ->
  exists k e,
    reduce_lowest states lowest keys = inr k /\
    obj_get k states = Some e /\
    (idx e <= idx el)%Z /\
    (k = lowest /\ e = el \/
     (idx e < idx el)%Z /\
     exists pre post,
       keys = pre ++ k :: post /\
       forall k' e', In k' pre -> obj_get k' states = Some e' -> (idx e < idx e')%Z).
Proof.
  induction keys as [|obj keys IH]; intros lowest el Hl Hkeys; simpl.
  - exists lowest, el. split; [reflexivity|]. split; [exact Hl|]. split; [lia|].
    left. split; reflexivity.
  - destruct (Hkeys obj (or_introl eq_refl)) as [eo Ho]. rewrite Ho, Hl.
    assert (Hrest : forall k, In k keys -> exists e, obj_get k states = Some e)
      by (intros k Hk; apply Hkeys; now right).
    destruct (Z.ltb_spec (idx eo) (idx el)) as [Hlt|Hge].
    + destruct (IH obj eo Ho Hrest) as (k & e & Hred & Hk & Hle & Hpos).
      exists k, e. split; [exact Hred|]. split; [exact Hk|]. split; [lia|].
      right. split; [lia|].
      destruct Hpos as [[-> ->]|(Hlt' & pre & post & -> & Hpre)].
      * exists [], keys. split; [reflexivity|]. intros k' e' [].
      * exists (obj :: pre), post. split; [reflexivity|].
        intros k' e' [<-|Hin] He'.
        -- rewrite Ho in He'. injection He' as <-. exact Hlt'.
        -- eapply Hpre; eauto.
    + destruct (IH lowest el Hl Hrest) as (k & e & Hred & Hk & Hle & Hpos).
      exists k, e. split; [exact Hred|]. split; [exact Hk|]. split; [exact Hle|].
      destruct Hpos as [Heq|(Hlt' & pre & post & -> & Hpre)]; [left; exact Heq|].
      right. split; [exact Hlt'|].
      exists (obj :: pre), post. split; [reflexivity|].
      intros k' e' [<-|Hin] He'.
      * rewrite Ho in He'. injection He' as <-. lia.
      * eapply Hpre; eauto.
Qed.

(** X6.  Ties.  The key [reduce] picks for eviction is, among the keys other
    than the current name taken in table order, the first of smallest [idx]:
    every candidate before it has a strictly greater [idx], every candidate a
    greater or equal one. *)
Theorem find_oldest_is_first_of_smallest_idx current states oldest :
  find_oldest current states = inr oldest ->
  exists e pre post,
    eviction_candidates current states = pre ++ oldest :: post /\
    obj_get oldest states = Some e /\
    (forall k e', In k pre -> obj_get k states = Some e' -> (idx e < idx e')%Z) /\
    (forall k e', In k (eviction_candidates current states) ->
                  obj_get k states = Some e' -> (idx e <= idx e')%Z).
Proof.
  unfold find_oldest. intros Hfind.
  destruct (eviction_candidates current states) as [|first others] eqn:Ecand;
    [discriminate|].
  assert (Hall : forall k, In k (first :: others) ->
                           exists e, obj_get k states = Some e).
  { intros k Hk. rewrite <- Ecand in Hk.
    apply eviction_candidates_In in Hk. apply obj_keys_get. tauto. }
  destruct (Hall first (or_introl eq_refl)) as [ef Hf].
  assert (Hrest : forall k, In k others -> exists e, obj_get k states = Some e)
    by (intros k Hk; apply Hall; now right).
  destruct (reduce_lowest_first states others first ef Hf Hrest)
    as (k & e & Hred & Hk & Hle & Hpos).
  destruct (reduce_lowest_spec C states others first ef Hf Hrest)
    as (k2 & e2 & Hred2 & Hk2 & _ & Hmin).
  rewrite Hfind in Hred, Hred2. injection Hred as <-. injection Hred2 as <-.
  rewrite Hk in Hk2. injection Hk2 as <-.
  destruct Hpos as [[-> ->]|(Hlt & pre & post & -> & Hpre)].
  - exists ef, [], others. split; [reflexivity|]. split; [exact Hf|].
    split; [intros k' e' []|]. intros k' e' Hin He'. eapply Hmin; eauto.
  - exists e, (first :: pre), post. split; [reflexivity|]. split; [exact Hk|].
    split.
    + intros k' e' [<-|Hin] He'.
      * rewrite Hf in He'. injection He' as <-. exact Hlt.
      * eapply Hpre; eauto.
    + intros k' e' Hin He'. eapply Hmin; eauto.
Qed.

Lemma candidates_in_order current states :
  List.NoDup (obj_keys states) ->
  increasing (idx_list states) ->
  forall first others,
    eviction_candidates current states = first :: others ->
    exists ef,
      obj_get first states = Some ef /\
      forall k, In k others ->
        exists e, obj_get k states = Some e /\ (idx ef < idx e)%Z.
Proof.
  induction states as [|[k e] states IH]; intros Hnd Hinc first others Hcand;
    [discriminate|].
  simpl in Hnd, Hinc. inversion Hnd as [|? ? Hnotin Hnd']; subst.
  destruct Hinc as [Hhead Hinc].
  assert (Hlift : forall k', In k' (obj_keys states) ->
            obj_get k' ((k, e) :: states) = obj_get k' states).
  { intros k' Hk'. simpl.
    destruct (String.eqb_spec k k'); [congruence | reflexivity]. }
  unfold eviction_candidates in Hcand. simpl in Hcand.
  fold (eviction_candidates current states) in Hcand.
  destruct (String.eqb_spec k current) as [->|Hne]; simpl in Hcand.
  - destruct (IH Hnd' Hinc first others Hcand) as (ef & Hf & Hothers).
    assert (Hin : forall k', In k' (first :: others) -> In k' (obj_keys states)).
    { intros k' Hk'. rewrite <- Hcand in Hk'.
      apply eviction_candidates_In in Hk'. tauto. }
    exists ef. split; [rewrite Hlift; [exact Hf | apply Hin; now left]|].
    intros k' Hk'. destruct (Hothers k' Hk') as (e' & He' & Hlt).
    exists e'. split; [rewrite Hlift; [exact He' | apply Hin; now right] | exact Hlt].
  - injection Hcand as <- <-. exists e. split; [simpl; now rewrite String.eqb_refl|].
    intros k' Hk'. apply eviction_candidates_In in Hk'. destruct Hk' as [Hk' _].
    destruct (obj_keys_get k' states Hk') as [e' He'].
    exists e'. split; [rewrite Hlift; assumption|].
    rewrite List.Forall_forall in Hhead. apply Hhead.
    unfold idx_list. apply in_map_iff. exists (k', e').
    split; [reflexivity | now apply obj_get_Some_In].
Qed.

Lemma reduce_lowest_stays states keys lowest el :
  obj_get lowest states = Some el ->
  (forall k, In k keys -> exists e, obj_get k states = Some e /\ (idx el < idx e)%Z) ->
  reduce_lowest states lowest keys = inr lowest.
Proof.
  intros Hl. induction keys as [|obj keys IH]; intros Hkeys; simpl; [reflexivity|].
  destruct (Hkeys obj (or_introl eq_refl)) as (eo & Ho & Hlt). rewrite Ho, Hl.
  destruct (Z.ltb_spec (idx eo) (idx el)); [lia|].
  apply IH. intros k Hk. apply Hkeys. now right.
Qed.

(** X7.  First in, first out.  In a table whose entries stand in the order of
    their [idx], without ties, the eviction removes the first entry of the
    table that is not under the current name: the state inserted first among
    those that may go. *)
Theorem evict_removes_first_inserted s w first others :
  well_formed s w ->
  increasing (idx_list (session_states s)) ->
  eviction_candidates (session_tag_name s) (session_states s) = first :: others ->
  exists e v,
    obj_get first (session_states s) = Some e /\
    heap w !! state e = Some v /\
    _evict_oldest_session_state (s, w) =
      ((set_session_states (obj_delete first (session_states s)) s, zeroized e v w),
       inr tt).
Proof.
  intros Hwf Hinc Hcand.
  destruct (candidates_in_order _ _ (proj1 Hwf) Hinc first others Hcand)
    as (e & He & Hothers).
  destruct (well_formed_ref C s w first e Hwf He) as [v Hv].
  exists e, v. split; [exact He|]. split; [exact Hv|].
  unfold _evict_oldest_session_state, zeroize_entry, read_object, write_object.
  monad_simpl. unfold find_oldest. rewrite Hcand.
  rewrite (reduce_lowest_stays _ _ _ _ He Hothers). simpl.
  rewrite He. simpl. rewrite Hv. reflexivity.
Qed.

End EvictMore.

(** ** [decode] on arbitrary bytes *)

Section DecodeAny.
Context (C : Collab).
Implicit Types (s : Session C) (w : World C).

Lemma only_allocates_refl w : only_allocates w w.
Proof. repeat split. exists []. now rewrite app_nil_r. Qed.

Lemma only_allocates_trans w1 w2 w3 :
  only_allocates w1 w2 -> only_allocates w2 w3 -> only_allocates w1 w3.
Proof.
  intros (Hs1 & Ht1 & x1 & Hh1) (Hs2 & Ht2 & x2 & Hh2).
  split; [congruence|]. split; [congruence|].
  exists (x1 ++ x2). now rewrite Hh2, Hh1, app_assoc.
Qed.

Lemma allocating_ret {A : Type} (a : A) : allocating (C := C) (ret a).
Proof. intros w b w' b' r [= <- <- <-]. apply only_allocates_refl. Qed.

Lemma allocating_throw {A : Type} (e : Error) : allocating (C := C) (throw (A := A) e).
Proof. intros w b w' b' r [= <- <- <-]. apply only_allocates_refl. Qed.

Lemma allocating_bind {A B : Type} (m : M (World C * list (Wire C)) A)
    (k : A -> M (World C * list (Wire C)) B) :
  allocating (C := C) m -> (forall a, allocating (C := C) (k a)) -> allocating (C := C) (bind m k).
Proof.
  intros Hm Hk w b w' b' r. unfold bind.
  destruct (m (w, b)) as [[w1 b1] [e|a]] eqn:Em.
  - intros [= <- <- <-]. eapply Hm; eauto.
  - intros Hrun. eapply only_allocates_trans; [eapply Hm | eapply Hk]; eauto.
Qed.

Lemma allocating_decoder_call {A : Type}
    (f : list (Wire C) -> Error + (A * list (Wire C))) :
  allocating (C := C) (decoder_call f).
Proof.
  intros w b w' b' r. unfold decoder_call. simpl.
  destruct (f b) as [e|[a rest]]; intros [= <- <- <-]; apply only_allocates_refl.
Qed.

Lemma allocating_new_object (v : SessionState C) :
  allocating (C := C) (on_fst (new_object v)).
Proof.
  intros w b w' b' r. unfold on_fst, new_object. simpl.
  intros [= <- <- <-]. repeat split. eexists. reflexivity.
Qed.

Ltac allocating_step :=
  first
    [ apply allocating_ret
    | apply allocating_throw
    | apply allocating_decoder_call
    | apply allocating_new_object
    | apply allocating_bind; [|intros ?]
    | match goal with
      | |- allocating (match ?x with _ => _ end) => destruct x
      end ].

Lemma allocating_decode_states n : forall index acc,
  allocating (C := C) (decode_states n index acc).
Proof.
  induction n as [|n IH]; intros index acc; simpl.
  - apply allocating_ret.
  - repeat (apply allocating_bind; [|intros ?]);
      first [apply allocating_decoder_call | apply allocating_new_object | apply IH].
Qed.

Lemma allocating_decode_pending_item a : allocating (C := C) (decode_pending_item a).
Proof. unfold decode_pending_item. repeat allocating_step. Qed.

Lemma allocating_decode_property L vars : allocating (C := C) (decode_property L vars).
Proof.
  unfold decode_property.
  repeat first [ apply allocating_decode_states
               | apply allocating_decode_pending_item
               | allocating_step ].
Qed.

Lemma allocating_decode_properties n L : forall vars,
  allocating (C := C) (decode_properties n L vars).
Proof.
  induction n as [|n IH]; intros vars; simpl.
  - apply allocating_ret.
  - apply allocating_bind; [apply allocating_decode_property | intros ?; apply IH].
Qed.

Lemma allocating_decode L random_tag : allocating (C := C) (decode L random_tag).
Proof.
  unfold decode.
  repeat first [ apply allocating_decode_properties | allocating_step ].
Qed.

(** X8.  [Session.deserialise], on any bytes and whether it returns or
    throws, does nothing to the world but allocate: the prekey store is not
    asked anything, nothing is zeroized, and the objects that existed hold
    what they held. *)
Theorem deserialise_only_allocates L buf random_tag w w' r :
  deserialise (C := C) L buf random_tag w = (w', r) ->
  only_allocates w w'.
Proof.
  unfold deserialise.
  destruct (decode L random_tag (w, buf)) as [[w1 b1] r1] eqn:Erun.
  intros [= <- <-]. eapply allocating_decode; eauto.
Qed.

End DecodeAny.

Section DecodeTable.
Context (C : Collab).
Implicit Types (s : Session C) (w : World C).

Lemma table_ok_grow (states : JsObject (Entry C)) w w' :
  table_ok states w -> only_allocates w w' -> table_ok states w'.
Proof.
  intros (Hnd & Hkeys & Hrefs) (_ & _ & extra & Hheap).
  split; [exact Hnd|]. split; [exact Hkeys|].
  eapply List.Forall_impl; [|exact Hrefs]. simpl. intros ke Hke.
  rewrite Hheap, length_app. lia.
Qed.

Lemma table_ok_empty w : table_ok (C := C) [] w.
Proof. split; [constructor|]. split; constructor. Qed.

Lemma decode_states_table_ok n : forall index acc w b w' b' acc',
  table_ok acc w ->
  decode_states n index acc (w, b) = ((w', b'), inr acc') ->
  table_ok acc' w'.
Proof.
  induction n as [|n IH]; intros index acc w b w' b' acc' Hok; simpl.
  - unfold ret. intros [= <- _ <-]. exact Hok.
  - unfold bind, decoder_call, on_fst, new_object. simpl.
    destruct (SessionTag_decode C b) as [e|[t b1]]; simpl; [discriminate|].
    destruct (SessionState_decode C b1) as [e|[v b2]]; simpl; [discriminate|].
    apply IH. destruct Hok as (Hnd & Hkeys & Hrefs).
    split; [apply obj_set_NoDup; exact Hnd|].
    split; [apply obj_set_Forall; [exact Hkeys | reflexivity]|].
    apply obj_set_Forall; simpl.
    + eapply List.Forall_impl; [|exact Hrefs]. simpl. intros ke Hke.
      rewrite length_app. lia.
    + rewrite length_app. simpl. lia.
Qed.

Lemma decode_property_table_ok L vars w b w' b' vars' :
  table_ok (var_sessionStates vars) w ->
  decode_property L vars (w, b) = ((w', b'), inr vars') ->
  table_ok (var_sessionStates vars') w'.
Proof.
  intros Hok Hrun.
  pose proof (allocating_decode_property C L vars w b w' b' _ Hrun) as Hgrow.
  unfold decode_property, bind, decoder_call in Hrun. simpl in Hrun.
  repeat match type of Hrun with
         | context [match ?x with _ => _ end] => destruct x eqn:?
         end;
    try discriminate;
    inversion Hrun; subst; simpl;
    first [ eapply table_ok_grow; eassumption
          | match goal with
            | H : decode_states _ _ _ ?p = _ |- _ =>
                destruct p; eapply decode_states_table_ok;
                [apply table_ok_empty | exact H]
            end ].
Qed.

Lemma decode_properties_table_ok n L : forall vars w b w' b' vars',
  table_ok (var_sessionStates vars) w ->
  decode_properties n L vars (w, b) = ((w', b'), inr vars') ->
  table_ok (var_sessionStates vars') w'.
Proof.
  induction n as [|n IH]; intros vars w b w' b' vars' Hok; simpl.
  - unfold ret. intros [= <- _ <-]. exact Hok.
  - unfold bind.
    destruct (decode_property L vars (w, b)) as [[w1 b1] [e|vars1]] eqn:E1;
      [discriminate|].
    apply IH. eapply decode_property_table_ok; eauto.
Qed.

(** X9.  Whatever the bytes, also when they leave an item of the pending
    prekey out, a session that [Session.deserialise] returns is a proper
    one: the keys of its table are distinct and each is the string form of
    the tag of its entry, every entry holds an allocated object, the current
    name is the string form of [session_tag], the local identity is the
    caller's, and [counter] is 0. *)
Theorem deserialised_session_is_well_formed L buf random_tag w w' s' :
  deserialise (C := C) L buf random_tag w = (w', inr s') ->
  well_formed s' w' /\
  Forall (fun ke : string * Entry C => SessionTag_toString C (tag (snd ke)) = fst ke)
         (session_states s') /\
  session_tag_name s' = SessionTag_toString C (session_tag s') /\
  local_identity s' = L /\
  counter s' = 0%Z.
Proof.
  unfold deserialise, decode, bind.
  destruct (decoder_call (Decoder_object C) (w, buf)) as [[w1 b1] [e|n]] eqn:E1;
    simpl; [discriminate|].
  assert (w1 = w) as ->.
  { unfold decoder_call in E1. simpl in E1.
    destruct (Decoder_object C buf) as [?|[? ?]]; now injection E1. }
  destruct (decode_properties (Z.to_nat n) L initial_vars (w, b1))
    as [[w2 b2] [e|vars]] eqn:E2; simpl; [discriminate|].
  pose proof (decode_properties_table_ok _ _ initial_vars _ _ _ _ _
                (table_ok_empty w) E2) as (Hnd & Hkeys & Hrefs).
  destruct (var_remoteIdentity vars) as [remote|]; simpl; [|discriminate].
  unfold construct_decoded. unfold ret.
  intros [= <- <-]; simpl; repeat split; assumption.
Qed.

End DecodeTable.

(** ** The two factories *)

Section Factories.
Context (C : Collab).
Implicit Types (s : Session C) (w : World C).

(** X10.  [init_from_prekey] never asks the prekey store anything and
    zeroizes nothing.  If [SessionState.init_as_alice] throws, so does the
    factory, and the world is what it was.  Otherwise it returns, having
    allocated the one new state, a session of version 1 whose table holds
    that state alone, with [idx] 0 under the new tag, whose [counter] is 1
    and whose pending prekey is the id of the bundle with the public half of
    the base key. *)
Theorem init_from_prekey_result local bundle alice_base (t : SessionTag C) w w' r :
  init_from_prekey local bundle alice_base t w = (w', r) ->
  store w' = store w /\
  trace w' = trace w /\
  match SessionState_init_as_alice C local alice_base bundle with
  | inl e => r = inl e /\ w' = w
  | inr v =>
      heap w' = heap w ++ [v] /\
      r = inr (mkSession local (PreKeyBundle_identity_key C bundle) 1 1
                 (Some (Some (PreKeyBundle_prekey_id C bundle),
                        Some (KeyPair_public_key C alice_base)))
                 [(SessionTag_toString C t, mkEntry 0 (length (heap w)) t)]
                 t (SessionTag_toString C t))
  end.
Proof.
  unfold init_from_prekey, init_as_alice, new_object, with_session.
  monad_simpl.
  destruct (SessionState_init_as_alice C local alice_base bundle) as [e|v]; simpl.
  - intros [= <- <-]. repeat split; reflexivity.
  - rewrite insert_into_new_session. simpl.
    intros [= <- <-]. repeat split; reflexivity.
Qed.

(** X11.  [init_from_message].  A [CipherMessage] is refused with
    [InvalidMessage] (CASE_201) and a message of neither kind with
    [InvalidMessage] (CASE_202), the world untouched.  For a
    [PreKeyMessage] whose prekey the store does not have, the factory throws
    [ProteusError] (CASE_101) after the one load, having allocated nothing.
    Whenever it returns, the session is of version 1 with no pending prekey,
    its remote identity is the identity key of the message, taken without a
    check, its table holds the one new state, with [idx] 0 under the tag of
    the message, and [counter] is 1. *)
Theorem init_from_message_result our envelope w w' r :
  init_from_message our envelope w = (w', r) ->
  match Envelope_message C envelope with
  | IsCipherMessage _ =>
      w' = w /\ r = inl (mkError DecryptError_InvalidMessage CASE_201)
  | IsUnknownMessage =>
      w' = w /\ r = inl (mkError DecryptError_InvalidMessage CASE_202)
  | IsPreKeyMessage msg =>
      let id := pkm_prekey_id msg in
      let t := CipherMessage_session_tag C (pkm_message msg) in
      match snd (PreKeyStore_load_prekey C (store w) id) with
      | None =>
          r = inl (mkError ProteusError CASE_101) /\
          heap w' = heap w /\
          trace w' = trace w ++ [Ev_load_prekey id]
      | Some pre_key =>
          forall s plain, r = inr (s, plain) ->
            s = mkSession our (pkm_identity_key msg) 1 1 None
                  [(SessionTag_toString C t, mkEntry 0 (length (heap w)) t)]
                  t (SessionTag_toString C t) /\
            exists v,
              SessionState_init_as_bob C our (PreKey_key_pair C pre_key)
                (pkm_identity_key msg) (pkm_base_key msg) = inr v /\
              snd (SessionState_decrypt C v envelope (pkm_message msg)) = inr plain /\
              heap w' =
                heap w ++ [fst (SessionState_decrypt C v envelope (pkm_message msg))]
      end
  end.
Proof.
  unfold init_from_message.
  destruct (Envelope_message C envelope) as [msg|msg|].
  - intros [= <- <-]. split; reflexivity.
  - unfold with_session.
    set (t := CipherMessage_session_tag C (pkm_message msg)).
    set (s0 := new_Session our (pkm_identity_key msg) t None [] 1).
    cbv zeta.
    destruct (snd (PreKeyStore_load_prekey C (store w) (pkm_prekey_id msg)))
      as [pre_key|] eqn:Eload.
    + destruct (SessionState_init_as_bob C our (PreKey_key_pair C pre_key)
                  (pkm_identity_key msg) (pkm_base_key msg)) as [e|v] eqn:Ebob.
      * unfold _new_state, load_prekey, init_as_bob. monad_simpl.
        rewrite Eload. simpl. rewrite Ebob. simpl.
        intros [= <- <-]. discriminate.
      * unfold bind at 1.
        rewrite (new_state_success C msg s0 w pre_key v Eload Ebob).
        set (w1 := mkWorld (heap w ++ [v]) _ _).
        assert (Hv : heap w1 !! length (heap w) = Some v).
        { unfold w1. simpl. rewrite lookup_app_r by lia. now rewrite Nat.sub_diag. }
        unfold bind at 1. rewrite (state_decrypt_run C _ _ _ _ _ _ Hv).
        destruct (SessionState_decrypt C v envelope (pkm_message msg))
          as [v2 [e|p]] eqn:Edec; simpl.
        { intros [= <- <-]. discriminate. }
        unfold bind at 1. unfold s0 at 1. rewrite insert_into_new_session.
        destruct (pkm_prekey_id msg <? MAX_PREKEY_ID)%Z.
        -- unfold load_prekey, zeroize_prekey, delete_prekey. monad_simpl.
           destruct (snd (PreKeyStore_delete_prekey C _ _)); simpl;
             intros [= <- <-]; [discriminate|].
           intros s plain [= <- <-]. split; [reflexivity|].
           exists v. rewrite Edec. simpl. rewrite insert_app_r_alt by lia.
           rewrite Nat.sub_diag. repeat split; reflexivity.
        -- monad_simpl. intros [= <- <-].
           intros s plain [= <- <-]. split; [reflexivity|].
           exists v. rewrite Edec. simpl. rewrite insert_app_r_alt by lia.
           rewrite Nat.sub_diag. repeat split; reflexivity.
    + unfold _new_state, load_prekey. monad_simpl. rewrite Eload. simpl.
      intros [= <- <-]. repeat split; reflexivity.
  - intros [= <- <-]. split; reflexivity.
Qed.

End Factories.

(** ** [decrypt]: what a successful run commits, and a missing prekey *)

Section DecryptMore.
Context (C : Collab).
Implicit Types (s : Session C) (w : World C).

(** X12.  A [PreKeyMessage] of the expected identity, under a tag the
    session has no state for, whose prekey the store does not have:
    [decrypt] throws [ProteusError] (CASE_101), not the [InvalidMessage]
    (CASE_205) of the first attempt; the session and the objects are what
    they were, and the store was asked to load the prekey, once. *)
Theorem decrypt_prekey_message_missing_prekey envelope msg s w :
  Envelope_message C envelope = IsPreKeyMessage msg ->
  IdentityKey_fingerprint C (pkm_identity_key msg) =
    IdentityKey_fingerprint C (remote_identity s) ->
  obj_get (SessionTag_toString C (CipherMessage_session_tag C (pkm_message msg)))
          (session_states s) = None ->
  snd (PreKeyStore_load_prekey C (store w) (pkm_prekey_id msg)) = None ->
  decrypt envelope (s, w) =
    ((s, mkWorld (heap w)
           (fst (PreKeyStore_load_prekey C (store w) (pkm_prekey_id msg)))
           (trace w ++ [Ev_load_prekey (pkm_prekey_id msg)])),
     inl (mkError ProteusError CASE_101)).
Proof.
  intros Hmsg Hfp Hnone Hload.
  unfold decrypt. rewrite Hmsg. monad_simpl.
  rewrite Hfp, String.eqb_refl. simpl.
  unfold _decrypt_prekey_message, try_catch, _decrypt_cipher_message. monad_simpl.
  rewrite Hnone. simpl.
  unfold recover_with_new_state, _new_state, load_prekey. monad_simpl.
  rewrite Hload. reflexivity.
Qed.

End DecryptMore.

(** ** What every successful [decrypt] ends with: an insertion *)

Section DecryptEndsWithInsert.
Context (C : Collab).
Implicit Types (s : Session C) (w : World C).

(** A successful [_decrypt_cipher_message] is an insertion under the tag of
    the message into the session with its pending prekey cleared. *)
Lemma decrypt_cipher_message_post (Q : Session C -> Prop) envelope msg s w s' w' p :
  well_formed s w ->
  (forall st w0 s1 w1 r,
     well_formed (set_pending_prekey None s) w0 -> st < length (heap w0) ->
     _insert_session_state (CipherMessage_session_tag C msg) st
       (set_pending_prekey None s, w0) = ((s1, w1), r) ->
     Q s1) ->
  _decrypt_cipher_message envelope msg (s, w) = ((s', w'), inr p) ->
  Q s'.
Proof.
  intros Hwf Hins. unfold _decrypt_cipher_message.
  unfold bind at 1. unfold this at 1. unfold gets at 1. cbn [fst snd].
  destruct (obj_get (SessionTag_toString C (CipherMessage_session_tag C msg))
                    (session_states s)) as [entry|] eqn:Eentry; [|discriminate].
  destruct (well_formed_ref C s w _ _ Hwf Eentry) as [v Hv].
  unfold state_serialise, state_deserialise, state_decrypt, read_object,
    write_object, new_object.
  monad_simpl. rewrite Hv. simpl.
  destruct (SessionState_deserialise C (SessionState_serialise C v)) as [e|v1];
    simpl; [discriminate|].
  rewrite lookup_app_r by lia. rewrite Nat.sub_diag. simpl.
  destruct (SessionState_decrypt C v1 envelope msg) as [v2 [e|p0]]; simpl;
    [discriminate|].
  match goal with
  | |- context [_insert_session_state _ _ (_, ?x)] => set (w2 := x)
  end.
  assert (Hlen2 : length (heap w2) = S (length (heap w))).
  { unfold w2. simpl. rewrite length_insert, length_app. simpl. lia. }
  assert (Hwf2 : well_formed (set_pending_prekey None s) w2).
  { apply well_formed_heap_grow with (w := w); [exact Hwf | lia]. }
  assert (Hst : length (heap w) < length (heap w2)) by lia.
  destruct (_insert_session_state (CipherMessage_session_tag C msg) (length (heap w))
              (set_pending_prekey None s, w2)) as [[s2 w3] r2] eqn:Eins.
  destruct (insert_run C (CipherMessage_session_tag C msg) (length (heap w))
              _ w2 Hwf2 Hst) as (s3 & w4 & Hrun & _).
  rewrite Eins in Hrun. injection Hrun as -> -> ->.
  intros [= <- <- _]. eapply Hins; eauto.
Qed.

(** A successful recovery is an insertion under the tag of the message,
    after which the pending prekey is cleared. *)
Lemma recover_post (Q : Session C -> Prop) envelope msg s w s' w' p :
  well_formed s w ->
  (forall st w0 s1 w1 r,
     well_formed s w0 -> st < length (heap w0) ->
     _insert_session_state (CipherMessage_session_tag C (pkm_message msg)) st
       (s, w0) = ((s1, w1), r) ->
     Q (set_pending_prekey None s1)) ->
  recover_with_new_state envelope msg (s, w) = ((s', w'), inr p) ->
  Q s'.
Proof.
  intros Hwf Hins. unfold recover_with_new_state.
  destruct (new_state_run C msg s w) as (w1 & r1 & Hnew & Htr1 & Hst1 & Hr1).
  unfold bind at 1. rewrite Hnew.
  destruct r1 as [e|st]; [discriminate|].
  destruct Hr1 as (-> & v & Hheap1).
  assert (Hv : heap w1 !! length (heap w) = Some v).
  { rewrite Hheap1, lookup_app_r by lia. now rewrite Nat.sub_diag. }
  unfold bind at 1. rewrite (state_decrypt_run C _ _ _ _ _ _ Hv).
  set (D := SessionState_decrypt C v envelope (pkm_message msg)).
  set (w2 := set_heap _ w1).
  assert (Hlen2 : length (heap w2) = S (length (heap w))).
  { unfold w2. simpl. rewrite length_insert, Hheap1, length_app. simpl. lia. }
  destruct (snd D) as [e|p0]; [discriminate|].
  assert (Hstep : exists w3 r3,
    (if negb (pkm_prekey_id msg =? MAX_PREKEY_ID)%Z
     then prekey <- on_snd (load_prekey (pkm_prekey_id msg)) ;;
          on_snd (zeroize_prekey prekey) ;;
          on_snd (delete_prekey (pkm_prekey_id msg))
     else ret tt) (s, w2) = ((s, w3), r3) /\ heap w3 = heap w2).
  { destruct (negb _).
    - rewrite consume_prekey_run. eexists _, _. split; reflexivity.
    - eexists _, _. split; reflexivity. }
  destruct Hstep as (w3 & r3 & Hstep & Hheap3).
  unfold bind at 1. rewrite Hstep.
  destruct r3 as [e|[]]; [discriminate|].
  assert (Hwf3 : well_formed s w3)
    by (apply well_formed_heap_grow with (w := w); [exact Hwf | rewrite Hheap3; lia]).
  assert (Hst : length (heap w) < length (heap w3)) by (rewrite Hheap3; lia).
  destruct (insert_run C (CipherMessage_session_tag C (pkm_message msg))
              (length (heap w)) s w3 Hwf3 Hst) as (s2 & w4 & Hrun & _).
  unfold bind at 1. rewrite Hrun. monad_simpl.
  intros [= <- <- _]. eapply Hins; eauto.
Qed.

(** [decrypt] as a whole: from a session that satisfies [P], every
    successful run ends in a session that satisfies [Q], if an insertion
    under the tag of the message leads from [P] to [Q] and neither depends
    on the pending prekey. *)
Lemma decrypt_success_post (P Q : Session C -> Prop) envelope m s w s' w' p :
  inner_message C envelope = Some m ->
  (forall s0, P s0 -> P (set_pending_prekey None s0)) ->
  (forall s0, Q s0 -> Q (set_pending_prekey None s0)) ->
  (forall s0 st w0 s1 w1 r,
     P s0 -> well_formed s0 w0 -> st < length (heap w0) ->
     _insert_session_state (CipherMessage_session_tag C m) st (s0, w0) =
       ((s1, w1), r) ->
     Q s1) ->
  well_formed s w ->
  P s ->
  decrypt envelope (s, w) = ((s', w'), inr p) ->
  Q s'.
Proof.
  intros Hm HP HQ Hins Hwf Hs. unfold decrypt. unfold inner_message in Hm.
  destruct (Envelope_message C envelope) as [msg|msg|]; [| |discriminate];
    injection Hm as <-.
  - apply decrypt_cipher_message_post; [exact Hwf|].
    intros st w0 s1 w1 r Hwf0 Hst Hrun.
    exact (Hins _ _ _ _ _ _ (HP _ Hs) Hwf0 Hst Hrun).
  - monad_simpl.
    destruct (negb (String.eqb _ _)); [discriminate|].
    unfold _decrypt_prekey_message, try_catch.
    destruct (decrypt_cipher_message_run C envelope (pkm_message msg) s w Hwf)
      as (s1 & w1 & r1 & Hrun1 & _ & _ & Hlen1 & Hr1).
    unfold bind at 1. rewrite Hrun1.
    destruct r1 as [err|p1].
    + destruct Hr1 as (-> & _ & _).
      destruct (instanceof_InvalidSignature err || instanceof_InvalidMessage err);
        [|discriminate].
      apply recover_post.
      * apply well_formed_heap_grow with (w := w); assumption.
      * intros st w0 s1 w2 r Hwf0 Hst Hrun. apply HQ.
        exact (Hins _ _ _ _ _ _ Hs Hwf0 Hst Hrun).
    + unfold ret. intros [= <- <- <-].
      revert Hrun1. apply decrypt_cipher_message_post; [exact Hwf|].
      intros st w0 s2 w2 r Hwf0 Hst Hrun.
      exact (Hins _ _ _ _ _ _ (HP _ Hs) Hwf0 Hst Hrun).
Qed.

Lemma decrypt_success_inner_message envelope s w s' w' p :
  decrypt envelope (s, w) = ((s', w'), inr p) ->
  exists m, inner_message C envelope = Some m.
Proof.
  unfold decrypt, inner_message.
  destruct (Envelope_message C envelope) as [msg|msg|]; [eauto | eauto | discriminate].
Qed.

Lemma decrypt_failure_session envelope s w s' w' err :
  well_formed s w ->
  decrypt envelope (s, w) = ((s', w'), inl err) ->
  s' = s.
Proof.
  intros Hwf Hrun.
  destruct (decrypt_run C envelope s w Hwf) as (s1 & w1 & r1 & Hrun1 & _ & Hr1).
  rewrite Hrun in Hrun1. injection Hrun1 as <- <- <-.
  now destruct Hr1 as (-> & _).
Qed.

Lemma insert_sets_current (t : SessionTag C) (st : ref) s w s' w' r :
  well_formed s w -> st < length (heap w) ->
  _insert_session_state t st (s, w) = ((s', w'), r) ->
  session_tag_name s' = SessionTag_toString C t /\
  exists e, obj_get (session_tag_name s') (session_states s') = Some e.
Proof.
  intros Hwf Hst Hrun.
  destruct (insert_current_entry C t st s w s' w' r Hwf Hst Hrun)
    as (_ & Hname & e & He & _).
  split; [exact Hname|]. exists e. now rewrite Hname.
Qed.


Lemma decrypt_current_present envelope s w s' w' r :
  well_formed s w ->
  current_present s ->
  decrypt envelope (s, w) = ((s', w'), r) ->
  current_present s'.
Proof.
  intros Hwf Hcur Hrun. destruct r as [err|p].
  - rewrite (decrypt_failure_session _ _ _ _ _ _ Hwf Hrun). exact Hcur.
  - destruct (decrypt_success_inner_message _ _ _ _ _ _ Hrun) as [m Hm].
    apply (decrypt_success_post (fun _ => True) (@current_present C)
             envelope m s w s' w' p Hm); auto.
    intros s0 st w0 s1 w1 r _ Hwf0 Hst Hins.
    apply (insert_sets_current _ _ _ _ _ _ _ Hwf0 Hst Hins).
Qed.

(** X14.  [decrypt] keeps the order of insertion.  If every [idx] is below
    [counter] and the entries stand in the order of their [idx], without
    ties, the same holds after [decrypt], whether it returns or throws. *)
Theorem decrypt_keeps_idx_order envelope s w s' w' r :
  well_formed s w ->
  idx_below_counter s ->
  increasing (idx_list (session_states s)) ->
  decrypt envelope (s, w) = ((s', w'), r) ->
  idx_below_counter s' /\ increasing (idx_list (session_states s')).
Proof.
  intros Hwf Hbelow Hinc Hrun. destruct r as [err|p].
  - rewrite (decrypt_failure_session _ _ _ _ _ _ Hwf Hrun). split; assumption.
  - destruct (decrypt_success_inner_message _ _ _ _ _ _ Hrun) as [m Hm].
    apply (decrypt_success_post
             (fun s0 => idx_below_counter s0 /\
                        increasing (idx_list (session_states s0)))
             (fun s0 => idx_below_counter s0 /\
                        increasing (idx_list (session_states s0)))
             envelope m s w s' w' p Hm); auto.
    intros s0 st w0 s1 w1 r0 [Hb0 Hi0] Hwf0 Hst Hins. split.
    + eapply insert_keeps_idx_below_counter; eauto.
    + eapply insert_increasing; eauto.
Qed.

Lemma init_from_prekey_current local bundle alice_base (t : SessionTag C) w0 w s :
  init_from_prekey local bundle alice_base t w0 = (w, inr s) ->
  current_present s.
Proof.
  unfold init_from_prekey, init_as_alice, new_object, with_session.
  monad_simpl.
  destruct (SessionState_init_as_alice C local alice_base bundle) as [e|v];
    simpl; [discriminate|].
  rewrite insert_into_new_session. simpl. intros [= <- <-].
  eexists. unfold current_present. simpl. rewrite String.eqb_refl. reflexivity.
Qed.

Lemma init_from_message_current our envelope w0 w s plain :
  init_from_message our envelope w0 = (w, inr (s, plain)) ->
  current_present s.
Proof.
  unfold init_from_message.
  destruct (Envelope_message C envelope) as [msg|msg|]; try discriminate.
  unfold with_session.
  set (s0 := new_Session our (pkm_identity_key msg)
               (CipherMessage_session_tag C (pkm_message msg)) None [] 1).
  destruct (new_state_run C msg s0 w0) as (w1 & r1 & Hnew & _ & _ & Hr1).
  unfold bind at 1. rewrite Hnew.
  destruct r1 as [e|st]; [discriminate|].
  destruct Hr1 as (-> & v & Hheap1).
  assert (Hv : heap w1 !! length (heap w0) = Some v).
  { rewrite Hheap1, lookup_app_r by lia. now rewrite Nat.sub_diag. }
  unfold bind at 1. rewrite (state_decrypt_run C _ _ _ _ _ _ Hv).
  destruct (snd (SessionState_decrypt C v envelope (pkm_message msg))) as [e|p];
    [discriminate|].
  unfold bind at 1. unfold s0 at 1. rewrite insert_into_new_session.
  assert (Hcur : forall c p0 x y, current_present
            (mkSession our (pkm_identity_key msg) 1 c p0
               [(SessionTag_toString C (CipherMessage_session_tag C (pkm_message msg)), x)]
               y (SessionTag_toString C (CipherMessage_session_tag C (pkm_message msg))))).
  { intros. eexists. simpl. rewrite String.eqb_refl. reflexivity. }
  destruct (pkm_prekey_id msg <? MAX_PREKEY_ID)%Z.
  - unfold load_prekey, zeroize_prekey, delete_prekey. monad_simpl.
    destruct (snd (PreKeyStore_delete_prekey C _ _)); [discriminate|].
    intros [= <- <- _]. apply Hcur.
  - monad_simpl. intros [= <- <- _]. apply Hcur.
Qed.

End DecryptEndsWithInsert.

Section ReachableCurrent.
Context (C : Collab).
Hypothesis laws : CodecLaws C.
Implicit Types (s : Session C) (w : World C).

Lemma encrypt_session plaintext s w s' w' r :
  encrypt plaintext (s, w) = ((s', w'), r) -> s' = s.
Proof.
  unfold encrypt. monad_simpl.
  destruct (obj_get (session_tag_name s) (session_states s)) as [e|]; simpl.
  - unfold state_encrypt, read_object, write_object. monad_simpl.
    destruct (heap w !! state e) as [v|]; simpl.
    + destruct (snd (SessionState_encrypt C v _ _ _ _)); simpl; now intros [= <- _ _].
    + now intros [= <- _ _].
  - now intros [= <- _ _].
Qed.

Lemma reachable_current_present s w : reachable s w -> current_present s.
Proof.
  induction 1 as [local bundle alice_base t w0 w s Hid Hinit
                 | our envelope w0 w s plain Hinit
                 | s w plaintext s' w' r Hreach IH Henc
                 | s w envelope s' w' r Hreach IH Hdec
                 | s w buf w1 random_tag s' w' Hreach IH Hser Hdes
                 | s w st _ IH].
  - eapply init_from_prekey_current; eauto.
  - eapply init_from_message_current; eauto.
  - apply encrypt_session in Henc. now subst.
  - eapply decrypt_current_present; eauto.
    apply (ok_well_formed (reachable_session_ok C laws s w Hreach)).
  - pose proof (reachable_session_ok C laws s w Hreach) as Hok.
    destruct (deserialise_serialise_run C laws s w random_tag Hok)
      as (buf0 & tvs & Hall & Hser0 & Hdes0).
    rewrite Hser in Hser0. injection Hser0 as -> ->.
    rewrite Hdes in Hdes0. injection Hdes0 as -> ->.
    unfold current_present. simpl.
    destruct IH as [e He].
    rewrite <- (ok_tag_name Hok).
    apply obj_keys_get.
    rewrite decoded_entries_keys, (entry_content_names C _ _ _ Hall (ok_keys Hok)).
    eapply obj_get_Some_keys; eauto.
  - exact IH.
Qed.

(** X15.  In a reachable session the table has a state under the current
    name, and its object is allocated: [encrypt] never throws
    [ProteusError] (CASE_102) there.  What it returns or throws is what the
    [encrypt] of that state returns or throws, the session object is left as
    it is, and the state object holds what the ratchet left in it. *)
Theorem reachable_session_encrypts s w plaintext :
  reachable s w ->
  exists e v,
    obj_get (session_tag_name s) (session_states s) = Some e /\
    heap w !! state e = Some v /\
    encrypt plaintext (s, w) =
      ((s, set_heap
             (<[state e :=
                  fst (SessionState_encrypt C v
                         (IdentityKeyPair_public_key C (local_identity s))
                         (pending_prekey s) (session_tag s) plaintext)]> (heap w)) w),
       snd (SessionState_encrypt C v
              (IdentityKeyPair_public_key C (local_identity s))
              (pending_prekey s) (session_tag s) plaintext)).
Proof.
  intros Hreach.
  destruct (reachable_current_present s w Hreach) as [e He].
  pose proof (ok_well_formed (reachable_session_ok C laws s w Hreach)) as Hwf.
  destruct (well_formed_ref C s w _ _ Hwf He) as [v Hv].
  exists e, v. split; [exact He|]. split; [exact Hv|].
  unfold encrypt. monad_simpl. rewrite He. simpl.
  unfold state_encrypt, read_object, write_object. monad_simpl.
  rewrite Hv. simpl.
  destruct (snd (SessionState_encrypt C v _ _ _ _)); reflexivity.
Qed.

End ReachableCurrent.

(** ** What a successful [decrypt] of a [CipherMessage] commits *)

Section DecryptCommit.
Context (C : Collab).
Implicit Types (s : Session C) (w : World C).

Lemma after_insert_existing (t : SessionTag C) (st : ref) s e :
  obj_get (SessionTag_toString C t) (session_states s) = Some e ->
  session_states (after_insert t st s) =
    obj_set (SessionTag_toString C t) (mkEntry (idx e) st (tag e)) (session_states s) /\
  obj_keys (session_states (after_insert t st s)) = obj_keys (session_states s) /\
  counter (after_insert t st s) = counter s.
Proof.
  intros He.
  assert (Hstates : session_states (after_insert t st s) =
            obj_set (SessionTag_toString C t) (mkEntry (idx e) st (tag e))
                    (session_states s))
    by (rewrite after_insert_states, He; reflexivity).
  split; [exact Hstates|]. split.
  - rewrite Hstates. apply obj_keys_set_present. eapply obj_get_Some_keys; eauto.
  - unfold after_insert. rewrite He. simpl. destruct (negb _); reflexivity.
Qed.

(** X16.  The commit of a [CipherMessage].  When the table, below its
    bound, has a state under the tag of the message, the clone of that state
    is derived and the clone decrypts, then [decrypt] returns the plaintext
    and: the ratchet ran on the clone, a new object, every object that
    existed holds what it held, and the store and the trace are what they
    were; the entry of the tag keeps its [idx] and its tag object and now
    holds the clone; the other entries, the keys and their order and
    [counter] are unchanged; the pending prekey is cleared and the tag of
    the message is the current one. *)
Theorem decrypt_cipher_message_commits envelope msg s w e v v1 p :
  Envelope_message C envelope = IsCipherMessage msg ->
  obj_get (SessionTag_toString C (CipherMessage_session_tag C msg))
          (session_states s) = Some e ->
  heap w !! state e = Some v ->
  SessionState_deserialise C (SessionState_serialise C v) = inr v1 ->
  snd (SessionState_decrypt C v1 envelope msg) = inr p ->
  (obj_size (session_states s) < MAX_SESSION_STATES)%Z ->
  exists s',
    decrypt envelope (s, w) =
      ((s', set_heap (heap w ++ [fst (SessionState_decrypt C v1 envelope msg)]) w),
       inr p) /\
    obj_get (SessionTag_toString C (CipherMessage_session_tag C msg))
            (session_states s') = Some (mkEntry (idx e) (length (heap w)) (tag e)) /\
    (forall k, k <> SessionTag_toString C (CipherMessage_session_tag C msg) ->
       obj_get k (session_states s') = obj_get k (session_states s)) /\
    obj_keys (session_states s') = obj_keys (session_states s) /\
    counter s' = counter s /\
    pending_prekey s' = None /\
    session_tag_name s' = SessionTag_toString C (CipherMessage_session_tag C msg).
Proof.
  intros Hmsg He Hv Hclone Hdec Hsize.
  set (t := CipherMessage_session_tag C msg) in *.
  set (s1 := set_pending_prekey None s).
  assert (He1 : obj_get (SessionTag_toString C t) (session_states s1) = Some e)
    by exact He.
  destruct (after_insert_existing t (length (heap w)) s1 e He1)
    as (Hstates & Hkeys & Hcounter).
  exists (after_insert t (length (heap w)) s1). split.
  - unfold decrypt. rewrite Hmsg. unfold _decrypt_cipher_message.
    unfold bind at 1. unfold this at 1. unfold gets at 1. cbn [fst snd].
    fold t. rewrite He.
    unfold state_serialise, state_deserialise, state_decrypt, read_object,
      write_object, new_object.
    monad_simpl. rewrite Hv. simpl. rewrite Hclone. simpl.
    rewrite lookup_app_r by lia. rewrite Nat.sub_diag. simpl.
    destruct (SessionState_decrypt C v1 envelope msg) as [v2 r2]. simpl in Hdec.
    subst r2. simpl.
    rewrite insert_session_state_run. fold s1.
    unfold obj_size at 1. rewrite Hkeys.
    destruct (Z.ltb_spec (Z.of_nat (length (obj_keys (session_states s))))
                         MAX_SESSION_STATES) as [_|Hge];
      [|unfold obj_size in Hsize; lia].
    unfold set_heap. simpl. rewrite insert_app_r_alt by lia.
    rewrite Nat.sub_diag. reflexivity.
  - rewrite Hstates.
    split; [rewrite obj_get_set, String.eqb_refl; reflexivity|].
    split.
    { intros k Hk. rewrite obj_get_set.
      destruct (String.eqb_spec (SessionTag_toString C t) k); [congruence | reflexivity]. }
    rewrite <- Hstates.
    split; [exact Hkeys|]. split; [exact Hcounter|].
    split; [apply (after_insert_fields C t (length (heap w)) s1)|].
    apply after_insert_tag_name.
Qed.

End DecryptCommit.

(** ** [serialise] reads, [decode] checks *)

Section Codec.
Context (C : Collab).
Implicit Types (s : Session C) (w : World C).

(** X17.  [serialise] changes nothing: whatever it returns or throws, the
    world is the one it started in.  On a session that satisfies the
    invariant it returns bytes.  It throws a [RangeError] when [version] is
    not an unsigned 8 bit number, and when the prekey id of the pending
    prekey is not an unsigned 16 bit number. *)
Theorem serialise_only_reads s w :
  exists r,
    serialise s w = (w, r) /\
    (session_ok s w -> exists buf, r = inr buf) /\
    (~ is_u8 (version s) -> r = inl (mkError RangeError None)) /\
    (forall id item1,
       is_u8 (version s) ->
       pending_prekey s = Some (Some id, item1) ->
       ~ is_u16 id ->
       r = inl (mkError RangeError None)).
Proof.
  assert (Hw : exists r, serialise s w = (w, r)).
  { rewrite serialise_header. destruct (encode_header s) as [e|pre]; [eauto|].
    destruct (encode_states_same_objects C (session_states s) w w
                (fun _ _ _ => eq_refl) (obj_keys (session_states s)) pre)
      as (buf' & r & H1 & _).
    rewrite H1. destruct r; eauto. }
  destruct Hw as [r Hr]. exists r. split; [exact Hr|].
  split; [|split].
  - intros Hok. destruct (serialise_run C s w Hok) as (tvs & _ & Hser).
    rewrite Hser in Hr. injection Hr as <-. eauto.
  - intros Hv. rewrite serialise_header in Hr. unfold encode_header in Hr.
    destruct ((0 <=? version s)%Z && (version s <=? 255)%Z) eqn:E.
    + exfalso. apply Hv. apply andb_prop in E. unfold is_u8.
      destruct E as [E1 E2]. apply Z.leb_le in E1, E2. lia.
    + now injection Hr as <-.
  - intros id item1 Hv Hp Hid. rewrite serialise_header in Hr.
    unfold encode_header in Hr. rewrite Hp in Hr.
    destruct ((0 <=? version s)%Z && (version s <=? 255)%Z);
      [|now injection Hr as <-].
    destruct ((0 <=? id)%Z && (id <=? 65535)%Z) eqn:E.
    + exfalso. apply Hid. apply andb_prop in E. unfold is_u16.
      destruct E as [E1 E2]. apply Z.leb_le in E1, E2. lia.
    + now injection Hr as <-.
Qed.

Section WithLaws.
Hypothesis laws : CodecLaws C.

Lemma decode_property_identity L vars w k rest :
  decode_property L vars (w, Encoder_u8 C 2 ++ IdentityKey_encode C k ++ rest) =
  ((w, rest),
   if String.eqb (IdentityKey_fingerprint C (IdentityKeyPair_public_key C L))
                 (IdentityKey_fingerprint C k)
   then inr vars
   else inl (mkError DecodeError_LocalIdentityChanged CASE_300)).
Proof.
  unfold decode_property. unfold bind at 1.
  erewrite decoder_call_run by (apply (law_u8 laws); unfold is_u8; lia).
  cbv beta iota. unfold bind at 1.
  rewrite (decoder_call_run C _ _ _ _ _ (law_IdentityKey laws k rest)).
  cbv beta iota.
  destruct (String.eqb _ _); reflexivity.
Qed.

(** X18.  The local identity on the wire is only compared.  The bytes of a
    session, loaded under a key pair whose public key has another
    fingerprint than the one stored, make [deserialise] throw
    [LocalIdentityChanged] (CASE_300) before any state is read: nothing is
    allocated.  Under a key pair of the same fingerprint the session is
    loaded and its local identity is the key pair of the caller. *)
Theorem deserialise_checks_local_identity L s w random_tag :
  session_ok s w ->
  exists buf tvs,
    Forall2 (entry_content w) (session_states s) tvs /\
    serialise s w = (w, inr buf) /\
    deserialise L buf random_tag w =
      if String.eqb
           (IdentityKey_fingerprint C (IdentityKeyPair_public_key C L))
           (IdentityKey_fingerprint C (IdentityKeyPair_public_key C (local_identity s)))
      then (set_heap (heap w ++ map snd tvs) w,
            inr (new_Session L (remote_identity s) (session_tag s)
                   (pending_prekey s)
                   (decoded_entries 0 (length (heap w)) tvs) (version s)))
      else (w, inl (mkError DecodeError_LocalIdentityChanged CASE_300)).
Proof.
  intros Hok. destruct (serialise_run C s w Hok) as (tvs & Hall & Hser).
  destruct Hok as [[Hnd Hrefs] Hkeys Htag Hver Hpend Hsize].
  eexists _, tvs. split; [exact Hall|]. split; [exact Hser|].
  pose proof (Forall2_length _ _ _ Hall) as Hlen.
  assert (Hbound : (Z.of_nat (length tvs) <= 4294967295)%Z).
  { unfold obj_size, obj_keys, MAX_SESSION_STATES in Hsize.
    rewrite length_map in Hsize. lia. }
  assert (Hnames : List.NoDup (map (fun tv => SessionTag_toString C (fst tv)) tvs)).
  { rewrite (entry_content_names C _ _ _ Hall Hkeys). exact Hnd. }
  unfold deserialise, decode.
  unfold bind at 1.
  erewrite decoder_call_run by (apply (law_object laws); lia).
  change (Z.to_nat 6) with 6. cbn [decode_properties].
  unfold bind at 1. unfold bind at 1.
  rewrite (decode_property_version C laws) by exact Hver.
  unfold bind at 1. rewrite (decode_property_session_tag C laws).
  unfold bind at 1. rewrite decode_property_identity.
  destruct (String.eqb _ _); [|reflexivity].
  unfold bind at 1. rewrite (decode_property_remote_identity C laws).
  unfold bind at 1. rewrite (decode_property_pending C laws) by exact Hpend.
  unfold bind at 1. rewrite Hlen.
  rewrite <- (app_nil_r (entries_wire tvs)).
  rewrite (decode_property_states C laws) by assumption.
  unfold ret at 1. cbn [var_remoteIdentity fst snd initial_vars].
  unfold ret at 1. unfold construct_decoded. simpl.
  destruct (pending_prekey s) as [[item0 item1]|]; reflexivity.
Qed.

(** X19.  The remote identity is the one property [decode] insists on.
    An object without properties makes [deserialise] throw a [DecodeError]
    made without a code: it carries the code the class gives by default,
    whatever that is.  An object whose only property is the remote identity is
    loaded with the defaults of the constructor: version 1, the random tag,
    no pending prekey, an empty table; on that session [encrypt] throws
    [ProteusError] (CASE_102). *)
Theorem deserialise_needs_remote_identity_only L k random_tag w plaintext :
  deserialise L (Encoder_object C 0) random_tag w =
    (w, inl (mkError DecodeError (DecodeError_code C))) /\
  deserialise L (Encoder_object C 1 ++ Encoder_u8 C 3 ++ IdentityKey_encode C k)
    random_tag w =
    (w, inr (new_Session L k random_tag None [] 1)) /\
  encrypt plaintext (new_Session L k random_tag None [] 1, w) =
    ((new_Session L k random_tag None [] 1, w), inl (mkError ProteusError CASE_102)).
Proof.
  split; [|split].
  - unfold deserialise, decode. unfold bind at 1.
    rewrite <- (app_nil_r (Encoder_object C 0)).
    erewrite decoder_call_run by (apply (law_object laws); lia).
    reflexivity.
  - unfold deserialise, decode. unfold bind at 1.
    erewrite decoder_call_run by (apply (law_object laws); lia).
    change (Z.to_nat 1) with 1. cbn [decode_properties].
    unfold bind at 1. unfold bind at 1.
    rewrite <- (app_nil_r (IdentityKey_encode C k)).
    rewrite (decode_property_remote_identity C laws).
    reflexivity.
  - reflexivity.
Qed.

(** X20.  A property of a tag [decode] does not know is skipped: an object
    that starts with such a property decodes as the object without it does,
    to the same session or the same error, in the same world. *)
Theorem deserialise_skips_unknown_property L random_tag w n m blob rest :
  (5 < n <= 255)%Z ->
  (0 <= m < 4294967295)%Z ->
  (forall rest', Decoder_skip C (blob ++ rest') = inr (tt, rest')) ->
  deserialise L (Encoder_object C (m + 1) ++ Encoder_u8 C n ++ blob ++ rest)
    random_tag w =
  deserialise L (Encoder_object C m ++ rest) random_tag w.
Proof.
  intros Hn Hm Hskip. unfold deserialise, decode.
  unfold bind at 1.
  erewrite decoder_call_run by (apply (law_object laws); lia).
  unfold bind at 2.
  erewrite decoder_call_run by (apply (law_object laws); lia).
  replace (Z.to_nat (m + 1)) with (S (Z.to_nat m)) by lia.
  cbn [decode_properties].
  assert (Hprop : decode_property L initial_vars (w, Encoder_u8 C n ++ blob ++ rest) =
                  ((w, rest), inr initial_vars)).
  { unfold decode_property. unfold bind at 1.
    erewrite decoder_call_run by (apply (law_u8 laws); unfold is_u8; lia).
    cbv beta iota.
    assert (Hdefault : forall (A : Type) (a0 a1 a2 a3 a4 a5 d : A),
              match n with
              | 0%Z => a0 | 1%Z => a1 | 2%Z => a2 | 3%Z => a3 | 4%Z => a4 | 5%Z => a5
              | _ => d
              end = d).
    { intros. destruct n as [|q|q]; try lia.
      repeat (destruct q as [q|q|]; try lia; try reflexivity). }
    rewrite Hdefault. unfold bind at 1.
    rewrite (decoder_call_run C _ _ _ _ _ (Hskip rest)). reflexivity. }
  unfold bind at 1. unfold bind at 1. rewrite Hprop. reflexivity.
Qed.

End WithLaws.

End Codec.

(** ** When [decrypt] asks the prekey store *)

Section StoreCalls.
Context (C : Collab).
Implicit Types (s : Session C) (w : World C).

(** X21.  [decrypt] asks the prekey store only in the recovery.  Unless
    the envelope carries a [PreKeyMessage] of the expected identity whose
    first attempt failed with [InvalidSignature] or [InvalidMessage], in
    which case [decrypt] is the recovery run after that attempt, the store
    is what it was and no prekey was loaded, zeroized or deleted: a
    [CipherMessage], and a [PreKeyMessage] that a state of the table
    decrypts, cost no prekey. *)
Theorem decrypt_asks_store_only_in_recovery envelope s w s' w' r :
  well_formed s w ->
  decrypt envelope (s, w) = ((s', w'), r) ->
  (store w' = store w /\ prekey_events (trace w') = prekey_events (trace w)) \/
  exists msg err w1,
    Envelope_message C envelope = IsPreKeyMessage msg /\
    IdentityKey_fingerprint C (pkm_identity_key msg) =
      IdentityKey_fingerprint C (remote_identity s) /\
    _decrypt_cipher_message envelope (pkm_message msg) (s, w) = ((s, w1), inl err) /\
    instanceof_InvalidSignature err || instanceof_InvalidMessage err = true /\
    recover_with_new_state envelope msg (s, w1) = ((s', w'), r).
Proof.
  intros Hwf. unfold decrypt.
  destruct (Envelope_message C envelope) as [msg|msg|] eqn:Emsg.
  - intros Hrun. left.
    destruct (decrypt_cipher_message_run C envelope msg s w Hwf)
      as (s1 & w1 & r1 & Hrun1 & Hstore & Hevents & _).
    rewrite Hrun in Hrun1. injection Hrun1 as <- <- <-. split; assumption.
  - monad_simpl.
    destruct (String.eqb_spec (IdentityKey_fingerprint C (pkm_identity_key msg))
                (IdentityKey_fingerprint C (remote_identity s))) as [Hfp|Hfp]; simpl.
    + unfold _decrypt_prekey_message, try_catch.
      destruct (decrypt_cipher_message_run C envelope (pkm_message msg) s w Hwf)
        as (s1 & w1 & r1 & Hrun1 & Hstore & Hevents & _ & Hr1).
      unfold bind at 1. rewrite Hrun1.
      destruct r1 as [err|p1].
      * destruct Hr1 as (-> & _ & _).
        destruct (instanceof_InvalidSignature err || instanceof_InvalidMessage err)
          eqn:Erec.
        -- intros Hrun. right. exists msg, err, w1. auto.
        -- intros [= <- <- <-]. left. split; assumption.
      * unfold ret. intros [= <- <- <-]. left. split; assumption.
    + intros [= <- <- <-]. left. split; reflexivity.
  - intros [= <- <- <-]. left. split; reflexivity.
Qed.

End StoreCalls.

(** ** The properties above on the small instance *)

(** X1, on Bob's session: encrypting leaves the session and the trace as
    they were. *)
Lemma encrypt_leaves_session_unchanged_witness :
  fst (fst (encrypt (C := Toy.C) "hi"%string (Toy.bob, Toy.bob_world))) = Toy.bob /\
  trace (snd (fst (encrypt (C := Toy.C) "hi"%string (Toy.bob, Toy.bob_world)))) =
    trace Toy.bob_world.
Proof.
  destruct (encrypt_leaves_session_unchanged Toy.C "hi"%string Toy.bob Toy.bob_world
              (fst (fst (encrypt (C := Toy.C) "hi"%string (Toy.bob, Toy.bob_world))))
              (snd (fst (encrypt (C := Toy.C) "hi"%string (Toy.bob, Toy.bob_world))))
              (snd (encrypt (C := Toy.C) "hi"%string (Toy.bob, Toy.bob_world)))
              eq_refl) as (Hs & _ & Htr & _).
  split; [exact Hs | exact Htr].
Defined.

(** X2, on Bob's session with tags as objects.  A state inserted with
    another object of the bytes [t1] leaves [session_tag] the object it was;
    a state inserted under [t2] makes the inserted tag the current one. *)
Lemma insert_promotes_inserted_tag_witness :
  well_formed Toy.bob_labelled Toy.two_states /\
  _insert_session_state (C := Toy.labelled) ("t1"%string, 1) 1
    (Toy.bob_labelled, Toy.two_states) =
    ((mkSession (C := Toy.labelled) "B"%string "A"%string 1 1 None
        [("t1"%string, mkEntry (C := Toy.labelled) 0 1 ("t1"%string, 0))]
        ("t1"%string, 0) "t1"%string,
      Toy.two_states), inr tt) /\
  session_tag
    (fst (fst (_insert_session_state (C := Toy.labelled) ("t1"%string, 1) 1
                 (Toy.bob_labelled, Toy.two_states)))) = ("t1"%string, 0) /\
  session_tag
    (fst (fst (_insert_session_state (C := Toy.labelled) ("t2"%string, 5) 1
                 (Toy.bob_labelled, Toy.two_states)))) = ("t2"%string, 5).
Proof.
  assert (Hwf : well_formed Toy.bob_labelled Toy.two_states).
  { split; simpl; repeat constructor. intros []. }
  assert (Hst : 1 < length (heap Toy.two_states)) by (simpl; lia).
  split; [exact Hwf|]. split; [reflexivity|]. split.
  - destruct (insert_promotes_inserted_tag Toy.labelled ("t1"%string, 1) 1
                Toy.bob_labelled Toy.two_states _ _ _ Hwf Hst eq_refl)
      as (_ & _ & _ & _ & Hsame).
    exact (Hsame eq_refl).
  - destruct (insert_promotes_inserted_tag Toy.labelled ("t2"%string, 5) 1
                Toy.bob_labelled Toy.two_states _ _ _ Hwf Hst eq_refl)
      as (_ & _ & _ & Hother & _).
    apply Hother. discriminate.
Defined.

(** X3, on Bob's session and a second object: the entry of [t1] takes the
    new object and keeps its [idx]. *)
Lemma insert_existing_replaces_in_place_witness :
  exists s',
    _insert_session_state (C := Toy.C) "t1"%string 1
      (Toy.bob, mkWorld (C := Toy.C) [(42%Z, 1); (42%Z, 2)] Toy.store0 []) =
      ((s', mkWorld (C := Toy.C) [(42%Z, 1); (42%Z, 2)] Toy.store0 []), inr tt) /\
    obj_get "t1"%string (session_states s') =
      Some (mkEntry (C := Toy.C) 0 1 "t1"%string) /\
    counter s' = counter Toy.bob.
Proof.
  destruct (insert_existing_replaces_in_place Toy.C "t1"%string 1 Toy.bob
              (mkWorld (C := Toy.C) [(42%Z, 1); (42%Z, 2)] Toy.store0 [])
              (mkEntry (C := Toy.C) 0 0 "t1"%string) eq_refl eq_refl)
    as (s' & Hrun & _ & _ & Hcounter & He & _).
  exists s'. split; [exact Hrun|]. split; [exact He | exact Hcounter].
Defined.

(** X4, on Bob's session with [counter] at its bound: the state of [t1] is
    dropped and the one of [t2] is the only entry. *)
Lemma insert_at_counter_overflow_resets_witness :
  exists s',
    _insert_session_state (C := Toy.C) "t2"%string 0
      (set_counter MAX_SAFE_INTEGER Toy.bob, Toy.bob_world) =
      ((s', Toy.bob_world), inr tt) /\
    session_states s' = [("t2"%string, mkEntry (C := Toy.C) 0 0 "t2"%string)] /\
    counter s' = 1%Z.
Proof.
  destruct (insert_at_counter_overflow_resets Toy.C "t2"%string 0
              (set_counter MAX_SAFE_INTEGER Toy.bob) Toy.bob_world eq_refl
              ltac:(simpl; lia))
    as (s' & Hrun & Hstates & Hcounter & _).
  exists s'. split; [exact Hrun|]. split; [exact Hstates | exact Hcounter].
Defined.

(** X5, on Bob's session: after the insertion of [t2] the entries still
    stand in the order of their [idx]. *)
Lemma insert_keeps_idx_order_witness :
  idx_below_counter Toy.bob /\
  increasing (idx_list (session_states Toy.bob)) /\
  increasing
    (idx_list
       (session_states
          (fst (fst (_insert_session_state (C := Toy.C) "t2"%string 0
                       (Toy.bob, Toy.bob_world)))))).
Proof.
  assert (Hwf : well_formed Toy.bob Toy.bob_world)
    by (apply toy_well_formedb_sound; reflexivity).
  assert (Hst : 0 < length (heap Toy.bob_world)) by (simpl; lia).
  assert (Hbelow : idx_below_counter Toy.bob)
    by (repeat constructor).
  assert (Hinc : increasing (idx_list (session_states Toy.bob)))
    by (split; constructor).
  split; [exact Hbelow|]. split; [exact Hinc|].
  exact (proj1 (proj2 (insert_keeps_idx_order Toy.C "t2"%string 0
                         Toy.bob Toy.bob_world _ _ _ Hwf Hst Hbelow Hinc eq_refl))).
Defined.

(** X6, on a table whose three entries have the same [idx], as after a
    load: of [b] and [c], the first goes. *)
Lemma find_oldest_witness :
  exists e pre post,
    eviction_candidates "a"%string
      [("a"%string, mkEntry (C := Toy.C) 0 0 "a"%string);
       ("b"%string, mkEntry (C := Toy.C) 0 1 "b"%string);
       ("c"%string, mkEntry (C := Toy.C) 0 2 "c"%string)] =
      pre ++ "b"%string :: post /\
    obj_get "b"%string
      [("a"%string, mkEntry (C := Toy.C) 0 0 "a"%string);
       ("b"%string, mkEntry (C := Toy.C) 0 1 "b"%string);
       ("c"%string, mkEntry (C := Toy.C) 0 2 "c"%string)] = Some e.
Proof.
  destruct (find_oldest_is_first_of_smallest_idx Toy.C "a"%string
              [("a"%string, mkEntry (C := Toy.C) 0 0 "a"%string);
               ("b"%string, mkEntry (C := Toy.C) 0 1 "b"%string);
               ("c"%string, mkEntry (C := Toy.C) 0 2 "c"%string)]
              "b"%string eq_refl)
    as (e & pre & post & Hcand & He & _).
  exists e, pre, post. split; [exact Hcand | exact He].
Defined.

(** X7, on Bob's session with a second state under the current tag [t2]:
    the state of [t1] goes. *)
Lemma evict_removes_first_inserted_witness :
  exists e v,
    obj_get "t1"%string (session_states Toy.bob) = Some e /\
    _evict_oldest_session_state
      (mkSession (C := Toy.C) "B"%string "A"%string 1 2 None
         [("t1"%string, mkEntry (C := Toy.C) 0 0 "t1"%string);
          ("t2"%string, mkEntry (C := Toy.C) 1 1 "t2"%string)]
         "t2"%string "t2"%string,
       mkWorld (C := Toy.C) [(42%Z, 1); (99%Z, 1)] Toy.store0 []) =
      ((mkSession (C := Toy.C) "B"%string "A"%string 1 2 None
          [("t2"%string, mkEntry (C := Toy.C) 1 1 "t2"%string)]
          "t2"%string "t2"%string,
        zeroized e v (mkWorld (C := Toy.C) [(42%Z, 1); (99%Z, 1)] Toy.store0 [])),
       inr tt).
Proof.
  destruct (evict_removes_first_inserted Toy.C
              (mkSession (C := Toy.C) "B"%string "A"%string 1 2 None
                 [("t1"%string, mkEntry (C := Toy.C) 0 0 "t1"%string);
                  ("t2"%string, mkEntry (C := Toy.C) 1 1 "t2"%string)]
                 "t2"%string "t2"%string)
              (mkWorld (C := Toy.C) [(42%Z, 1); (99%Z, 1)] Toy.store0 [])
              "t1"%string [])
    as (e & v & He & _ & Hrun).
  - apply toy_well_formedb_sound. reflexivity.
  - simpl. repeat split; repeat constructor.
  - reflexivity.
  - exists e, v. split; [exact He | exact Hrun].
Defined.

(** X8, on bytes that end in the middle of a property after a state has
    been read: [deserialise] throws, and has only allocated. *)
Lemma deserialise_only_allocates_witness :
  snd (deserialise (C := Toy.C) "B"%string
         [Toy.T_object 2; Toy.T_u8 5; Toy.T_object 1; Toy.T_tag "x"%string;
          Toy.T_state (1%Z, 0); Toy.T_u8 9]
         "random"%string Toy.bob_world) = inl Toy.malformed /\
  only_allocates Toy.bob_world
    (fst (deserialise (C := Toy.C) "B"%string
            [Toy.T_object 2; Toy.T_u8 5; Toy.T_object 1; Toy.T_tag "x"%string;
             Toy.T_state (1%Z, 0); Toy.T_u8 9]
            "random"%string Toy.bob_world)).
Proof.
  split; [reflexivity|].
  apply (deserialise_only_allocates Toy.C "B"%string
           [Toy.T_object 2; Toy.T_u8 5; Toy.T_object 1; Toy.T_tag "x"%string;
            Toy.T_state (1%Z, 0); Toy.T_u8 9]
           "random"%string Toy.bob_world _ (inl Toy.malformed)).
  reflexivity.
Defined.

(** X9, on bytes that name the tag [x] twice and give the pending prekey
    its id but no key: the session has one entry under [x] and a pending
    prekey without its second item, and is well formed. *)
Lemma deserialised_session_is_well_formed_witness :
  exists s' w',
    deserialise (C := Toy.C) "B"%string
      [Toy.T_object 3; Toy.T_u8 3; Toy.T_identity "A"%string;
       Toy.T_u8 4; Toy.T_object 2; Toy.T_u8 0; Toy.T_u16 7; Toy.T_u8 9;
       Toy.T_u8 5; Toy.T_object 2; Toy.T_tag "x"%string; Toy.T_state (1%Z, 0);
       Toy.T_tag "x"%string; Toy.T_state (2%Z, 0)]
      "random"%string Toy.w0 = (w', inr s') /\
    pending_prekey s' = Some (Some 7%Z, None) /\
    obj_keys (session_states s') = ["x"%string] /\
    well_formed s' w' /\
    counter s' = 0%Z.
Proof.
  eexists _, _. split; [reflexivity|]. split; [reflexivity|].
  split; [reflexivity|].
  destruct (deserialised_session_is_well_formed Toy.C "B"%string
              [Toy.T_object 3; Toy.T_u8 3; Toy.T_identity "A"%string;
               Toy.T_u8 4; Toy.T_object 2; Toy.T_u8 0; Toy.T_u16 7; Toy.T_u8 9;
               Toy.T_u8 5; Toy.T_object 2; Toy.T_tag "x"%string;
               Toy.T_state (1%Z, 0); Toy.T_tag "x"%string; Toy.T_state (2%Z, 0)]
              "random"%string Toy.w0 _ _ eq_refl) as (Hwf & _ & _ & _ & Hcounter).
  split; [exact Hwf | exact Hcounter].
Defined.

(** X10, on Alice's side: her session from Bob's bundle of prekey 7. *)
Lemma init_from_prekey_result_witness :
  heap (fst (init_from_prekey (C := Toy.C) "A"%string (7%Z, "B"%string) 42%Z
               "t1"%string Toy.w0)) = [(42%Z, 0)] /\
  snd (init_from_prekey (C := Toy.C) "A"%string (7%Z, "B"%string) 42%Z
         "t1"%string Toy.w0) =
    inr (mkSession (C := Toy.C) "A"%string "B"%string 1 1
           (Some (Some 7%Z, Some 42%Z))
           [("t1"%string, mkEntry (C := Toy.C) 0 0 "t1"%string)]
           "t1"%string "t1"%string).
Proof.
  pose proof (init_from_prekey_result Toy.C "A"%string (7%Z, "B"%string) 42%Z
                "t1"%string Toy.w0
                (fst (init_from_prekey (C := Toy.C) "A"%string (7%Z, "B"%string) 42%Z
                        "t1"%string Toy.w0))
                (snd (init_from_prekey (C := Toy.C) "A"%string (7%Z, "B"%string) 42%Z
                        "t1"%string Toy.w0))
                eq_refl) as (_ & _ & Hheap & Hr).
  split; [exact Hheap | exact Hr].
Defined.

(** X11, on Bob's side: his session from Alice's first message. *)
Lemma init_from_message_result_witness :
  init_from_message (C := Toy.C) "B"%string Toy.hello Toy.w0 =
    (Toy.bob_world, inr (Toy.bob, "hello"%string)) /\
  Toy.bob =
    mkSession (C := Toy.C) "B"%string "A"%string 1 1 None
      [("t1"%string, mkEntry (C := Toy.C) 0 0 "t1"%string)] "t1"%string "t1"%string.
Proof.
  split; [reflexivity|].
  exact (proj1 (init_from_message_result Toy.C "B"%string Toy.hello Toy.w0
                  Toy.bob_world (inr (Toy.bob, "hello"%string)) eq_refl
                  Toy.bob "hello"%string eq_refl)).
Defined.

(** X12, on a prekey message made from prekey 8, which Bob's store does not
    have. *)
Lemma decrypt_prekey_message_missing_prekey_witness :
  decrypt (Toy.fresh 8) (Toy.bob, Toy.bob_world) =
    ((Toy.bob,
      mkWorld (C := Toy.C) (heap Toy.bob_world) (store Toy.bob_world)
        (trace Toy.bob_world ++ [Ev_load_prekey 8])),
     inl (mkError ProteusError CASE_101)).
Proof.
  exact (decrypt_prekey_message_missing_prekey Toy.C (Toy.fresh 8)
           (Toy.fresh_message 8) Toy.bob Toy.bob_world
           eq_refl eq_refl eq_refl eq_refl).
Defined.


(** X14, on the same message: Bob's two states stand in the order of their
    [idx]. *)
Lemma decrypt_keeps_idx_order_witness :
  well_formed Toy.bob Toy.bob_world /\
  idx_list
    (session_states
       (fst (fst (decrypt (Toy.fresh 65535) (Toy.bob, Toy.bob_world))))) =
    [0%Z; 1%Z] /\
  increasing
    (idx_list
       (session_states
          (fst (fst (decrypt (Toy.fresh 65535) (Toy.bob, Toy.bob_world)))))).
Proof.
  assert (Hwf : well_formed Toy.bob Toy.bob_world)
    by (apply toy_well_formedb_sound; reflexivity).
  assert (Hbelow : idx_below_counter Toy.bob) by (repeat constructor).
  assert (Hinc : increasing (idx_list (session_states Toy.bob)))
    by (split; constructor).
  split; [exact Hwf|]. split; [reflexivity|].
  exact (proj2 (decrypt_keeps_idx_order Toy.C (Toy.fresh 65535)
                  Toy.bob Toy.bob_world _ _ _ Hwf Hbelow Hinc eq_refl)).
Defined.

(** X15, on Bob's session. *)
Lemma reachable_session_encrypts_witness :
  CodecLaws Toy.C /\
  reachable Toy.bob Toy.bob_world /\
  exists e v,
    obj_get (session_tag_name Toy.bob) (session_states Toy.bob) = Some e /\
    heap Toy.bob_world !! state e = Some v.
Proof.
  split; [exact toy_codec_laws|]. split; [exact toy_bob_reachable|].
  destruct (reachable_session_encrypts Toy.C toy_codec_laws Toy.bob Toy.bob_world
              "hi"%string toy_bob_reachable) as (e & v & He & Hv & _).
  exists e, v. split; [exact He | exact Hv].
Defined.

(** X16, on the second message of the ratchet: the clone is the object at
    address 1, the object at address 0 is as it was. *)
Lemma decrypt_cipher_message_commits_witness :
  exists s',
    decrypt Toy.again (Toy.bob, Toy.bob_world) =
      ((s', set_heap (heap Toy.bob_world ++ [(42%Z, 2)]) Toy.bob_world),
       inr "again"%string) /\
    obj_get "t1"%string (session_states s') =
      Some (mkEntry (C := Toy.C) 0 1 "t1"%string).
Proof.
  destruct (decrypt_cipher_message_commits Toy.C Toy.again
              (Toy.mkCM "t1" 42 "again") Toy.bob Toy.bob_world
              (mkEntry (C := Toy.C) 0 0 "t1"%string) (42%Z, 1) (42%Z, 1)
              "again"%string eq_refl eq_refl eq_refl eq_refl eq_refl eq_refl)
    as (s' & Hrun & He & _).
  exists s'. split; [exact Hrun | exact He].
Defined.

(** X17, on Bob's session, which is written, and on the session Alice gets
    from a bundle whose prekey id is 65536, which is not. *)
Lemma serialise_only_reads_witness :
  session_ok Toy.bob Toy.bob_world /\
  (exists buf, serialise Toy.bob Toy.bob_world = (Toy.bob_world, inr buf)) /\
  init_from_prekey (C := Toy.C) "A"%string (65536%Z, "B"%string) 42%Z "t1"%string
    Toy.w0 =
    (Toy.alice_world,
     inr (set_pending_prekey (C := Toy.C) (Some (Some 65536%Z, Some 42%Z))
            Toy.alice)) /\
  serialise
    (set_pending_prekey (C := Toy.C) (Some (Some 65536%Z, Some 42%Z)) Toy.alice)
    Toy.alice_world =
    (Toy.alice_world, inl (mkError RangeError None)).
Proof.
  assert (Hok : session_ok Toy.bob Toy.bob_world)
    by (apply (reachable_session_ok Toy.C toy_codec_laws); exact toy_bob_reachable).
  split; [exact Hok|]. split; [|split; [reflexivity|]].
  - destruct (serialise_only_reads Toy.C Toy.bob Toy.bob_world)
      as (r & Hrun & Hret & _).
    destruct (Hret Hok) as [buf ->]. exists buf. exact Hrun.
  - destruct (serialise_only_reads Toy.C
                (set_pending_prekey (C := Toy.C) (Some (Some 65536%Z, Some 42%Z))
                   Toy.alice)
                Toy.alice_world) as (r & Hrun & _ & _ & Hrange).
    rewrite Hrun. f_equal.
    apply (Hrange 65536%Z (Some 42%Z)).
    + unfold is_u8. simpl. lia.
    + reflexivity.
    + unfold is_u16. lia.
Defined.

(** X18, on Bob's session loaded under the key pair of [E]. *)
Lemma deserialise_checks_local_identity_witness :
  CodecLaws Toy.C /\
  session_ok Toy.bob Toy.bob_world /\
  exists buf,
    serialise Toy.bob Toy.bob_world = (Toy.bob_world, inr buf) /\
    deserialise (C := Toy.C) "E"%string buf "random"%string Toy.bob_world =
      (Toy.bob_world, inl (mkError DecodeError_LocalIdentityChanged CASE_300)).
Proof.
  assert (Hok : session_ok Toy.bob Toy.bob_world)
    by (apply (reachable_session_ok Toy.C toy_codec_laws); exact toy_bob_reachable).
  split; [exact toy_codec_laws|]. split; [exact Hok|].
  destruct (deserialise_checks_local_identity Toy.C toy_codec_laws "E"%string
              Toy.bob Toy.bob_world "random"%string Hok)
    as (buf & tvs & _ & Hser & Hdes).
  exists buf. split; [exact Hser | exact Hdes].
Defined.

(** X19, on the small instance. *)
Lemma deserialise_needs_remote_identity_only_witness :
  CodecLaws Toy.C /\
  deserialise (C := Toy.C) "B"%string [Toy.T_object 0] "random"%string Toy.w0 =
    (Toy.w0, inl (mkError DecodeError (DecodeError_code Toy.C))) /\
  deserialise (C := Toy.C) "B"%string
    [Toy.T_object 1; Toy.T_u8 3; Toy.T_identity "A"%string] "random"%string Toy.w0 =
    (Toy.w0, inr (new_Session (C := Toy.C) "B"%string "A"%string
                    "random"%string None [] 1)).
Proof.
  split; [exact toy_codec_laws|].
  destruct (deserialise_needs_remote_identity_only Toy.C toy_codec_laws "B"%string
              "A"%string "random"%string Toy.w0 "hi"%string) as (H0 & H1 & _).
  split; [exact H0 | exact H1].
Defined.

(** X20, on an object whose first property has the tag 9. *)
Lemma deserialise_skips_unknown_property_witness :
  CodecLaws Toy.C /\
  deserialise (C := Toy.C) "B"%string
    [Toy.T_object 2; Toy.T_u8 9; Toy.T_null; Toy.T_u8 3; Toy.T_identity "A"%string]
    "random"%string Toy.w0 =
  deserialise (C := Toy.C) "B"%string
    [Toy.T_object 1; Toy.T_u8 3; Toy.T_identity "A"%string] "random"%string Toy.w0.
Proof.
  split; [exact toy_codec_laws|].
  apply (deserialise_skips_unknown_property Toy.C toy_codec_laws "B"%string
           "random"%string Toy.w0 9 1 [Toy.T_null]
           [Toy.T_u8 3; Toy.T_identity "A"%string]).
  - lia.
  - lia.
  - intros rest'. reflexivity.
Defined.

(** X21, on the prekey message that starts the ratchet over: the store is
    asked in the recovery, after the first attempt found no state under
    [t2]. *)
Lemma decrypt_asks_store_only_in_recovery_witness :
  well_formed Toy.bob Toy.bob_world /\
  ((store (snd (fst (decrypt (Toy.fresh 7) (Toy.bob, Toy.stubborn_world)))) =
      store Toy.stubborn_world /\
    prekey_events (trace (snd (fst (decrypt (Toy.fresh 7) (Toy.bob, Toy.stubborn_world))))) =
      prekey_events (trace Toy.stubborn_world)) \/
   exists msg err w1,
     Envelope_message Toy.C (Toy.fresh 7) = IsPreKeyMessage msg /\
     _decrypt_cipher_message (Toy.fresh 7) (pkm_message msg)
       (Toy.bob, Toy.stubborn_world) = ((Toy.bob, w1), inl err) /\
     instanceof_InvalidSignature err || instanceof_InvalidMessage err = true).
Proof.
  assert (Hwf : well_formed Toy.bob Toy.bob_world)
    by (apply toy_well_formedb_sound; reflexivity).
  assert (Hwf' : well_formed Toy.bob Toy.stubborn_world)
    by (apply toy_well_formedb_sound; reflexivity).
  split; [exact Hwf|].
  destruct (decrypt_asks_store_only_in_recovery Toy.C (Toy.fresh 7)
              Toy.bob Toy.stubborn_world _ _ _ Hwf' eq_refl)
    as [Hleft|(msg & err & w1 & Hmsg & _ & Hrun & Herr & _)].
  - left. exact Hleft.
  - right. exists msg, err, w1. split; [exact Hmsg|]. split; [exact Hrun | exact Herr].
Defined.
